(** * Relay bridge bot: the bridge-cycle logic of [scripts/bridge.js],
      [src/services/bridgeService.js], [src/services/relayService.js] and
      [src/utils/ethereum.js]

    The JavaScript sources are embedded shallowly.  Pure code becomes Rocq
    functions; code that talks to a chain RPC endpoint, to the 1inch API or to
    the Relay API becomes a computation in a small trace-and-exception monad
    that is run against an arbitrary [World] (one response function per kind
    of external call, indexed by the number of calls made so far, so that two
    reads of the same quantity may differ).  Every external call is recorded
    in the trace with its outcome; the statements about what the bot submits
    or requests are statements about traces.

    Conventions.
    - A [BigNumber] is a [Z]; [parseEther]/[parseUnits] constants are written
      in base units (wei, or 10^-6 USDC).  Numeric strings of API responses
      are taken to be well formed and are carried as their value.
    - A JavaScript object used as a dictionary is a [gmap]; a property that may
      be [undefined] is an [option]; truthiness tests are written out.
    - A provider is identified by the chain id whose RPC URL it was built
      from; a wallet by its address.
    - Floating point is not modelled: the comparison of [checkGasPrice] is
      done on wei (see [MAX_GAS_PRICE_WEI]), [Math.random] is a fraction over
      2^53, gas prices computed in floating point stay symbolic.
    - [console.log] lines and the strings formatted only for them are left
      out, except where formatting can throw. *)

From stdpp Require Import gmap strings list sorting pretty.

Local Open Scope string_scope.
Local Open Scope list_scope.
Local Open Scope Z_scope.

(** ** JavaScript values *)

Module JS.

(** The outcome of evaluating an expression that may [throw]. *)
Inductive Res (A : Type) : Type :=
| Ok (a : A)
| Throw (msg : string).
#[global] Arguments Ok {A} a.
#[global] Arguments Throw {A} msg.

(** Truthiness of a string-valued property: [undefined] and the empty
    string are falsy. *)
Definition truthy_str (o : option string) : bool :=
  match o with
  | Some s => negb (String.eqb s "")
  | None => false
  end.

(** Truthiness of a number-valued property: [undefined] and [0] are falsy. *)
Definition truthy_num (o : option Z) : bool :=
  match o with
  | Some n => negb (n =? 0)
  | None => false
  end.

(** [a || b] on string-valued properties. *)
Definition or_str (a b : option string) : option string :=
  if truthy_str a then a else b.

Definition or_num (a b : option Z) : option Z :=
  if truthy_num a then a else b.

(** [a || b] where a present value is an object or a non-empty numeric
    string (always truthy). *)
Definition or_else {A} (a b : option A) : option A :=
  match a with Some _ => a | None => b end.

(** [s.includes(sub)] *)
Fixpoint includes (s sub : string) : bool :=
  String.prefix sub s ||
  match s with
  | EmptyString => false
  | String _ s' => includes s' sub
  end.

(** The message of the [TypeError] raised by reading a property of
    [undefined]. *)
Definition TypeError_undefined : string :=
  "TypeError: Cannot read properties of undefined".

End JS.
Import JS.

(** ** The chain registry: constructor of [BridgeService] *)

Module Registry.

(** [this.chainIds], in insertion order (the order of [Object.entries] and
    [Object.values] on string keys). *)
Definition chainIds : list (string * Z) :=
  [ ("base", 8453); ("arbitrum", 42161); ("optimism", 10); ("linea", 59144) ].

Definition USDC_Base : string := "0x833589fCD6eDb6E08f4c7C32D4f71b54bdA02913".
Definition WETH_Base : string := "0x4200000000000000000000000000000000000006".
Definition USDC_Arbitrum : string := "0xaf88d065e77c8cC2239327C5EDb3A432268e5831".
Definition WETH_Arbitrum : string := "0x82aF49447D8a07e3bd95BD0d56f35241523fBab1".
Definition USDC_Optimism : string := "0x0b2C639c533813f4Aa9D7837CAf62653d097Ff85".
Definition WETH_Optimism : string := "0x4200000000000000000000000000000000000006".
Definition USDC_Linea : string := "0x176211869cA2b568f2A7D4EE941E073a821EE1ff".
Definition WETH_Linea : string := "0xe5D7C2a44FfDDf6b295A15c148167daaAf5Cf34f".

(** [this.tokenAddresses[chainId]]: the token table of a chain, in
    insertion order, or [None] for [undefined]. *)
Definition tokenAddresses (chainId : Z) : option (list (string * string)) :=
  if chainId =? 8453 then Some [ ("USDC", USDC_Base); ("WETH", WETH_Base) ]
  else if chainId =? 42161 then Some [ ("USDC", USDC_Arbitrum); ("WETH", WETH_Arbitrum) ]
  else if chainId =? 10 then Some [ ("USDC", USDC_Optimism); ("WETH", WETH_Optimism) ]
  else if chainId =? 59144 then Some [ ("USDC", USDC_Linea); ("WETH", WETH_Linea) ]
  else None.

Definition assoc {V} (k : string) (l : list (string * V)) : option V :=
  snd <$> List.find (fun kv => String.eqb (fst kv) k) l.

(** [this.tokenAddresses[chainId][symbol]]: reading a property of
    [undefined] throws, a missing symbol yields [undefined]. *)
Definition tokenAddress (chainId : Z) (symbol : option string) : Res (option string) :=
  match tokenAddresses chainId with
  | Some table => Ok (symbol ≫= fun s => assoc s table)
  | None => Throw TypeError_undefined
  end.

(** [Object.entries(this.chainIds).find(([name, id]) => id === chainId)[0]] *)
Definition chainNameOf (chainId : Z) : Res string :=
  match List.find (fun kv => snd kv =? chainId) chainIds with
  | Some kv => Ok (fst kv)
  | None => Throw TypeError_undefined
  end.

(** [new ethers.providers.JsonRpcProvider(this.rpcUrls[chainId])]: the table
    of RPC URLs has the four registered chain ids as its keys.  For any
    other id the URL is [undefined], and ethers then connects to its default
    URL, http://localhost:8545; the provider of that node is [LOCAL_NODE]. *)
Definition LOCAL_NODE : Z := 0.

Definition rpcProvider (chainId : Z) : Z :=
  if (chainId =? 8453) || (chainId =? 42161) || (chainId =? 10) || (chainId =? 59144)
  then chainId
  else LOCAL_NODE.

(** The fixed set of supported networks. *)
Definition supported (chainId : Z) : Prop :=
  chainId = 8453 \/ chainId = 42161 \/ chainId = 10 \/ chainId = 59144.

(** The same set, as the keys a snapshot may have. *)
Definition supported_chains : gset Z := {[ 8453; 42161; 10; 59144 ]}.

Definition ZERO_ADDRESS : string := "0x0000000000000000000000000000000000000000".

End Registry.
Import Registry.

(** ** Balance snapshots *)

(** One token entry of a snapshot.  [checkTokenBalancesAcrossChains] stores
    either [{address, balance, formatted, decimals}] or [{error}]. *)
Record TokenEntry : Type := mkTokenEntry {
  te_address : option string;
  te_balance : option Z;
  te_formatted : option string;
  te_decimals : option Z;
  te_error : option string
}.

Definition entry_read (address : string) (balance : Z) (formatted : string)
    (decimals : Z) : TokenEntry :=
  mkTokenEntry (Some address) (Some balance) (Some formatted) (Some decimals) None.

Definition entry_error (msg : string) : TokenEntry :=
  mkTokenEntry None None None None (Some msg).

(** [balances[chainId]]: [{ chainName, USDC: ..., WETH: ... }]. *)
Record ChainData : Type := mkChainData {
  chainName : string;
  tokens : gmap string TokenEntry
}.

(** The snapshot is an object keyed by chain id. *)
Abbreviation Balances := (gmap Z ChainData).

Definition key_le (x y : Z * ChainData) : Prop := fst x <= fst y.

#[global] Instance key_le_dec : RelDecision key_le.
Proof. intros x y. unfold key_le. apply _. Defined.

(** [Object.entries(balances)]: integer-like keys are enumerated in ascending
    numeric order. *)
Definition Object_entries (balances : Balances) : list (Z * ChainData) :=
  merge_sort key_le (map_to_list balances).

(** ** Data exchanged with the outside world *)

(** A destination or source token as reported by the 1inch API
    ([toToken] / [dstToken]). *)
Record TokenInfo : Type := mkTokenInfo {
  ti_address : option string;
  ti_symbol : option string;
  ti_decimals : option Z
}.

(** The [tx] object of a 1inch swap response. *)
Record SwapTx : Type := mkSwapTx {
  stx_to : option string;
  stx_data : option string;
  stx_value : option Z
}.

(** The body of a 1inch swap response.  Amounts are decimal strings in the
    API; a present amount is [Some] of its value. *)
Record QuoteData : Type := mkQuoteData {
  q_tx : option SwapTx;
  q_toAmount : option Z;
  q_dstAmount : option Z;
  q_amount : option Z;
  q_toToken : option TokenInfo;
  q_dstToken : option TokenInfo;
  q_toTokenAddress : option string;
  q_dst : option string
}.

(** The query of [getQuote]: [src], [dst], [amount], [from], [receiver] on
    the endpoint of [chainId] (fee, slippage and referrer are constants). *)
Record SwapParams : Type := mkSwapParams {
  sp_chainId : Z;
  sp_src : option string;
  sp_dst : option string;
  sp_amount : Z;
  sp_from : string;
  sp_receiver : string
}.

(** The transaction payload of an item of a Relay step. *)
Record TxData : Type := mkTxData {
  tx_to : string;
  tx_data : string;
  tx_value : option Z;
  tx_gasPrice : option Z;
  tx_chainId : Z
}.

Record StepItem : Type := mkStepItem { item_data : option TxData }.

Record Step : Type := mkStep {
  step_id : string;
  step_items : option (list StepItem);
  step_requestId : option string
}.

(** The body of a Relay quote response. *)
Record BridgeQuote : Type := mkBridgeQuote { steps : option (list Step) }.

(** The body posted by [relayService.requestQuote]; [rq_slippageTolerance] is
    the percent string before its conversion to an integer string. *)
Record RelayQuoteParams : Type := mkRelayQuoteParams {
  rq_user : string;
  rq_recipient : string;
  rq_originChainId : Z;
  rq_destinationChainId : Z;
  rq_originCurrency : option string;
  rq_destinationCurrency : option string;
  rq_amount : Z;
  rq_slippageTolerance : string
}.

(** The [gasPrice] field of a submitted transaction.  Two call sites compute
    it in floating point; they are kept symbolic. *)
Inductive GasPriceField : Type :=
| GasPriceWei (p : Z)
| GasPriceOfGwei (checked : option Z)   (* [currentGwei * 1e9] *)
| GasPriceDefault.                      (* [0.15 * 1e9] *)

(** What is handed to the signer for broadcast. *)
Inductive TxRequest : Type :=
| TxApprove (token spender : string) (amount gasLimit : Z) (gasPrice : option Z)
| TxDeposit (weth : string) (value gasLimit gasPrice : Z)
| TxRaw (to data : option string) (value : Z) (gasPrice : GasPriceField)
        (gasLimit : option Z).

(** The argument of [estimateGas]. *)
Record CallRequest : Type := mkCallRequest {
  call_to : option string;
  call_data : option string;
  call_value : Z
}.

(** Every interaction with the outside, with its outcome. *)
Inductive Event : Type :=
| EvDecimals (chain : Z) (token : string) (r : Res Z)
| EvBalanceOf (chain : Z) (token owner : string) (r : Res Z)
| EvGasPrice (chain : Z) (r : Res Z)
| EvGetBalance (chain : Z) (owner : string) (r : Res Z)
| EvAllowance (chain : Z) (token owner spender : string) (r : Res Z)
| EvEstimateGas (chain : Z) (sender : string) (c : CallRequest) (r : Res Z)
| EvSubmit (chain : Z) (sender : string) (tx : TxRequest) (r : Res string)
| EvWait (chain : Z) (hash : string) (r : Res Z)
| EvSwapQuote (p : SwapParams) (r : Res (option QuoteData))
| EvRelayQuote (p : RelayQuoteParams) (r : Res (Z * BridgeQuote))
| EvRelayStatus (requestId : option string) (r : Res (option string))
| EvRandom (r : Z)
| EvSleep (ms : Z).

(** The trace of a run, most recent event first. *)
Abbreviation Trace := (list Event).

(** The environment.  The first argument of each response function is the
    number of interactions that took place before the call.  A provider is
    identified by the chain id whose RPC URL it was built from, the one
    built without a URL by [LOCAL_NODE]. *)
Record World : Type := mkWorld {
  rpc_decimals : nat -> Z -> string -> Res Z;
  rpc_balanceOf : nat -> Z -> string -> string -> Res Z;
  rpc_getGasPrice : nat -> Z -> Res Z;
  rpc_getBalance : nat -> Z -> string -> Res Z;
  rpc_allowance : nat -> Z -> string -> string -> string -> Res Z;
  rpc_estimateGas : nat -> Z -> string -> CallRequest -> Res Z;
  rpc_sendTransaction : nat -> Z -> string -> TxRequest -> Res string;
  rpc_wait : nat -> Z -> string -> Res Z;
  oneinch_swap : nat -> SwapParams -> Res (option QuoteData);
  relay_quote : nat -> RelayQuoteParams -> Res (Z * BridgeQuote);
  relay_status : nat -> option string -> Res (option string);
  (** [Math.random()], as the numerator of a fraction over 2^53 *)
  Math_random : nat -> Z;
  (** [ethers.utils.formatUnits] on a valid number of decimals *)
  formatUnits : Z -> Z -> string
}.

(** ** The monad of effectful code *)

Definition M (A : Type) : Type := Trace -> Res A * Trace.

Definition ret {A} (a : A) : M A := fun tr => (Ok a, tr).

Definition throw {A} (msg : string) : M A := fun tr => (Throw msg, tr).

Definition bind {A B} (m : M A) (k : A -> M B) : M B :=
  fun tr =>
    match m tr with
    | (Ok a, tr') => k a tr'
    | (Throw e, tr') => (Throw e, tr')
    end.

(** [try { m } catch (error) { h error.message }] *)
Definition try_catch {A} (m : M A) (h : string -> M A) : M A :=
  fun tr =>
    match m tr with
    | (Ok a, tr') => (Ok a, tr')
    | (Throw e, tr') => h e tr'
    end.

(** Lifting of a pure expression that may throw. *)
Definition lift {A} (r : Res A) : M A := fun tr => (r, tr).

(** An external call: ask the world, record the event. *)
Definition call {A} (ask : nat -> Res A) (ev : Res A -> Event) : M A :=
  fun tr => let r := ask (length tr) in (r, ev r :: tr).

Declare Scope js_scope.
Delimit Scope js_scope with js.
Notation "x <- m ; k" := (bind m (fun x => k))
  (at level 20, m at level 100, k at level 200, only parsing) : js_scope.
Notation "m ;; k" := (bind m (fun _ => k))
  (at level 100, k at level 200, only parsing, right associativity) : js_scope.
Local Open Scope js_scope.

(** [formatUnits(value, decimals)] throws on a decimal count outside
    [0, 256]. *)
Definition formatUnits_checked (W : World) (value d : Z) : Res string :=
  if (0 <=? d) && (d <=? 256) then Ok (formatUnits W value d)
  else Throw "invalid decimal size".

(** ** [src/utils/ethereum.js] *)

Module EthereumUtils.
Section WithWorld.
Variable W : World.

(** [ethers.constants.MaxUint256] *)
Definition MaxUint256 : Z := 2 ^ 256 - 1.

(** A wallet connected to a provider. *)
Record ConnectedWallet : Type := mkConnectedWallet {
  cw_address : string;
  cw_chain : Z
}.

(** [approveToken(wallet, tokenAddress, spenderAddress, options = {})].
    [options] carries at most a [gasPrice].  Constructing the contract on an
    [undefined] address throws; every exception is turned into [false]. *)
Definition approveToken (wallet : ConnectedWallet) (tokenAddress : option string)
    (spenderAddress : string) (options : option Z) : M bool :=
  try_catch
    (match tokenAddress with
     | None => throw "invalid contract address or ENS name"
     | Some token =>
         let c := cw_chain wallet in
         let owner := cw_address wallet in
         currentAllowance <-
           call (fun t => rpc_allowance W t c token owner spenderAddress)
                (EvAllowance c token owner spenderAddress) ;
         if 0 <? currentAllowance then ret true
         else
           let txParams := TxApprove token spenderAddress MaxUint256 100000 options in
           hash <- call (fun t => rpc_sendTransaction W t c owner txParams)
                        (EvSubmit c owner txParams) ;
           call (fun t => rpc_wait W t c hash) (EvWait c hash) ;;
           ret true
     end)
    (fun _ => ret false).

End WithWorld.
End EthereumUtils.

(** ** [src/services/relayService.js] *)

Module RelayService.
Section WithWorld.
Variable W : World.

(** [requestQuote(params)]: the POST succeeds only with status 200; the
    [catch] logs and re-throws. *)
Definition requestQuote (params : RelayQuoteParams) : M BridgeQuote :=
  response <- call (fun t => relay_quote W t params) (EvRelayQuote params) ;
  if fst response =? 200 then ret (snd response)
  else throw "Relay API returned status".

End WithWorld.
End RelayService.

(** ** [src/services/bridgeService.js] *)

Module BridgeService.
Import EthereumUtils.
Section WithWorld.
Variable W : World.

(** The body of the inner loop of [checkTokenBalancesAcrossChains]: the two
    reads and the formatting are under one [try]; a failure becomes the
    [{ error }] entry. *)
Definition readToken (chainId : Z) (address walletAddress : string) : M TokenEntry :=
  try_catch
    (d <- call (fun t => rpc_decimals W t chainId address) (EvDecimals chainId address) ;
     bal <- call (fun t => rpc_balanceOf W t chainId address walletAddress)
                 (EvBalanceOf chainId address walletAddress) ;
     text <- lift (formatUnits_checked W bal d) ;
     ret (entry_read address bal text d))
    (fun msg => ret (entry_error msg)).

(** [balances[chainId][symbol] = entry] *)
Definition set_token (chainId : Z) (sym : string) (e : TokenEntry)
    (balances : Balances) : Balances :=
  alter (fun cd => mkChainData (chainName cd) (<[sym := e]> (tokens cd))) chainId balances.

(** The loop over [Object.entries(this.tokenAddresses[chainId])]. *)
Fixpoint readTokens (chainId : Z) (walletAddress : string)
    (table : list (string * string)) (balances : Balances) : M Balances :=
  match table with
  | [] => ret balances
  | (sym, address) :: rest =>
      e <- readToken chainId address walletAddress ;
      readTokens chainId walletAddress rest (set_token chainId sym e balances)
  end.

(** The loop over [Object.entries(this.chainIds)]. *)
Fixpoint readChains (walletAddress : string) (chains : list (string * Z))
    (balances : Balances) : M Balances :=
  match chains with
  | [] => ret balances
  | (name, chainId) :: rest =>
      let balances := <[chainId := mkChainData name ∅]> balances in
      table <- lift (match tokenAddresses chainId with
                     | Some table => Ok table
                     | None => Throw TypeError_undefined
                     end) ;
      balances <- readTokens chainId walletAddress table balances ;
      readChains walletAddress rest balances
  end.

(** [checkTokenBalancesAcrossChains(walletAddress)] *)
Definition checkTokenBalancesAcrossChains (walletAddress : string) : M Balances :=
  readChains walletAddress chainIds ∅.

(** The result of the legacy [findBestTokenToBridge] of the service. *)
Record BestToken : Type := mkBestToken {
  bt_symbol : string;
  bt_sourceChainId : Z;
  bt_chainName : string;
  bt_tokenAddress : option string;
  bt_balance : Z
}.

(** The running variables [bestToken], [sourceChainId], [tokenAddress],
    [tokenBalance] of the legacy selection. *)
Record Running : Type := mkRunning {
  run_bestToken : option string;
  run_sourceChainId : option Z;
  run_tokenAddress : option string;
  run_tokenBalance : Z
}.

Definition legacy_scan (sym : string) (st : Running) (kv : Z * ChainData) : Running :=
  let '(chainId, chainData) := kv in
  match tokens chainData !! sym with
  | Some e =>
      match te_balance e with
      | Some bal =>
          if truthy_str (te_error e) then st
          else if run_tokenBalance st <? bal
               then mkRunning (Some sym) (Some chainId) (te_address e) bal
               else st
      | None => st
      end
  | None => st
  end.

(** [BridgeService.findBestTokenToBridge(balances)]: USDC first, then WETH,
    no minimum amount.  Only [bridgeTokens] calls it. *)
Definition findBestTokenToBridge (balances : Balances) : Res BestToken :=
  let entries := Object_entries balances in
  let st := fold_left (legacy_scan "USDC") entries (mkRunning None None None 0) in
  let st := match run_bestToken st with
            | None => fold_left (legacy_scan "WETH") entries st
            | Some _ => st
            end in
  match run_bestToken st, run_sourceChainId st with
  | Some sym, Some chainId =>
      match chainNameOf chainId with
      | Ok name => Ok (mkBestToken sym chainId name (run_tokenAddress st) (run_tokenBalance st))
      | Throw e => Throw e
      end
  | _, _ => Throw "No available token balance found on any chain"
  end.

(** [Math.floor(Math.random() * n)] *)
Definition random_index (r : Z) (n : nat) : Z := (r * Z.of_nat n) `div` 2 ^ 53.

(** [findDestinationChain(sourceChainId)]; the two name lookups throw on an
    id that is not registered, the [catch] re-throws. *)
Definition findDestinationChain (sourceChainId : Z) : M Z :=
  let availableChainIds :=
    List.filter (fun id => negb (id =? sourceChainId)) (List.map snd chainIds) in
  r <- call (fun t => Ok (Math_random W t))
            (fun r => EvRandom (match r with Ok x => x | Throw _ => 0 end)) ;
  let i := random_index r (length availableChainIds) in
  let destinationChainId :=
    if i <? 0 then None else availableChainIds !! Z.to_nat i in
  lift (chainNameOf sourceChainId) ;;
  match destinationChainId with
  | Some d => lift (chainNameOf d) ;; ret d
  | None => throw TypeError_undefined
  end.

(** The argument object of [requestBridgeQuote]. *)
Record BridgeParams : Type := mkBridgeParams {
  bp_user : string;
  bp_recipient : option string;
  bp_originChainId : Z;
  bp_destinationChainId : Z;
  bp_tokenAddress : option string;
  bp_symbol : option string;
  bp_amount : Z;
  bp_slippageTolerance : option string;
  bp_targetSymbol : option string;
  bp_destinationCurrency : option string
}.

(** [requestBridgeQuote(params)] *)
Definition requestBridgeQuote (params : BridgeParams) : M BridgeQuote :=
  destinationCurrency <-
    (if truthy_str (bp_destinationCurrency params) then ret (bp_destinationCurrency params)
     else if truthy_str (bp_targetSymbol params)
          then lift (tokenAddress (bp_destinationChainId params) (bp_targetSymbol params))
          else lift (tokenAddress (bp_destinationChainId params) (bp_symbol params))) ;
  let quoteParams :=
    mkRelayQuoteParams (bp_user params)
      (default (bp_user params) (or_str (bp_recipient params) (Some (bp_user params))))
      (bp_originChainId params) (bp_destinationChainId params)
      (bp_tokenAddress params) destinationCurrency (bp_amount params)
      (default "0.5" (or_str (bp_slippageTolerance params) (Some "0.5"))) in
  RelayService.requestQuote W quoteParams.

(** What [executeBridgeTransaction] returns: [{ tx, receipt, requestId }]. *)
Record BridgeResult : Type := mkBridgeResult {
  br_hash : string;
  br_blockNumber : Z;
  br_requestId : option string
}.

Definition NO_STEPS : string := "Invalid quote response: No steps found".
Definition NO_DEPOSIT : string := "Invalid quote response: No deposit step found".

(** [quoteResponse.steps.find(step => step.id === 'deposit')] followed by the
    test [!depositStep || !depositStep.items || !depositStep.items.length]:
    the step and its first item, if any. *)
Definition find_deposit (l : list Step) : option (Step * StepItem) :=
  match List.find (fun s => String.eqb (step_id s) "deposit") l with
  | Some depositStep =>
      match step_items depositStep with
      | Some (first :: _) => Some (depositStep, first)
      | _ => None
      end
  | None => None
  end.

(** [executeBridgeTransaction(wallet, quoteResponse)].  The transaction is
    sent through a provider built from [rpcUrls[txData.chainId]], which is
    the provider of the chain of the payload only when that chain is
    registered; a third argument passed by the callers is ignored. *)
Definition executeBridgeTransaction (walletAddress : string)
    (quoteResponse : BridgeQuote) : M BridgeResult :=
  match steps quoteResponse with
  | None | Some [] => throw NO_STEPS
  | Some l =>
      match find_deposit l with
      | None => throw NO_DEPOSIT
      | Some (depositStep, first) =>
          match item_data first with
          | None => throw TypeError_undefined
          | Some txData =>
              let c := rpcProvider (tx_chainId txData) in
              let request :=
                TxRaw (Some (tx_to txData)) (Some (tx_data txData))
                  (default 0 (tx_value txData))
                  (match tx_gasPrice txData with
                   | Some g => GasPriceWei g
                   | None => GasPriceDefault
                   end) None in
              hash <- call (fun t => rpc_sendTransaction W t c walletAddress request)
                           (EvSubmit c walletAddress request) ;
              blockNumber <- call (fun t => rpc_wait W t c hash) (EvWait c hash) ;
              ret (mkBridgeResult hash blockNumber (step_requestId depositStep))
          end
      end
  end.

(** [checkBridgeStatus(requestId)]: the [status] field of the response. *)
Definition checkBridgeStatus (requestId : option string) : M (option string) :=
  call (fun t => relay_status W t requestId) (EvRelayStatus requestId).

(** What [bridgeTokens] returns. *)
Record BridgeFlow : Type := mkBridgeFlow {
  bf_bestToken : BestToken;
  bf_destinationChainId : Z;
  bf_amountToBridge : Z;
  bf_quoteResponse : BridgeQuote;
  bf_bridgeResult : BridgeResult;
  bf_initialStatus : option string;
  bf_requestId : option string
}.

(** [balances[chainId][symbol].decimals], read for the log line of step 4;
    a missing chain or symbol makes the property access throw. *)
Definition decimals_of (balances : Balances) (chainId : Z) (sym : string)
    : Res (option Z) :=
  match balances !! chainId with
  | Some chainData =>
      match tokens chainData !! sym with
      | Some e => Ok (te_decimals e)
      | None => Throw TypeError_undefined
      end
  | None => Throw TypeError_undefined
  end.

(** [bridgeTokens(wallet)]: the legacy flow, which bridges half of the
    selected balance to the same token on another chain.  Its [catch] logs
    and re-throws. *)
Definition bridgeTokens (walletAddress : string) : M BridgeFlow :=
  balances <- checkTokenBalancesAcrossChains walletAddress ;
  bestToken <- lift (findBestTokenToBridge balances) ;
  destinationChainId <- findDestinationChain (bt_sourceChainId bestToken) ;
  let amountToBridge := bt_balance bestToken `quot` 2 in
  d <- lift (decimals_of balances (bt_sourceChainId bestToken) (bt_symbol bestToken)) ;
  lift (formatUnits_checked W amountToBridge (default 18 d)) ;;
  quoteResponse <-
    requestBridgeQuote
      (mkBridgeParams walletAddress (Some walletAddress) (bt_sourceChainId bestToken)
         destinationChainId (bt_tokenAddress bestToken) (Some (bt_symbol bestToken))
         amountToBridge (Some "0.5") None None) ;
  bridgeResult <- executeBridgeTransaction walletAddress quoteResponse ;
  initialStatus <- checkBridgeStatus (br_requestId bridgeResult) ;
  ret (mkBridgeFlow bestToken destinationChainId amountToBridge quoteResponse
         bridgeResult initialStatus (br_requestId bridgeResult)).

End WithWorld.
End BridgeService.

(** ** [src/utils/walletManager.js] *)

Module WalletManager.

(** A value of the parsed wallet file.  The fields of an object are its own
    properties, with distinct keys; numbers are taken to be integers. *)
#[warnings="-register-all"]
Inductive Json : Type :=
| JNull
| JBool (b : bool)
| JNumber (n : Z)
| JString (s : string)
| JArray (items : list Json)
| JObject (fields : list (string * Json)).

(** Truthiness of a property; [None] is [undefined]. *)
Definition truthy (v : option Json) : bool :=
  match v with
  | None | Some JNull => false
  | Some (JBool b) => b
  | Some (JNumber n) => negb (n =? 0)
  | Some (JString s) => negb (String.eqb s "")
  | Some (JArray _) | Some (JObject _) => true
  end.

Definition TypeError_null : string := "TypeError: Cannot read properties of null".

(** [value[key]] for a key that no prototype defines: reading a property
    of [null] throws, a primitive or an array has no such property. *)
Definition get (key : string) (value : Json) : Res (option Json) :=
  match value with
  | JNull => Throw TypeError_null
  | JObject fields => Ok (assoc key fields)
  | _ => Ok None
  end.

(** [wallet.active = true] on an object that has no such property. *)
Definition set_active (wallet : Json) : Json :=
  match wallet with
  | JObject fields => JObject (fields ++ [("active", JBool true)])
  | _ => wallet
  end.

(** The callback of [wallets.forEach((wallet, index) => ...)]. *)
Definition validate_wallet (index : nat) (wallet : Json) : Res Json :=
  match get "address" wallet, get "privateKey" wallet with
  | Ok address, Ok privateKey =>
      if negb (truthy address) || negb (truthy privateKey)
      then Throw ("Invalid wallet data at index " +:+ pretty index)
      else
        match get "active" wallet with
        | Ok None => Ok (set_active wallet)
        | Ok (Some _) => Ok wallet
        | Throw e => Throw e
        end
  | Throw e, _ | _, Throw e => Throw e
  end.

Fixpoint validate (index : nat) (wallets : list Json) : Res (list Json) :=
  match wallets with
  | [] => Ok []
  | wallet :: rest =>
      match validate_wallet index wallet with
      | Ok wallet =>
          match validate (S index) rest with
          | Ok rest => Ok (wallet :: rest)
          | Throw e => Throw e
          end
      | Throw e => Throw e
      end
  end.

(** The file system as [loadWallets] sees it: [None] when the file does not
    exist, else what [JSON.parse(fs.readFileSync(file, 'utf8'))] gives. *)
Definition Files : Type := string -> option (Res Json).

(** [loadWallets()], with [process.env.WALLET_FILE] and the file system as
    arguments; its [catch] logs and re-throws. *)
Definition loadWallets (WALLET_FILE : option string) (fs : Files) : Res (list Json) :=
  let walletFile := default "wallets.json" (or_str WALLET_FILE (Some "wallets.json")) in
  match fs walletFile with
  | None => Throw ("Wallet file " +:+ walletFile +:+ " not found")
  | Some (Throw e) => Throw e
  | Some (Ok (JArray [])) => Throw "No wallets found in wallet file"
  | Some (Ok (JArray wallets)) => validate 0 wallets
  | Some (Ok _) => Throw "No wallets found in wallet file"
  end.

(** [wallets.filter(wallet => wallet.active)] *)
Fixpoint filter_active (wallets : list Json) : Res (list Json) :=
  match wallets with
  | [] => Ok []
  | wallet :: rest =>
      match get "active" wallet with
      | Ok active =>
          match filter_active rest with
          | Ok rest => Ok (if truthy active then wallet :: rest else rest)
          | Throw e => Throw e
          end
      | Throw e => Throw e
      end
  end.

End WalletManager.

(** ** [scripts/bridge.js] *)

Module Script.
Import EthereumUtils BridgeService.

(** [MIN_BRIDGE_AMOUNTS[symbol] || MIN_BRIDGE_AMOUNTS.DEFAULT] *)
Definition MIN_BRIDGE_AMOUNTS (symbol : string) : option Z :=
  if String.eqb symbol "WETH" then Some 1000000000000000
  else if String.eqb symbol "USDC" then Some 1000000
  else if String.eqb symbol "ETH" then Some 1000000000000000
  else if String.eqb symbol "DEFAULT" then Some 1000000000000000
  else None.

Definition minAmountOf (symbol : string) : Z :=
  default 1000000000000000 (MIN_BRIDGE_AMOUNTS symbol).

(** [GAS_BRIDGE_AMOUNT = parseEther("0.001")] *)
Definition GAS_BRIDGE_AMOUNT : Z := 1000000000000000.

(** [TARGET_TOKENS[symbol]] *)
Definition TARGET_TOKENS (symbol : string) : option string :=
  if String.eqb symbol "WETH" then Some "USDC"
  else if String.eqb symbol "USDC" then Some "WETH"
  else None.

(** The five [best*] variables of [findTokenBalanceOnChains]; [None] while
    [bestBalance] is still [null]. *)
Record Best : Type := mkBest {
  bestBalance : Z;
  bestChainId : Z;
  bestFormatted : option string;
  bestDecimals : option Z;
  bestTokenAddress : option string
}.

(** The object returned by [findTokenBalanceOnChains], spread into the one
    returned by [findBestTokenToBridge] together with [targetSymbol]. *)
Record Candidate : Type := mkCandidate {
  symbol : string;
  sourceChainId : Z;
  cand_chainName : string;
  tokenAddress : option string;
  balance : Z;
  formatted : option string;
  decimals : option Z;
  targetSymbol : option string
}.

(** One iteration of the [for ... of Object.entries(balances)] loop. *)
Definition scan_chain (sym : string) (best : option Best) (kv : Z * ChainData)
    : option Best :=
  let '(chainId, chainData) := kv in
  match tokens chainData !! sym with
  | Some e =>
      match te_balance e with
      | Some bal =>
          if truthy_str (te_error e) then best
          else if bal <? minAmountOf sym then best
          else
            let here :=
              Some (mkBest bal chainId (te_formatted e) (te_decimals e) (te_address e)) in
            match best with
            | None => here
            | Some b => if bestBalance b <? bal then here else best
            end
      | None => best
      end
  | None => best
  end.

Definition findTokenBalanceOnChains (balances : Balances) (sym : string)
    : Res (option Candidate) :=
  match fold_left (scan_chain sym) (Object_entries balances) None with
  | Some b =>
      match chainNameOf (bestChainId b) with
      | Ok name =>
          Ok (Some (mkCandidate sym (bestChainId b) name (bestTokenAddress b)
                      (bestBalance b) (bestFormatted b) (bestDecimals b) None))
      | Throw e => Throw e
      end
  | None => Ok None
  end.

Definition with_target (c : Candidate) (t : option string) : Candidate :=
  mkCandidate (symbol c) (sourceChainId c) (cand_chainName c) (tokenAddress c)
    (balance c) (formatted c) (decimals c) t.

Definition NO_BALANCE : string := "No available token balance found on any chain".

(** [findBestTokenToBridge]; its [catch] logs and re-throws. *)
Definition findBestTokenToBridge (balances : Balances) : Res Candidate :=
  match findTokenBalanceOnChains balances "WETH" with
  | Throw e => Throw e
  | Ok (Some sourceWETH) => Ok (with_target sourceWETH (TARGET_TOKENS "WETH"))
  | Ok None =>
      match findTokenBalanceOnChains balances "USDC" with
      | Throw e => Throw e
      | Ok (Some sourceUSDC) => Ok (with_target sourceUSDC (TARGET_TOKENS "USDC"))
      | Ok None => Throw NO_BALANCE
      end
  end.

(** [MAX_GAS_PRICE_GWEI = 0.1], in wei.  [checkGasPrice] compares
    [parseFloat(formatUnits(gasPrice, 'gwei'))] with the double [0.1]; the
    formatted prices are the multiples of 10^-9, [parseFloat] rounds
    monotonically and maps [0.1] to that same double, so the test holds
    exactly when the price is at most 10^8 wei. *)
Definition MAX_GAS_PRICE_WEI : Z := 100000000.

(** What [checkGasPrice] returns; [currentGwei] is the price behind the
    formatted string, [None] for ["unknown"]. *)
Record GasCheck : Type := mkGasCheck {
  isAcceptable : bool;
  currentGwei : option Z;
  gasPrice : Z
}.

(** The token description built by [executeSwap]. *)
Record OutToken : Type := mkOutToken {
  out_address : option string;
  out_symbol : option string;
  out_decimals : Z
}.

(** What [executeSwap] returns: [{ success: false, error? }] or
    [{ success: true, receipt, toAmount, toToken }]. *)
Inductive SwapResult : Type :=
| SwapFailed (error : option string)
| SwapDone (blockNumber : Z) (toAmount : Z) (toToken : OutToken).

(** [config], of which the cycle reads [SLIPPAGE_TOLERANCE]. *)
Record Config : Type := mkConfig { SLIPPAGE_TOLERANCE : option string }.

(** How a call of [executeBridgeCycle] that does not throw ends.  In the
    source every one of them is a plain [return]; they differ by the line
    they return from. *)
Inductive CycleEnd : Type :=
| SkippedNoToken              (* line 406 *)
| CancelledHighGas            (* line 431 *)
| SkippedGasStillLow          (* line 460 *)
| SkippedGasBridgeFailed      (* line 465 *)
| CancelledApprovalHighGas    (* line 553 *)
| CancelledBridgeApprovalHighGas  (* line 661 *)
| CancelledBridgeHighGas      (* line 682 *)
| SkippedInsufficientFunds    (* line 713 *)
| EthNotImplemented           (* line 719 *)
| Completed.                  (* end of the body *)

(** [swapQuote.toAmount = value] *)
Definition set_toAmount (q : QuoteData) (v : option Z) : QuoteData :=
  mkQuoteData (q_tx q) v (q_dstAmount q) (q_amount q) (q_toToken q) (q_dstToken q)
    (q_toTokenAddress q) (q_dst q).

(** [response.data.toToken = value] *)
Definition set_toToken (q : QuoteData) (v : option TokenInfo) : QuoteData :=
  mkQuoteData (q_tx q) (q_toAmount q) (q_dstAmount q) (q_amount q) v (q_dstToken q)
    (q_toTokenAddress q) (q_dst q).

(** The renaming done by [getQuote] on a response body. *)
Definition normalize_quote (q : QuoteData) : QuoteData :=
  let q := match q_dstAmount q with
           | Some a => set_toAmount q (Some a)
           | None => q
           end in
  match q_dstToken q with
  | Some t => set_toToken q (Some t)
  | None => q
  end.

Definition field {A} (f : TokenInfo -> option A) (o : option TokenInfo) : option A :=
  match o with Some t => f t | None => None end.

(** Lines 236-244 of [executeSwap]: the standardized [toToken]. *)
Definition standard_toToken (quoteData : QuoteData) : OutToken :=
  let dstToken := q_dstToken quoteData in
  let toTokenObj := q_toToken quoteData in
  mkOutToken
    (or_str (field ti_address toTokenObj)
       (or_str (field ti_address dstToken)
          (or_str (q_toTokenAddress quoteData)
             (or_str (q_dst quoteData) (Some ZERO_ADDRESS)))))
    (or_str (field ti_symbol toTokenObj)
       (or_str (field ti_symbol dstToken) (Some "Unknown")))
    (default 18
       (or_num (field ti_decimals toTokenObj)
          (or_num (field ti_decimals dstToken) (Some 18)))).

(** Lines 223-234 of [executeSwap]: the expected output amount. *)
Definition standard_toAmount (quoteData : QuoteData) : Z :=
  default 0 (or_else (q_toAmount quoteData)
               (or_else (q_dstAmount quoteData) (q_amount quoteData))).

(** Lines 607-617 of [executeBridgeCycle]: a zero output address is replaced
    by the registry address of the swap target on the source chain, and the
    symbol is forced to the swap target. *)
Definition fix_toToken (src : Z) (swapTargetSymbol : option string) (toToken : OutToken)
    : Res OutToken :=
  if bool_decide (out_address toToken = Some ZERO_ADDRESS) then
    match Registry.tokenAddress src swapTargetSymbol with
    | Ok correctTokenAddress =>
        Ok (mkOutToken correctTokenAddress swapTargetSymbol (out_decimals toToken))
    | Throw e => Throw e
    end
  else Ok toToken.

(** The native-token placeholder for which no bridge approval is made. *)
Definition NATIVE_PLACEHOLDER : string := "0xEeeeeEeeeEeEeeEeEeEeeEEEeeeeEeeeeeeeEEeE".

Definition BASE : Z := 8453.

Section WithWorld.
Variable W : World.

(** [checkGasPrice(provider)] *)
Definition checkGasPrice (provider : Z) : M GasCheck :=
  try_catch
    (price <- call (fun t => rpc_getGasPrice W t provider) (EvGasPrice provider) ;
     ret (mkGasCheck (price <=? MAX_GAS_PRICE_WEI) (Some price) price))
    (fun _ => ret (mkGasCheck false None 0)).

(** [getQuote(account, receiver, from, to, amount, chainId)]: the response
    body after renaming, [None] for [null] (also on any exception). *)
Definition getQuote (account receiver : string) (from to : option string)
    (amount chainId : Z) : M (option QuoteData) :=
  try_catch
    (let params := mkSwapParams chainId from to amount account receiver in
     data <- call (fun t => oneinch_swap W t params) (EvSwapQuote params) ;
     ret (normalize_quote <$> data))
    (fun _ => ret None).

(** [executeSwap(wallet, quoteData, gasLimit)] *)
Definition executeSwap (wallet : ConnectedWallet) (quoteData : QuoteData)
    (gasLimit : option Z) : M SwapResult :=
  try_catch
    (check <- checkGasPrice (cw_chain wallet) ;
     if negb (isAcceptable check) then ret (SwapFailed (Some "high_gas_price"))
     else
       match q_tx quoteData with
       | None => throw "Invalid 1inch response: Missing tx field"
       | Some tx =>
           let txTo := stx_to tx in
           let txData := stx_data tx in
           let txValue := default 0 (stx_value tx) in
           if negb (truthy_str txTo) || negb (truthy_str txData)
           then throw "Invalid 1inch response: Missing required tx fields"
           else
             limit <-
               (match gasLimit with
                | Some g => ret g
                | None =>
                    gasEstimate <-
                      (let c := mkCallRequest txTo txData txValue in
                       call (fun t => rpc_estimateGas W t (cw_chain wallet) (cw_address wallet) c)
                            (EvEstimateGas (cw_chain wallet) (cw_address wallet) c)) ;
                    ret ((gasEstimate * 120) `quot` 100)
                end) ;
             let txParams :=
               TxRaw txTo txData txValue (GasPriceOfGwei (currentGwei check)) (Some limit) in
             hash <- call (fun t => rpc_sendTransaction W t (cw_chain wallet) (cw_address wallet) txParams)
                          (EvSubmit (cw_chain wallet) (cw_address wallet) txParams) ;
             blockNumber <- call (fun t => rpc_wait W t (cw_chain wallet) hash)
                                 (EvWait (cw_chain wallet) hash) ;
             ret (SwapDone blockNumber (standard_toAmount quoteData)
                    (standard_toToken quoteData))
       end)
    (fun _ => ret (SwapFailed None)).

(** [parseEther("0.0005")] *)
Definition GAS_RESERVE : Z := 500000000000000.

(** [bridgeETHForGas(wallet, targetChainId)] *)
Definition bridgeETHForGas (walletAddress : string) (targetChainId : Z) : M bool :=
  try_catch
    (check <- checkGasPrice BASE ;
     if negb (isAcceptable check) then ret false
     else
       baseETHBalance <- call (fun t => rpc_getBalance W t BASE walletAddress)
                              (EvGetBalance BASE walletAddress) ;
       let minRequired := GAS_BRIDGE_AMOUNT + GAS_RESERVE in
       if baseETHBalance <? minRequired then ret false
       else
         lift (chainNameOf targetChainId) ;;
         baseWETHAddress <- lift (Registry.tokenAddress BASE (Some "WETH")) ;
         let NATIVE_ETH_ADDRESS := ZERO_ADDRESS in
         match baseWETHAddress with
         | None => throw "invalid contract address or ENS name"
         | Some weth =>
             wrapCheck <- checkGasPrice BASE ;
             if negb (isAcceptable wrapCheck) then ret false
             else
               let wrap := TxDeposit weth GAS_BRIDGE_AMOUNT 100000 (gasPrice wrapCheck) in
               wrapHash <- call (fun t => rpc_sendTransaction W t BASE walletAddress wrap)
                                (EvSubmit BASE walletAddress wrap) ;
               call (fun t => rpc_wait W t BASE wrapHash) (EvWait BASE wrapHash) ;;
               call (fun t => rpc_balanceOf W t BASE weth walletAddress)
                    (EvBalanceOf BASE weth walletAddress) ;;
               quoteResponse <-
                 requestBridgeQuote W
                   (mkBridgeParams walletAddress (Some walletAddress) BASE targetChainId
                      (Some weth) (Some "WETH") GAS_BRIDGE_AMOUNT (Some "0.5") None
                      (Some NATIVE_ETH_ADDRESS)) ;
               bridgeCheck <- checkGasPrice BASE ;
               if negb (isAcceptable bridgeCheck) then ret false
               else
                 bridgeResult <- executeBridgeTransaction W walletAddress quoteResponse ;
                 checkBridgeStatus W (br_requestId bridgeResult) ;;
                 call (fun _ => Ok tt) (fun _ => EvSleep 60000) ;;
                 checkBridgeStatus W (br_requestId bridgeResult) ;;
                 ret true
         end)
    (fun _ => ret false).

(** Lines 601-708 of [executeBridgeCycle]: what follows a successful swap,
    up to the status check. *)
Definition bridge_after_swap (walletAddress : string) (config : Config)
    (connectedWallet : ConnectedWallet) (bestToken : Candidate)
    (swapTargetSymbol : option string) (toAmount : Z) (toToken : OutToken)
    : M CycleEnd :=
  let src := sourceChainId bestToken in
  destinationChainId <- findDestinationChain W src ;
  toToken <- lift (fix_toToken src swapTargetSymbol toToken) ;
  let destSymbol := swapTargetSymbol ≫= TARGET_TOKENS in
  destinationCurrency <- lift (Registry.tokenAddress destinationChainId destSymbol) ;
  quoteResponse <-
    requestBridgeQuote W
      (mkBridgeParams walletAddress (Some walletAddress) src destinationChainId
         (out_address toToken) swapTargetSymbol toAmount
         (or_str (SLIPPAGE_TOLERANCE config) (Some "0.5"))
         destSymbol destinationCurrency) ;
  match steps quoteResponse with
  | None => throw TypeError_undefined
  | Some l =>
      match find_deposit l with
      | None => throw NO_DEPOSIT
      | Some (depositStep, first) =>
          match item_data first with
          | None => throw TypeError_undefined
          | Some payload =>
              let relayerAddress := tx_to payload in
              stop <-
                (if bool_decide (out_address toToken = Some NATIVE_PLACEHOLDER)
                 then ret None
                 else
                   check <- checkGasPrice src ;
                   if negb (isAcceptable check)
                   then ret (Some CancelledBridgeApprovalHighGas)
                   else
                     bridgeApprovalSuccess <-
                       approveToken W connectedWallet (out_address toToken)
                         relayerAddress None ;
                     if bridgeApprovalSuccess then ret None
                     else throw ("Failed to approve " +:+
                                 default "undefined" (out_symbol toToken) +:+
                                 " for relayer")) ;
              match stop with
              | Some e => ret e
              | None =>
                  check <- checkGasPrice src ;
                  if negb (isAcceptable check) then ret CancelledBridgeHighGas
                  else
                    bridgeResult <-
                      executeBridgeTransaction W (cw_address connectedWallet) quoteResponse ;
                    checkBridgeStatus W (br_requestId bridgeResult) ;;
                    ret Completed
              end
          end
      end
  end.

(** Lines 569-717: the pre-flight estimate, the swap and the bridge, under
    the inner [try]; an ["insufficient funds"] error ends the cycle quietly,
    any other is re-thrown. *)
Definition swap_and_bridge (walletAddress : string) (config : Config)
    (connectedWallet : ConnectedWallet) (bestToken : Candidate)
    (swapTargetSymbol : option string) (swapQuote : QuoteData) (tx : SwapTx)
    (ethBalance : Z) : M CycleEnd :=
  let src := sourceChainId bestToken in
  try_catch
    (let value := default 0 (stx_value tx) in
     let c := mkCallRequest (stx_to tx) (stx_data tx) value in
     gasEstimate <- call (fun t => rpc_estimateGas W t src (cw_address connectedWallet) c)
                         (EvEstimateGas src (cw_address connectedWallet) c) ;
     gasPrice <- call (fun t => rpc_getGasPrice W t src) (EvGasPrice src) ;
     let gasCost := gasEstimate * gasPrice in
     let totalCost := gasCost + value in
     if ethBalance <? totalCost then throw "Insufficient ETH for transaction"
     else
       let gasLimit := (gasEstimate * 120) `quot` 100 in
       swapResult <- executeSwap connectedWallet swapQuote (Some gasLimit) ;
       match swapResult with
       | SwapFailed _ => throw "1inch swap failed"
       | SwapDone _ toAmount toToken =>
           bridge_after_swap walletAddress config connectedWallet bestToken
             swapTargetSymbol toAmount toToken
       end)
    (fun message =>
       if includes message "insufficient funds" then ret SkippedInsufficientFunds
       else throw message).

(** Lines 434-467: the gas guard.  [None] lets the cycle go on. *)
Definition gas_guard (walletAddress : string) (src : Z) (ethBalance : Z)
    : M (option CycleEnd) :=
  let minGasETH := GAS_RESERVE in
  if ethBalance <? minGasETH then
    bridgeSuccess <- bridgeETHForGas walletAddress src ;
    if bridgeSuccess then
      updatedEthBalance <- call (fun t => rpc_getBalance W t src walletAddress)
                                (EvGetBalance src walletAddress) ;
      if minGasETH <? updatedEthBalance then ret None
      else ret (Some SkippedGasStillLow)
    else ret (Some SkippedGasBridgeFailed)
  else ret None.

(** Lines 499-538: the destination amount must be present (with [amount] as
    a fallback written into [toAmount]), and the expected output is
    formatted with the reported decimals, 18 by default. *)
Definition check_amount (swapQuote : QuoteData) : Res QuoteData :=
  match q_toAmount swapQuote, q_dstAmount swapQuote with
  | None, None =>
      match q_amount swapQuote with
      | Some a => Ok (set_toAmount swapQuote (Some a))
      | None => Throw "Invalid swap quote response: Missing destination amount"
      end
  | _, _ => Ok swapQuote
  end.

Definition format_expected (swapQuote : QuoteData) : Res string :=
  let tokenInfo := or_else (q_toToken swapQuote) (q_dstToken swapQuote) in
  let toTokenDecimals := default 18 (field ti_decimals tokenInfo) in
  formatUnits_checked W (standard_toAmount swapQuote) toTokenDecimals.

(** [executeBridgeCycle(wallet, config)]; the outer [catch] logs and
    re-throws.  [findBestTokenToBridge] returns an object or throws, so the
    test [!bestToken] of line 403 never holds and the [return] of line 406
    is not reached. *)
Definition executeBridgeCycle (walletAddress : string) (config : Config) : M CycleEnd :=
  balances <- checkTokenBalancesAcrossChains W walletAddress ;
  bestToken <- lift (findBestTokenToBridge balances) ;
  lift (formatUnits_checked W (balance bestToken) (default 18 (decimals bestToken))) ;;
  if String.eqb (symbol bestToken) "ETH" then ret EthNotImplemented
  else
    let src := sourceChainId bestToken in
    let connectedWallet := mkConnectedWallet walletAddress src in
    check <- checkGasPrice src ;
    if negb (isAcceptable check) then ret CancelledHighGas
    else
      ethBalance <- call (fun t => rpc_getBalance W t src walletAddress)
                         (EvGetBalance src walletAddress) ;
      stop <- gas_guard walletAddress src ethBalance ;
      match stop with
      | Some e => ret e
      | None =>
          let swapTargetSymbol := TARGET_TOKENS (symbol bestToken) in
          swapTargetAddress <- lift (Registry.tokenAddress src swapTargetSymbol) ;
          swapQuote <- getQuote walletAddress walletAddress (tokenAddress bestToken)
                         swapTargetAddress (balance bestToken) src ;
          match swapQuote with
          | None => throw "Failed to get 1inch swap quote"
          | Some swapQuote =>
              match q_tx swapQuote with
              | None => throw "Invalid swap quote response: Missing tx field"
              | Some tx =>
                  swapQuote <- lift (check_amount swapQuote) ;
                  lift (format_expected swapQuote) ;;
                  match or_str (stx_to tx) None with
                  | None => throw "Failed to get 1inch router address"
                  | Some router =>
                      check <- checkGasPrice src ;
                      if negb (isAcceptable check) then ret CancelledApprovalHighGas
                      else
                        approvalSuccess <-
                          approveToken W connectedWallet (tokenAddress bestToken) router None ;
                        if approvalSuccess then
                          swap_and_bridge walletAddress config connectedWallet bestToken
                            swapTargetSymbol swapQuote tx ethBalance
                        else throw ("Failed to approve " +:+ symbol bestToken +:+
                                    " for 1inch router")
                  end
              end
          end
      end.

(** Lines 289-294 of [main]: one iteration of the loop runs a cycle and logs
    the message of whatever it throws; [None] when nothing was thrown. *)
Definition cycle_in_main (walletAddress : string) (config : Config)
    : M (option string) :=
  try_catch
    (executeBridgeCycle walletAddress config ;; ret None)
    (fun message => ret (Some message)).

(** The configuration as [main] reads it; [REPEAT_INTERVAL_MIN] and
    [REPEAT_INTERVAL_MAX] are minutes, taken to be integers. *)
Record MainConfig : Type := mkMainConfig {
  cycle_config : Config;
  REPEAT_INTERVAL_MIN : Z;
  REPEAT_INTERVAL_MAX : Z
}.

(** [Math.floor(Math.random() * n)] for a number [n] of any sign. *)
Definition floor_random (r n : Z) : Z := (r * n) `div` 2 ^ 53.

(** What [main] is started with: the wallet file variable, the file system,
    the outcome of [loadConfig()], and the address of the wallet that
    [new ethers.Wallet(privateKey, provider)] builds, which throws on an
    invalid key. *)
Record Startup : Type := mkStartup {
  WALLET_FILE : option string;
  files : WalletManager.Files;
  loadConfig : Res MainConfig;
  wallet_address : option WalletManager.Json -> Res string
}.

(** One turn of the [while (true)] loop of [main]. *)
Definition main_iteration (start : Startup) (wallets : list WalletManager.Json)
    (config : MainConfig) : M unit :=
  activeWallets <- lift (WalletManager.filter_active wallets) ;
  if (length activeWallets =? 0)%nat then throw "No active wallets found"
  else
    r <- call (fun t => Ok (Math_random W t))
              (fun r => EvRandom (match r with Ok x => x | Throw _ => 0 end)) ;
    let i := floor_random r (Z.of_nat (length activeWallets)) in
    let selectedWallet := if i <? 0 then None else activeWallets !! Z.to_nat i in
    privateKey <- lift (match selectedWallet with
                        | Some wallet => WalletManager.get "privateKey" wallet
                        | None => Throw TypeError_undefined
                        end) ;
    address <- lift (wallet_address start privateKey) ;
    cycle_in_main address (cycle_config config) ;;
    let minInterval := REPEAT_INTERVAL_MIN config * 60 * 1000 in
    let maxInterval := REPEAT_INTERVAL_MAX config * 60 * 1000 in
    r <- call (fun t => Ok (Math_random W t))
              (fun r => EvRandom (match r with Ok x => x | Throw _ => 0 end)) ;
    let waitTime := floor_random r (maxInterval - minInterval + 1) + minInterval in
    call (fun _ => Ok tt) (fun _ => EvSleep waitTime).

(** The loop, cut after [turns] turns. *)
Fixpoint main_loop (turns : nat) (start : Startup) (wallets : list WalletManager.Json)
    (config : MainConfig) : M unit :=
  match turns with
  | O => ret tt
  | S turns =>
      main_iteration start wallets config ;;
      main_loop turns start wallets config
  end.

(** [main()], cut after [turns] turns of its loop: [Some] of the message of
    the fatal error after which the process exits with code 1, [None] while
    the loop is still running. *)
Definition main (turns : nat) (start : Startup) : M (option string) :=
  try_catch
    (config <- lift (loadConfig start) ;
     wallets <- lift (WalletManager.loadWallets (WALLET_FILE start) (files start)) ;
     if (length wallets =? 0)%nat then throw "No wallets found or configured"
     else
       main_loop turns start wallets config ;;
       ret None)
    (fun message => ret (Some message)).

End WithWorld.
End Script.

(** ** Vocabulary of the statements *)

(** Chain data [cd] holds [b] units of [sym], read without error, and [b]
    reaches the minimum bridge amount of [sym]. *)
Definition qualifies (sym : string) (cd : ChainData) (b : Z) : Prop :=
  exists e, tokens cd !! sym = Some e /\ te_balance e = Some b /\
            truthy_str (te_error e) = false /\ Script.minAmountOf sym <= b.

(** No chain of the snapshot holds a qualifying amount of [sym]. *)
Definition none_qualifies (sym : string) (balances : Balances) : Prop :=
  forall c cd b, balances !! c = Some cd -> ~ qualifies sym cd b.

Definition is_submit (ev : Event) : bool :=
  match ev with EvSubmit _ _ _ _ => true | _ => false end.

Definition is_price (ev : Event) : bool :=
  match ev with EvGasPrice _ _ => true | _ => false end.

(** The transactions handed to a signer during a run. *)
Definition submissions (tr : Trace) : list Event := List.filter is_submit tr.

(** The outcome of a gas-price query passes [checkGasPrice]. *)
Definition price_ok (r : Res Z) : bool :=
  match r with Ok p => p <=? Script.MAX_GAS_PRICE_WEI | Throw _ => false end.

(** The gate kept by the gas-price checks, read off a trace: [Some true]
    when the last price query passed and nothing was submitted since,
    [Some false] when a fresh check is due, [None] once a transaction was
    submitted without one. *)
Fixpoint gate (tr : Trace) : option bool :=
  match tr with
  | [] => Some false
  | ev :: earlier =>
      match gate earlier with
      | None => None
      | Some armed =>
          match ev with
          | EvGasPrice _ r => Some (price_ok r)
          | EvSubmit _ _ _ _ => if armed then Some false else None
          | _ => Some armed
          end
      end
  end.

Definition gated (tr : Trace) : Prop := is_Some (gate tr).

(** The events [earlier] (most recent first) end with a gas-price query that
    succeeded with a price within the ceiling, followed by neither another
    query nor a submission. *)
Definition fresh_check (earlier : Trace) : Prop :=
  exists since c p before,
    earlier = since ++ EvGasPrice c (Ok p) :: before /\
    p <= Script.MAX_GAS_PRICE_WEI /\
    Forall (fun ev => is_submit ev = false /\ is_price ev = false) since.

(** Every submission of the trace comes right after its own fresh check. *)
Definition every_submission_checked (tr : Trace) : Prop :=
  forall later ev earlier,
    tr = later ++ ev :: earlier -> is_submit ev = true -> fresh_check earlier.

(** A gas-price query whose outcome does not pass is the last thing a run
    does, unless the very next event is another gas-price query (the
    pre-flight read of line 580 is followed by the check of [executeSwap]). *)
Definition ends_after_rejected_check (tr : Trace) : Prop :=
  forall later c r earlier,
    tr = later ++ EvGasPrice c r :: earlier ->
    price_ok r = false ->
    later = [] \/ exists later' c' r', later = later' ++ [EvGasPrice c' r'].

(** The most recent 1inch exchange of a trace. *)
Fixpoint last_swap (tr : Trace) : option (SwapParams * Res (option QuoteData)) :=
  match tr with
  | [] => None
  | EvSwapQuote p r :: _ => Some (p, r)
  | _ :: earlier => last_swap earlier
  end.

(** The output-token address [executeSwap] derives from a 1inch response
    body as [getQuote] hands it over. *)
Definition reported_address (r : Res (option QuoteData)) : option string :=
  match r with
  | Ok (Some q) => Script.out_address (Script.standard_toToken (Script.normalize_quote q))
  | _ => None
  end.

(** The origin of a Relay quote request agrees with the swap that precedes
    it: same chain, and as currency the address the swap response reports
    or, when that is the zero address, the destination token that was asked
    of 1inch.  Before any swap, the only request is the gas rescue, which
    bridges WETH of Base. *)
Definition origin_agrees (swap : option (SwapParams * Res (option QuoteData)))
    (chain : Z) (currency : option string) : Prop :=
  match swap with
  | None => currency = Some WETH_Base
  | Some (asked, r) =>
      chain = sp_chainId asked /\
      currency =
        if bool_decide (reported_address r = Some ZERO_ADDRESS)
        then sp_dst asked
        else reported_address r
  end.

Definition origin_ok (swap : option (SwapParams * Res (option QuoteData)))
    (p : RelayQuoteParams) : Prop :=
  origin_agrees swap (rq_originChainId p) (rq_originCurrency p).

(** A 1inch request asks for the registry address, on the chain of the
    request, of one of the two tracked symbols. *)
Definition swap_request_ok (asked : SwapParams) : Prop :=
  exists target,
    (target = "WETH" \/ target = "USDC") /\
    Registry.tokenAddress (sp_chainId asked) (Some target) = Ok (sp_dst asked).

(** Both properties along a whole trace. *)
Fixpoint exchanges_ok (tr : Trace) : Prop :=
  match tr with
  | [] => True
  | ev :: earlier =>
      match ev with
      | EvRelayQuote p _ => origin_ok (last_swap earlier) p
      | EvSwapQuote asked _ => swap_request_ok asked
      | _ => True
      end /\ exchanges_ok earlier
  end.

(** As the specification words it, for comparison with [find_deposit] of
    the source: the step of a quote whose id is ["deposit"] (the first,
    should there be several), and the first item of a step. *)
Definition stated_deposit_step (q : BridgeQuote) : option Step :=
  l ← steps q; head (List.filter (fun s => bool_decide (step_id s = "deposit")) l).

Definition stated_first_item (s : Step) : option StepItem :=
  items ← step_items s; head items.

(** The transaction object of lines 457-462 of [executeBridgeTransaction],
    as a function of the payload. *)
Definition deposit_request (payload : TxData) : TxRequest :=
  TxRaw (Some (tx_to payload)) (Some (tx_data payload)) (default 0 (tx_value payload))
    (match tx_gasPrice payload with
     | Some g => GasPriceWei g
     | None => GasPriceDefault
     end) None.

(** ** Auxiliary notions of the selection proofs *)

(** The record the scan builds for chain [c] holding entry [e]. *)
Definition best_of (c : Z) (e : TokenEntry) (b : Z) : Script.Best :=
  Script.mkBest b c (te_formatted e) (te_decimals e) (te_address e).

(** [r] was taken from a qualifying chain of [l]. *)
Definition picked (sym : string) (l : list (Z * ChainData)) (r : Script.Best) : Prop :=
  exists cd e, (Script.bestChainId r, cd) ∈ l /\ tokens cd !! sym = Some e /\
    te_balance e = Some (Script.bestBalance r) /\ truthy_str (te_error e) = false /\
    Script.minAmountOf sym <= Script.bestBalance r /\ r = best_of (Script.bestChainId r) e (Script.bestBalance r).

(** ** Example inputs *)

(** A snapshot with 0.002 WETH on Base and five million USDC on Arbitrum. *)
Definition base_with_weth : ChainData :=
  mkChainData "base"
    (<["WETH" := entry_read WETH_Base 2000000000000000 "0.002" 18]>
       (<["USDC" := entry_read USDC_Base 0 "0.0" 6]> ∅)).

Definition snapshot_weth_and_usdc : Balances :=
  <[8453 := base_with_weth]>
    (<[42161 := mkChainData "arbitrum"
                  (<["WETH" := entry_error "timeout"]>
                     (<["USDC" := entry_read USDC_Arbitrum 5000000000000 "5000000.0" 6]> ∅))]> ∅).

(** A world in which a wallet holds 0.002 WETH on Base and nothing else,
    gas is cheap, 1inch answers with the zero address as output token and
    Relay answers with a one-step deposit on Base. *)
Definition relay_answer : BridgeQuote :=
  mkBridgeQuote
    (Some [mkStep "deposit"
             (Some [mkStepItem (Some (mkTxData "0xa5F565650890fBA1824Ee0F21EbBbF660a179934"
                                        "0x49290c1c" None None 8453))])
             (Some "0x01")]).

(** The same answer with a deposit on a chain that is not registered. *)
Definition foreign_answer : BridgeQuote :=
  mkBridgeQuote
    (Some [mkStep "deposit"
             (Some [mkStepItem (Some (mkTxData "0xa5F565650890fBA1824Ee0F21EbBbF660a179934"
                                        "0x49290c1c" None None 1))])
             (Some "0x01")]).

Definition oneinch_answer : QuoteData :=
  mkQuoteData (Some (mkSwapTx (Some "0x111111125421cA6dc452d289314280a0f8842A65")
                       (Some "0x07ed2379") (Some 0)))
    None (Some 4000000) None None
    (Some (mkTokenInfo (Some ZERO_ADDRESS) (Some "USDC") (Some 6))) None None.

Definition calm_world : World :=
  mkWorld
    (fun _ _ token => Ok (if String.eqb token WETH_Base then 18 else 6))
    (fun _ c token _ =>
       Ok (if (c =? 8453) && String.eqb token WETH_Base then 2000000000000000 else 0))
    (fun _ _ => Ok 50000000)
    (fun _ _ _ => Ok 1000000000000000000)
    (fun _ _ _ _ _ => Ok 0)
    (fun _ _ _ _ => Ok 100000)
    (fun _ _ _ _ => Ok "0x5c504ed432cb51138bcf09aa5e8a410dd4a1e204ef84bfed1be16dfba1b22060")
    (fun _ _ _ => Ok 1)
    (fun _ _ => Ok (Some oneinch_answer))
    (fun _ _ => Ok (200, relay_answer))
    (fun _ _ => Ok (Some "pending"))
    (fun _ => 2 ^ 52)
    (fun _ _ => "").

(** ** Auxiliary notions of the trace proofs *)

(** What [checkGasPrice] makes of the outcome of the price query. *)
Definition gas_check_of (r : Res Z) : Script.GasCheck :=
  match r with
  | Ok p => Script.mkGasCheck (p <=? Script.MAX_GAS_PRICE_WEI) (Some p) p
  | Throw _ => Script.mkGasCheck false None 0
  end.

(** After a gas-price query with outcome [r] such that [bad r], nothing is
    submitted before the price is queried again. *)
Definition no_submit_after (bad : Res Z -> Prop) (tr : Trace) : Prop :=
  forall later ev since c r earlier,
    tr = later ++ ev :: since ++ EvGasPrice c r :: earlier ->
    bad r ->
    Forall (fun e => is_price e = false) since ->
    is_submit ev = false.

(** The price exceeds the ceiling of 0.1 gwei. *)
Definition too_high (r : Res Z) : Prop :=
  exists p, r = Ok p /\ Script.MAX_GAS_PRICE_WEI < p.

(** The price query raised. *)
Definition failed (r : Res Z) : Prop := exists msg, r = Throw msg.

(** ** Auxiliary notions of the snapshot proofs *)

(** An event is one of the two reads of the token at [address] on chain [c]. *)
Definition read_of (c : Z) (address walletAddress : string) (ev : Event) : Prop :=
  (exists r, ev = EvDecimals c address r) \/
  (exists r, ev = EvBalanceOf c address walletAddress r).

(** Entry [e] is what the reads of its own token, found among [evs], give:
    the error of the read that failed (or of the formatting), or else the
    balance and decimals that were read. *)
Definition entry_matches (W : World) (c : Z) (address walletAddress : string)
    (e : TokenEntry) (evs : Trace) : Prop :=
  (exists msg, e = entry_error msg /\
     (EvDecimals c address (Throw msg) ∈ evs \/
      EvBalanceOf c address walletAddress (Throw msg) ∈ evs \/
      exists d bal, EvDecimals c address (Ok d) ∈ evs /\
                    EvBalanceOf c address walletAddress (Ok bal) ∈ evs /\
                    formatUnits_checked W bal d = Throw msg)) \/
  (exists d bal text, e = entry_read address bal text d /\
     formatUnits_checked W bal d = Ok text /\
     EvDecimals c address (Ok d) ∈ evs /\
     EvBalanceOf c address walletAddress (Ok bal) ∈ evs).

(** An event is a token read of the snapshot. *)
Definition is_read (ev : Event) : Prop :=
  match ev with
  | EvDecimals _ _ _ | EvBalanceOf _ _ _ _ => True
  | _ => False
  end.

(** ** Monitors: properties of traces checked event by event *)

(** A monitor keeps a state along the trace and judges each event in the
    state reached before it. *)
Record Monitor (S : Type) : Type := mkMonitor {
  mon_init : S;
  mon_step : S -> Event -> S;
  mon_ok : S -> Event -> Prop
}.
Arguments mkMonitor {S} _ _ _.
Arguments mon_init {S} _.
Arguments mon_step {S} _ _ _.
Arguments mon_ok {S} _ _ _.

Fixpoint mon_state {S} (mon : Monitor S) (tr : Trace) : S :=
  match tr with
  | [] => mon_init mon
  | ev :: earlier => mon_step mon (mon_state mon earlier) ev
  end.

Fixpoint mon_holds {S} (mon : Monitor S) (tr : Trace) : Prop :=
  match tr with
  | [] => True
  | ev :: earlier => mon_ok mon (mon_state mon earlier) ev /\ mon_holds mon earlier
  end.

(** [mwp mon m Q s]: from any trace accepted by the monitor in state [s],
    running [m] yields a trace that is still accepted, and [Q] relates the
    outcome to the state reached. *)
Definition mwp {S A} (mon : Monitor S) (m : M A) (Q : Res A -> S -> Prop) (s : S) : Prop :=
  forall tr, mon_holds mon tr -> mon_state mon tr = s ->
    mon_holds mon (m tr).2 /\ Q (m tr).1 (mon_state mon (m tr).2).

(** The gate of the gas-price checks as a monitor: the state tells whether
    the last price query passed and nothing was submitted since; a
    submission is accepted only in that state. *)
Definition gate_monitor : Monitor bool :=
  mkMonitor false
    (fun armed ev =>
       match ev with
       | EvGasPrice _ r => price_ok r
       | EvSubmit _ _ _ _ => false
       | _ => armed
       end)
    (fun armed ev => is_submit ev = true -> armed = true).

(** The agreement of swap and bridge requests as a monitor: the state is the
    most recent 1inch exchange. *)
Abbreviation XState := (option (SwapParams * Res (option QuoteData))).

Definition exchange_monitor : Monitor XState :=
  mkMonitor None
    (fun s ev => match ev with EvSwapQuote p r => Some (p, r) | _ => s end)
    (fun s ev =>
       match ev with
       | EvRelayQuote p _ => origin_ok s p
       | EvSwapQuote asked _ => swap_request_ok asked
       | _ => True
       end).

(** [ends_after_rejected_check] as a monitor: the state tells whether the
    most recent event is a gas-price query that did not pass; then only
    another query may follow. *)
Definition abort_monitor : Monitor bool :=
  mkMonitor false
    (fun _ ev => match ev with EvGasPrice _ r => negb (price_ok r) | _ => false end)
    (fun rejected ev => rejected = true -> is_price ev = true).

(** What [getQuote] returns for a given outcome of the HTTP call. *)
Definition quote_of (resp : Res (option QuoteData)) : option QuoteData :=
  match resp with
  | Ok data => Script.normalize_quote <$> data
  | Throw _ => None
  end.

(** The run of one cycle in [calm_world], and the Relay request it makes. *)
Definition calm_wallet : string := "0x71C7656EC7ab88b098defB751B7401B5f6d8976F".

Definition calm_trace : Trace :=
  (Script.executeBridgeCycle calm_world calm_wallet (Script.mkConfig None) []).2.

Definition calm_swap_request : SwapParams :=
  mkSwapParams 8453 (Some WETH_Base) (Some USDC_Base) 2000000000000000
    calm_wallet calm_wallet.

Definition calm_relay_request : RelayQuoteParams :=
  mkRelayQuoteParams calm_wallet calm_wallet 8453 10 (Some USDC_Base)
    (Some WETH_Optimism) 4000000 "0.5".

(** [calm_world] with given native balances and token balances. *)
Definition is_weth (address : string) : bool :=
  bool_decide (address ∈ [WETH_Base; WETH_Arbitrum; WETH_Optimism; WETH_Linea]).

Definition world_with (native : Z -> Z) (token : Z -> string -> Z) : World :=
  mkWorld
    (fun _ _ address => Ok (if is_weth address then 18 else 6))
    (fun _ c address _ => Ok (token c address))
    (rpc_getGasPrice calm_world)
    (fun _ c _ => Ok (native c))
    (rpc_allowance calm_world)
    (rpc_estimateGas calm_world)
    (rpc_sendTransaction calm_world)
    (rpc_wait calm_world)
    (oneinch_swap calm_world)
    (relay_quote calm_world)
    (relay_status calm_world)
    (Math_random calm_world)
    (formatUnits calm_world).

(** Scenario C of the specification: 0.002 WETH on Arbitrum, 0.0002 ETH of
    gas there and 0.0008 ETH on Base. *)
Definition low_reserve_world : World :=
  world_with (fun c => if c =? 8453 then 800000000000000 else 200000000000000)
    (fun c address =>
       if (c =? 42161) && String.eqb address WETH_Arbitrum then 2000000000000000 else 0).

(** Dust everywhere: 0.0005 WETH and 0.5 USDC on each chain, both below the
    minimum bridge amounts. *)
Definition dust_world : World :=
  world_with (fun _ => 1000000000000000000)
    (fun _ address => if is_weth address then 500000000000000 else 500000).

Definition dust_snapshot : Res Balances :=
  (BridgeService.checkTokenBalancesAcrossChains dust_world calm_wallet []).1.

(** Scenario B of the specification: 0.0005 WETH and 5 USDC on Arbitrum. *)
Definition snapshot_scenario_B : Balances :=
  <[42161 := mkChainData "arbitrum"
               (<["WETH" := entry_read WETH_Arbitrum 500000000000000 "0.0005" 18]>
                  (<["USDC" := entry_read USDC_Arbitrum 5000000 "5.0" 6]> ∅))]> ∅.

(** [calm_world] in which the gas price is 1 gwei. *)
Definition costly_world : World :=
  mkWorld
    (rpc_decimals calm_world) (rpc_balanceOf calm_world)
    (fun _ _ => Ok 1000000000)
    (rpc_getBalance calm_world) (rpc_allowance calm_world)
    (rpc_estimateGas calm_world) (rpc_sendTransaction calm_world)
    (rpc_wait calm_world) (oneinch_swap calm_world) (relay_quote calm_world)
    (relay_status calm_world) (Math_random calm_world) (formatUnits calm_world).

(** [calm_world] in which the [decimals] read of USDC on Base fails. *)
Definition flaky_world : World :=
  mkWorld
    (fun t c address =>
       if (c =? 8453) && String.eqb address USDC_Base then Throw "timeout"
       else rpc_decimals calm_world t c address)
    (rpc_balanceOf calm_world) (rpc_getGasPrice calm_world)
    (rpc_getBalance calm_world) (rpc_allowance calm_world)
    (rpc_estimateGas calm_world) (rpc_sendTransaction calm_world)
    (rpc_wait calm_world) (oneinch_swap calm_world) (relay_quote calm_world)
    (relay_status calm_world) (Math_random calm_world) (formatUnits calm_world).

(** ** Vocabulary of the further properties *)

(** Chain data [cd] holds [b] units of [sym], read without error. *)
Definition holds (sym : string) (cd : ChainData) (b : Z) : Prop :=
  exists e, tokens cd !! sym = Some e /\ te_balance e = Some b /\
            truthy_str (te_error e) = false.

(** Two chains hold 0.002 WETH each; Optimism has the smaller chain id. *)
Definition snapshot_tie : Balances :=
  <[8453 := base_with_weth]>
    (<[10 := mkChainData "optimism"
               (<["WETH" := entry_read WETH_Optimism 2000000000000000 "0.002" 18]> ∅)]> ∅).

Definition tie_candidate : Script.Candidate :=
  Script.mkCandidate "WETH" 10 "optimism" (Some WETH_Optimism) 2000000000000000
    (Some "0.002") (Some 18) (Some "USDC").

(** A snapshot without any balance: every read gave zero. *)
Definition snapshot_empty_wallet : Balances :=
  <[8453 := mkChainData "base"
              (<["WETH" := entry_read WETH_Base 0 "0.0" 18]>
                 (<["USDC" := entry_read USDC_Base 0 "0.0" 6]> ∅))]> ∅.

#[global] Instance supported_dec c : Decision (supported c).
Proof. unfold supported. apply _. Defined.

(** The ledger of a run: the quotes obtained from 1inch and Relay, the
    transactions handed to a signer and the confirmations awaited. *)
Definition is_wait (ev : Event) : bool :=
  match ev with EvWait _ _ _ => true | _ => false end.

Definition is_quote (ev : Event) : bool :=
  match ev with EvSwapQuote _ _ | EvRelayQuote _ _ => true | _ => false end.

Definition is_entry (ev : Event) : bool := is_submit ev || is_wait ev || is_quote ev.

Definition ledger (tr : Trace) : Trace := List.filter is_entry tr.

Definition quotes (tr : Trace) : Trace := List.filter is_quote tr.

(** The ledger of a run, as a monitor that judges nothing. *)
Definition ledger_monitor : Monitor Trace :=
  mkMonitor [] (fun s ev => if is_entry ev then ev :: s else s) (fun _ _ => True).

(** The wrap of the gas rescue: 0.001 ETH into WETH on Base, with gas limit
    100000 and the gas price [p]. *)
Definition wrap_request (p : Z) : TxRequest :=
  TxDeposit WETH_Base Script.GAS_BRIDGE_AMOUNT 100000 p.

(** The payload [executeBridgeTransaction] takes from a quote: the data of
    the first item of the first step whose id is ["deposit"]. *)
Definition deposit_payload (quote : BridgeQuote) : option TxData :=
  l ← steps quote; found ← BridgeService.find_deposit l; item_data found.2.

(** The Relay request of the gas rescue: 0.001 WETH of Base against native
    currency on the target chain, for the wallet itself. *)
Definition rescue_request (wallet : string) (target : Z) : RelayQuoteParams :=
  mkRelayQuoteParams wallet wallet Script.BASE target (Some WETH_Base)
    (Some ZERO_ADDRESS) Script.GAS_BRIDGE_AMOUNT "0.5".

(** The ledger of a gas rescue that answered [true], most recent first: the
    wrap on Base was mined, Relay answered the request of the rescue with
    status 200, and the deposit of that answer was mined, sent through the
    provider built from the chain id of its payload. *)
Definition rescued (wallet : string) (target : Z) (new : Trace) : Prop :=
  exists p wrapHash wrapBlock quote payload depositHash depositBlock,
    let c := rpcProvider (tx_chainId payload) in
    new = [EvWait c depositHash (Ok depositBlock);
           EvSubmit c wallet (deposit_request payload) (Ok depositHash);
           EvRelayQuote (rescue_request wallet target) (Ok (200, quote));
           EvWait Script.BASE wrapHash (Ok wrapBlock);
           EvSubmit Script.BASE wallet (wrap_request p) (Ok wrapHash)] /\
    deposit_payload quote = Some payload /\
    p <= Script.MAX_GAS_PRICE_WEI.

(** ** Requests of the cycle against what it read *)

(** A 1inch request of the cycle sells, for the wallet itself, the whole
    balance of one tracked token that was read on the chain of the request
    and reaches its minimum, against the other tracked token of that chain. *)
Definition sells_whole_balance (wallet : string) (earlier : Trace) (p : SwapParams) : Prop :=
  sp_from p = wallet /\ sp_receiver p = wallet /\
  exists sym address,
    (sym = "WETH" \/ sym = "USDC") /\
    Registry.tokenAddress (sp_chainId p) (Some sym) = Ok (Some address) /\
    sp_src p = Some address /\
    Registry.tokenAddress (sp_chainId p) (Script.TARGET_TOKENS sym) = Ok (sp_dst p) /\
    Script.minAmountOf sym <= sp_amount p /\
    EvBalanceOf (sp_chainId p) address wallet (Ok (sp_amount p)) ∈ earlier.

(** The output amount a 1inch response states: [dstAmount], else
    [toAmount], else [amount]. *)
Definition quoted_output (resp : Res (option QuoteData)) : option Z :=
  match resp with
  | Ok (Some q) => or_else (q_dstAmount q) (or_else (q_toAmount q) (q_amount q))
  | _ => None
  end.

(** A Relay request of the cycle.  After a swap it bridges the quoted
    output of that swap from the chain of the swap to another supported
    chain, asking there for the token that was sold; before any swap it is
    the request of the gas rescue: 0.001 WETH of Base for native currency. *)
Definition bridges_swap_output (wallet : string) (config : Script.Config)
    (swap : option (SwapParams * Res (option QuoteData))) (p : RelayQuoteParams) : Prop :=
  rq_user p = wallet /\ rq_recipient p = wallet /\
  match swap with
  | None =>
      rq_originChainId p = Script.BASE /\ rq_originCurrency p = Some WETH_Base /\
      rq_destinationCurrency p = Some ZERO_ADDRESS /\
      rq_amount p = Script.GAS_BRIDGE_AMOUNT /\ rq_slippageTolerance p = "0.5"
  | Some (asked, resp) =>
      rq_originChainId p = sp_chainId asked /\
      supported (rq_destinationChainId p) /\
      rq_destinationChainId p <> sp_chainId asked /\
      (exists sym,
         (sym = "WETH" \/ sym = "USDC") /\
         Registry.tokenAddress (sp_chainId asked) (Some sym) = Ok (sp_src asked) /\
         Registry.tokenAddress (rq_destinationChainId p) (Some sym) =
           Ok (rq_destinationCurrency p)) /\
      quoted_output resp = Some (rq_amount p) /\
      Some (rq_slippageTolerance p) =
        or_str (Script.SLIPPAGE_TOLERANCE config) (Some "0.5")
  end.

(** The events the requests are judged against: successful balance reads
    and 1inch exchanges. *)
Definition recorded (ev : Event) : bool :=
  match ev with
  | EvBalanceOf _ _ _ (Ok _) | EvSwapQuote _ _ => true
  | _ => false
  end.

(** A monitor that judges each event against the recorded events that
    precede it. *)
Definition history_monitor (judge : Trace -> Event -> Prop) : Monitor Trace :=
  mkMonitor [] (fun s ev => if recorded ev then ev :: s else s) judge.

Definition flow_monitor (wallet : string) (config : Script.Config) : Monitor Trace :=
  history_monitor
    (fun s ev =>
       match ev with
       | EvSwapQuote p _ => last_swap s = None /\ sells_whole_balance wallet s p
       | EvRelayQuote p _ => bridges_swap_output wallet config (last_swap s) p
       | _ => True
       end).

(** What the selection may rely on in a snapshot taken for [wallet]: every
    balance of a tracked token sits on a supported chain, under the registry
    address of the token, and was read. *)
Definition snapshot_read (wallet : string) (balances : Balances) (s : Trace) : Prop :=
  forall c cd sym e b,
    balances !! c = Some cd -> sym = "WETH" \/ sym = "USDC" ->
    tokens cd !! sym = Some e -> te_balance e = Some b ->
    supported c /\
    exists address,
      Registry.tokenAddress c (Some sym) = Ok (Some address) /\
      te_address e = Some address /\
      EvBalanceOf c address wallet (Ok b) ∈ s.

(** States reached from [s] by reading more balances. *)
Definition extends (s s' : Trace) : Prop :=
  last_swap s' = last_swap s /\ forall ev, ev ∈ s -> ev ∈ s'.

(** The ledger of a completed cycle, most recent first.  1inch answered the
    request [asked] with a quote; the transaction of that quote was mined on
    the chain of the request; Relay then answered a request with status 200
    and the deposit of that answer was mined, sent through the provider
    built from the chain id of its payload.  Around the swap there is at
    most one other submission on each side (the approvals of the router and
    of the relayer) and no other quote; before the 1inch request at most
    two submissions (the gas rescue). *)
Definition swapped_then_bridged (wallet : string) (new : Trace) : Prop :=
  exists early router relayer asked answer tx gasPrice limit swapHash swapBlock
         request quote payload depositHash depositBlock,
    let src := sp_chainId asked in
    let c := rpcProvider (tx_chainId payload) in
    new = [EvWait c depositHash (Ok depositBlock);
           EvSubmit c wallet (deposit_request payload) (Ok depositHash)]
          ++ relayer ++
          [EvRelayQuote request (Ok (200, quote));
           EvWait src swapHash (Ok swapBlock);
           EvSubmit src wallet
             (TxRaw (stx_to tx) (stx_data tx) (default 0 (stx_value tx))
                (GasPriceOfGwei gasPrice) (Some limit))
             (Ok swapHash)]
          ++ router ++
          [EvSwapQuote asked (Ok (Some answer))]
          ++ early /\
    q_tx answer = Some tx /\
    deposit_payload quote = Some payload /\
    (length (submissions relayer) <= 1)%nat /\ quotes relayer = [] /\
    (length (submissions router) <= 1)%nat /\ quotes router = [] /\
    (length (submissions early) <= 2)%nat.

(** ** The request of the legacy flow *)

(** The Relay request of [bridgeTokens]: half of a positive USDC or WETH
    balance that was read for the wallet, from its chain to the same token
    on another supported chain. *)
Definition bridges_half_balance (wallet : string) (earlier : Trace)
    (p : RelayQuoteParams) : Prop :=
  rq_user p = wallet /\ rq_recipient p = wallet /\ rq_slippageTolerance p = "0.5" /\
  supported (rq_originChainId p) /\ supported (rq_destinationChainId p) /\
  rq_destinationChainId p <> rq_originChainId p /\
  exists sym address b,
    (sym = "USDC" \/ sym = "WETH") /\
    Registry.tokenAddress (rq_originChainId p) (Some sym) = Ok (Some address) /\
    rq_originCurrency p = Some address /\
    Registry.tokenAddress (rq_destinationChainId p) (Some sym) =
      Ok (rq_destinationCurrency p) /\
    EvBalanceOf (rq_originChainId p) address wallet (Ok b) ∈ earlier /\
    0 < b /\ rq_amount p = b `quot` 2.

(** The legacy flow makes that request only, asks 1inch nothing and never
    queries the gas price. *)
Definition legacy_monitor (wallet : string) : Monitor Trace :=
  history_monitor
    (fun s ev =>
       match ev with
       | EvRelayQuote p _ => bridges_half_balance wallet s p
       | EvSwapQuote _ _ | EvGasPrice _ _ => False
       | _ => True
       end).

(** The legacy flow in [calm_world]. *)
Definition legacy_trace : Trace :=
  (BridgeService.bridgeTokens calm_world calm_wallet []).2.

Definition legacy_request : RelayQuoteParams :=
  mkRelayQuoteParams calm_wallet calm_wallet 8453 10 (Some WETH_Base)
    (Some WETH_Optimism) 1000000000000000 "0.5".

(** ** Wallet files *)

(** A wallet that [loadWallets] accepts: an object with a truthy address
    and a truthy private key. *)
Definition complete (wallet : WalletManager.Json) : bool :=
  match wallet with
  | WalletManager.JObject fields =>
      WalletManager.truthy (assoc "address" fields) &&
      WalletManager.truthy (assoc "privateKey" fields)
  | _ => false
  end.

(** A wallet as [loadWallets] returns it: complete, and with a defined
    [active] property. *)
Definition loaded (wallet : WalletManager.Json) : Prop :=
  complete wallet = true /\
  exists active, WalletManager.get "active" wallet = Ok (Some active).

(** What [loadWallets] does to a complete wallet of the file. *)
Definition activated (wallet : WalletManager.Json) : WalletManager.Json :=
  match WalletManager.get "active" wallet with
  | Ok None => WalletManager.set_active wallet
  | _ => wallet
  end.

(** A wallet file with two wallets, the second switched off, and one with a
    wallet that lacks its private key. *)
Definition wallet_one : WalletManager.Json :=
  WalletManager.JObject
    [("address", WalletManager.JString "0x71C7656EC7ab88b098defB751B7401B5f6d8976F");
     ("privateKey", WalletManager.JString "0x01")].

Definition wallet_two : WalletManager.Json :=
  WalletManager.JObject
    [("address", WalletManager.JString "0x2222222222222222222222222222222222222222");
     ("privateKey", WalletManager.JString "0x02");
     ("active", WalletManager.JBool false)].

Definition wallet_without_key : WalletManager.Json :=
  WalletManager.JObject
    [("address", WalletManager.JString "0x3333333333333333333333333333333333333333")].

Definition two_wallets : WalletManager.Files :=
  fun name =>
    if String.eqb name "wallets.json"
    then Some (Ok (WalletManager.JArray [wallet_one; wallet_two]))
    else None.

Definition broken_wallets : WalletManager.Files :=
  fun name =>
    if String.eqb name "wallets.json"
    then Some (Ok (WalletManager.JArray [wallet_one; wallet_two; wallet_without_key]))
    else None.

(** ** The main loop *)

(** A start-up with the wallet file [two_wallets], intervals of one to two
    minutes, and a signer that accepts every key that is there. *)
Definition calm_startup : Script.Startup :=
  Script.mkStartup None two_wallets
    (Ok (Script.mkMainConfig (Script.mkConfig None) 1 2))
    (fun key => match key with
                | Some _ => Ok calm_wallet
                | None => Throw "invalid private key"
                end).

(** A wallet file whose only wallet is switched off, and start-ups with it
    and with a signer that rejects every key. *)
Definition idle_wallets : WalletManager.Files :=
  fun name =>
    if String.eqb name "wallets.json"
    then Some (Ok (WalletManager.JArray [wallet_two]))
    else None.

Definition idle_startup : Script.Startup :=
  Script.mkStartup None idle_wallets
    (Ok (Script.mkMainConfig (Script.mkConfig None) 1 2))
    (Script.wallet_address calm_startup).

Definition strict_startup : Script.Startup :=
  Script.mkStartup None two_wallets
    (Ok (Script.mkMainConfig (Script.mkConfig None) 1 2))
    (fun _ => Throw "invalid private key").

(** ** The gas reserve *)

(** The most recent read of a native balance: chain, owner and outcome. *)
Fixpoint last_native_read (tr : Trace) : option (Z * string * Res Z) :=
  match tr with
  | [] => None
  | EvGetBalance c owner r :: _ => Some (c, owner, r)
  | _ :: earlier => last_native_read earlier
  end.

(** The account of a 1inch request was last seen with at least the gas
    reserve of native currency on the chain of the request. *)
Definition reserve_seen (last : option (Z * string * Res Z)) (p : SwapParams) : Prop :=
  exists b, last = Some (sp_chainId p, sp_from p, Ok b) /\ Script.GAS_RESERVE <= b.

(** The state is the most recent native balance read; a 1inch request is
    accepted only when that read shows the reserve. *)
Definition reserve_monitor : Monitor (option (Z * string * Res Z)) :=
  mkMonitor None
    (fun s ev => match ev with EvGetBalance c owner r => Some (c, owner, r) | _ => s end)
    (fun s ev => match ev with EvSwapQuote p _ => reserve_seen s p | _ => True end).

(** * Proofs *)

(** ** Token selection *)

Section Selection.
Import Script.

Lemma elem_of_supported_chains c : c ∈ supported_chains <-> supported c.
Proof.
  unfold supported_chains, supported.
  rewrite !elem_of_union, !elem_of_singleton. tauto.
Qed.

Lemma elem_of_Object_entries (balances : Balances) c cd :
  (c, cd) ∈ Object_entries balances <-> balances !! c = Some cd.
Proof.
  unfold Object_entries. rewrite merge_sort_Permutation.
  apply elem_of_map_to_list.
Qed.

Lemma chainNameOf_supported c : supported c -> exists name, chainNameOf c = Ok name.
Proof. intros [-> | [-> | [-> | ->]]]; eexists; reflexivity. Qed.

(** What one step of the scan does with a chain that qualifies, and with
    one that does not. *)
Lemma scan_chain_skip sym best c cd :
  (forall b, ~ qualifies sym cd b) -> scan_chain sym best (c, cd) = best.
Proof.
  intros Hno. unfold scan_chain.
  destruct (tokens cd !! sym) as [e|] eqn:He; [|done].
  destruct (te_balance e) as [bal|] eqn:Hbal; [|done].
  destruct (truthy_str (te_error e)) eqn:Herr; [done|].
  destruct (bal <? minAmountOf sym) eqn:Hmin; [done|].
  exfalso. apply (Hno bal). exists e. repeat split; try done. lia.
Qed.

Lemma scan_fold sym l : forall best,
  match fold_left (scan_chain sym) l best with
  | None => best = None /\ forall c cd b, (c, cd) ∈ l -> ~ qualifies sym cd b
  | Some r =>
      (best = Some r \/ picked sym l r) /\
      (forall b0, best = Some b0 -> bestBalance b0 <= bestBalance r) /\
      (forall c cd b, (c, cd) ∈ l -> qualifies sym cd b -> b <= bestBalance r)
  end.
Proof.
  induction l as [|[c cd] l IH]; intros best; cbn [fold_left].
  - destruct best as [r|].
    + split; [by left|]. split; [by intros ? [= ->]|]. intros ??? Hin. by apply elem_of_nil in Hin.
    + split; [done|]. intros ??? Hin. by apply elem_of_nil in Hin.
  - specialize (IH (scan_chain sym best (c, cd))).
    assert (Hstep :
      (scan_chain sym best (c, cd) = best /\ forall b, qualifies sym cd b ->
          exists b0, best = Some b0 /\ b <= bestBalance b0) \/
      (exists e b, tokens cd !! sym = Some e /\ te_balance e = Some b /\
          truthy_str (te_error e) = false /\ minAmountOf sym <= b /\
          scan_chain sym best (c, cd) = Some (best_of c e b) /\
          forall b0, best = Some b0 -> bestBalance b0 <= b)).
    { unfold scan_chain.
      destruct (tokens cd !! sym) as [e|] eqn:He;
        [|left; split; [done|]; intros b (e' & ? & _); congruence].
      destruct (te_balance e) as [bal|] eqn:Hbal;
        [|left; split; [done|]; intros b (e' & ? & ? & _); congruence].
      destruct (truthy_str (te_error e)) eqn:Herr;
        [left; split; [done|]; intros b (e' & ? & ? & ? & _); congruence|].
      destruct (bal <? minAmountOf sym) eqn:Hmin.
      { left; split; [done|]. intros b (e' & ? & ? & ? & ?).
        assert (e' = e) as -> by congruence. assert (b = bal) as -> by congruence. lia. }
      destruct best as [b0|].
      - destruct (bestBalance b0 <? bal) eqn:Hgt.
        + right. exists e, bal. repeat split; try done; try lia.
          intros ? [= <-]. lia.
        + left. split; [done|]. intros b (e' & ? & ? & ? & ?).
          assert (e' = e) as -> by congruence. assert (b = bal) as -> by congruence.
          exists b0. split; [done|lia].
      - right. exists e, bal. repeat split; try done; lia. }
    destruct (fold_left (scan_chain sym) l (scan_chain sym best (c, cd))) as [r|] eqn:Hfold.
    + destruct IH as (Hfrom & Hge & Hmax).
      destruct Hstep as [[Hsame Hcov] | (e & b & He & Hb & Herr & Hmin & Hnew & Hold)].
      * rewrite Hsame in *. split; [|split].
        -- destruct Hfrom as [?|(cd' & e' & Hin & ?)]; [by left|right].
           exists cd', e'. split; [by apply elem_of_cons; right|done].
        -- done.
        -- intros c' cd' b' Hin Hq. apply elem_of_cons in Hin as [[= -> ->]|Hin].
           ++ destruct (Hcov _ Hq) as (b0 & Hb0 & ?). specialize (Hge _ Hb0). lia.
           ++ eauto.
      * rewrite Hnew in *. split; [|split].
        -- right. destruct Hfrom as [[= <-]|(cd' & e' & Hin & ?)].
           ++ exists cd, e. simpl. split; [by apply elem_of_cons; left|done].
           ++ exists cd', e'. split; [by apply elem_of_cons; right|done].
        -- intros b0 Hb0. specialize (Hold _ Hb0). specialize (Hge _ eq_refl). simpl in Hge. lia.
        -- intros c' cd' b' Hin Hq. apply elem_of_cons in Hin as [[= -> ->]|Hin]; [|eauto].
           destruct Hq as (e' & ? & ? & _).
           assert (e' = e) as -> by congruence. assert (b' = b) as -> by congruence.
           specialize (Hge _ eq_refl). simpl in Hge. lia.
    + destruct IH as (Hnone & Hno).
      destruct Hstep as [[Hsame Hcov] | (e & b & _ & _ & _ & _ & Hnew & _)]; [|congruence].
      rewrite Hsame in Hnone. split; [done|].
      intros c' cd' b' Hin Hq. apply elem_of_cons in Hin as [[= -> ->]|Hin]; [|by eapply Hno].
      destruct (Hcov _ Hq) as (b0 & ? & _). congruence.
Qed.

(** The scan finds nothing exactly when no chain qualifies, and otherwise
    returns a qualifying chain of the largest balance. *)
Lemma findTokenBalanceOnChains_none balances sym :
  none_qualifies sym balances -> findTokenBalanceOnChains balances sym = Ok None.
Proof.
  intros Hno. unfold findTokenBalanceOnChains.
  pose proof (scan_fold sym (Object_entries balances) None) as H.
  destruct (fold_left _ _ _) as [r|]; [|done].
  destruct H as ([?|(cd & e & Hin & He & Hb & Herr & Hmin & _)] & _); [done|].
  apply elem_of_Object_entries in Hin. exfalso. eapply Hno; [done|]. by exists e.
Qed.

Lemma findTokenBalanceOnChains_some balances sym c0 cd0 b0 :
  dom balances ⊆ supported_chains ->
  balances !! c0 = Some cd0 -> qualifies sym cd0 b0 ->
  exists cand, findTokenBalanceOnChains balances sym = Ok (Some cand) /\
    symbol cand = sym /\ targetSymbol cand = None /\
    (exists cd, balances !! sourceChainId cand = Some cd /\ qualifies sym cd (balance cand)) /\
    (forall c cd b, balances !! c = Some cd -> qualifies sym cd b -> b <= balance cand).
Proof.
  intros Hsup Hc0 Hq0. unfold findTokenBalanceOnChains.
  pose proof (scan_fold sym (Object_entries balances) None) as H.
  destruct (fold_left _ _ _) as [r|].
  - destruct H as ([?|(cd & e & Hin & He & Hb & Herr & Hmin & _)] & _ & Hmax); [done|].
    apply elem_of_Object_entries in Hin.
    destruct (chainNameOf_supported (bestChainId r)) as [name ->].
    { apply elem_of_supported_chains, Hsup, elem_of_dom. by exists cd. }
    eexists. split; [done|]. simpl. repeat split.
    + exists cd. split; [done|]. by exists e.
    + intros c cd' b Hc Hq. eapply Hmax; [|done]. by apply elem_of_Object_entries.
  - destruct H as (_ & Hno). exfalso. eapply Hno; [|done]. by apply elem_of_Object_entries.
Qed.

(** C1: on a snapshot keyed by supported chain ids, whenever some chain holds
    at least 0.001 WETH the selection returns a WETH candidate with target
    symbol USDC, however large any USDC balance is, taken from a qualifying
    chain whose WETH balance no other qualifying chain exceeds. *)
Theorem weth_has_priority (balances : Balances) c0 cd0 b0 :
  dom balances ⊆ supported_chains ->
  balances !! c0 = Some cd0 -> qualifies "WETH" cd0 b0 ->
  exists cand, findBestTokenToBridge balances = Ok cand /\
    symbol cand = "WETH" /\ targetSymbol cand = Some "USDC" /\
    (exists cd, balances !! sourceChainId cand = Some cd /\
                qualifies "WETH" cd (balance cand)) /\
    (forall c cd b, balances !! c = Some cd -> qualifies "WETH" cd b -> b <= balance cand).
Proof.
  intros Hsup Hc0 Hq0.
  destruct (findTokenBalanceOnChains_some balances "WETH" c0 cd0 b0 Hsup Hc0 Hq0)
    as (cand & Hfind & Hsym & _ & Hsrc & Hmax).
  exists (with_target cand (TARGET_TOKENS "WETH")).
  unfold findBestTokenToBridge. rewrite Hfind. by repeat split.
Qed.

Lemma weth_has_priority_witness :
  dom snapshot_weth_and_usdc ⊆ supported_chains /\
  snapshot_weth_and_usdc !! 8453 = Some base_with_weth /\
  qualifies "WETH" base_with_weth 2000000000000000 /\
  exists cand, findBestTokenToBridge snapshot_weth_and_usdc = Ok cand /\
    symbol cand = "WETH" /\ targetSymbol cand = Some "USDC" /\
    (exists cd, snapshot_weth_and_usdc !! sourceChainId cand = Some cd /\
                qualifies "WETH" cd (balance cand)) /\
    (forall c cd b, snapshot_weth_and_usdc !! c = Some cd ->
                    qualifies "WETH" cd b -> b <= balance cand).
Proof.
  assert (H1 : dom snapshot_weth_and_usdc ⊆ supported_chains) 
    by (apply (bool_decide_unpack _); vm_compute; exact I).
  assert (H2 : qualifies "WETH" base_with_weth 2000000000000000).
  { eexists. split; [reflexivity|]. split; [reflexivity|]. split; [reflexivity|].
    vm_compute. discriminate. }
  split; [exact H1|]. split; [reflexivity|]. split; [exact H2|].
  exact (weth_has_priority snapshot_weth_and_usdc 8453 base_with_weth
           2000000000000000 H1 eq_refl H2).
Defined.

End Selection.

(** ** Token alternation *)

(** Every candidate the selection returns has the other symbol as its
    target, and the target of that target is its own symbol. *)
Lemma candidate_alternates (balances : Balances) (cand : Script.Candidate) :
  Script.findBestTokenToBridge balances = Ok cand ->
  (Script.symbol cand = "WETH" \/ Script.symbol cand = "USDC") /\
  Script.targetSymbol cand = Script.TARGET_TOKENS (Script.symbol cand) /\
  Script.TARGET_TOKENS (Script.symbol cand) ≫= Script.TARGET_TOKENS =
    Some (Script.symbol cand).
Proof.
  unfold Script.findBestTokenToBridge, Script.findTokenBalanceOnChains.
  repeat (case_match; try done); intros [= <-]; simplify_eq; cbn; auto.
Qed.

(** ** Destination chain *)

Section Service.
Import BridgeService.

Lemma random_index_range r n :
  0 <= r < 2 ^ 53 -> (0 < n)%nat -> 0 <= random_index r n < Z.of_nat n.
Proof.
  intros Hr Hn. unfold random_index. split.
  - apply Z.div_pos; lia.
  - apply Z.div_lt_upper_bound; [lia|]. nia.
Qed.

(** C4: from a supported source chain, with [Math.random()] in [0, 1), the
    destination is a supported chain other than the source. *)
Theorem destination_differs_from_source (W : World) (src : Z) (tr : Trace) :
  supported src ->
  0 <= Math_random W (length tr) < 2 ^ 53 ->
  exists d, findDestinationChain W src tr =
              (Ok d, EvRandom (Math_random W (length tr)) :: tr) /\
            supported d /\ d <> src.
Proof.
  intros Hsrc Hr.
  pose proof (random_index_range _ 3 Hr ltac:(lia)) as Hi.
  unfold findDestinationChain, bind, call, lift.
  set (r := Math_random W (length tr)) in *.
  assert (Hcases : random_index r 3 = 0 \/ random_index r 3 = 1 \/ random_index r 3 = 2)
    by lia.
  unfold supported.
  destruct Hsrc as [-> | [-> | [-> | ->]]]; cbn -[random_index Z.pow];
    destruct Hcases as [-> | [-> | ->]]; cbn; eexists; (split; [reflexivity|]);
    split; lia.
Qed.

Lemma destination_differs_from_source_witness :
  supported 8453 /\
  0 <= Math_random calm_world (length (@nil Event)) < 2 ^ 53 /\
  exists d, findDestinationChain calm_world 8453 [] =
              (Ok d, EvRandom (Math_random calm_world (length (@nil Event))) :: []) /\
            supported d /\ d <> 8453.
Proof.
  assert (H1 : supported 8453) by (left; reflexivity).
  assert (H2 : 0 <= Math_random calm_world (length (@nil Event)) < 2 ^ 53)
    by (vm_compute; split; discriminate || reflexivity).
  split; [exact H1|]. split; [exact H2|].
  exact (destination_differs_from_source calm_world 8453 [] H1 H2).
Defined.

(** ** Bridge execution *)

Lemma find_deposit_spec l :
  find_deposit l =
    s ← stated_deposit_step (mkBridgeQuote (Some l)); first ← stated_first_item s; Some (s, first).
Proof.
  unfold find_deposit, stated_deposit_step, stated_first_item. simpl.
  induction l as [|s l IH]; [done|]. simpl.
  destruct (String.eqb_spec (step_id s) "deposit") as [Heq|Hne].
  - rewrite bool_decide_eq_true_2 by done. simpl.
    by destruct (step_items s) as [[|first rest]|].
  - rewrite bool_decide_eq_false_2 by done. apply IH.
Qed.

Lemma rpcProvider_supported c : supported c -> rpcProvider c = c.
Proof. by intros [-> | [-> | [-> | ->]]]. Qed.

Lemma rpcProvider_other c : ~ supported c -> rpcProvider c = LOCAL_NODE.
Proof.
  intros Hno. unfold rpcProvider.
  destruct (c =? 8453) eqn:?; [exfalso; apply Hno; unfold supported; lia|].
  destruct (c =? 42161) eqn:?; [exfalso; apply Hno; unfold supported; lia|].
  destruct (c =? 10) eqn:?; [exfalso; apply Hno; unfold supported; lia|].
  destruct (c =? 59144) eqn:?; [exfalso; apply Hno; unfold supported; lia|].
  done.
Qed.

(** C7: the transaction of the first item of the deposit step is submitted,
    once, through the provider built from the chain id named inside that
    payload: for a registered chain the provider of that chain, whatever
    the origin chain the caller asked for, and for any other id the default
    provider; without a deposit step, or with an empty item list, the call
    throws and submits nothing. *)
Theorem bridge_execution_uses_deposit_payload (W : World) (walletAddress : string)
    (q : BridgeQuote) (tr : Trace) :
  let run := executeBridgeTransaction W walletAddress q tr in
  match stated_deposit_step q with
  | Some s =>
      match stated_first_item s with
      | Some first =>
          match item_data first with
          | Some payload =>
              let c := rpcProvider (tx_chainId payload) in
              let sent := rpc_sendTransaction W (length tr) c walletAddress
                            (deposit_request payload) in
              let submit := EvSubmit c walletAddress (deposit_request payload) sent in
              (supported (tx_chainId payload) -> c = tx_chainId payload) /\
              (~ supported (tx_chainId payload) -> c = LOCAL_NODE) /\
              match sent with
              | Ok hash =>
                  let mined := rpc_wait W (S (length tr)) c hash in
                  run.2 = EvWait c hash mined :: submit :: tr /\
                  match mined with
                  | Ok blockNumber =>
                      run.1 = Ok (mkBridgeResult hash blockNumber (step_requestId s))
                  | Throw e => run.1 = Throw e
                  end
              | Throw e => run = (Throw e, submit :: tr)
              end
          | None => run = (Throw TypeError_undefined, tr)
          end
      | None => run = (Throw NO_DEPOSIT, tr)
      end
  | None => run = (Throw NO_DEPOSIT, tr) \/ run = (Throw NO_STEPS, tr)
  end.
Proof.
  unfold executeBridgeTransaction.
  destruct (steps q) as [l|] eqn:Hsteps; unfold stated_deposit_step; rewrite Hsteps; simpl;
    [|by right].
  destruct l as [|s0 l0] eqn:Hl; [by right|]. rewrite <- Hl.
  assert (Hfd := find_deposit_spec l). unfold stated_deposit_step in Hfd. simpl in Hfd.
  replace (match l with [] => throw NO_STEPS | _ :: _ => _ end)
    with (match find_deposit l with
          | Some (depositStep, first) =>
              match item_data first with
              | Some txData =>
                  (hash <- call (fun t => rpc_sendTransaction W t
                                            (rpcProvider (tx_chainId txData))
                                            walletAddress (deposit_request txData))
                                (EvSubmit (rpcProvider (tx_chainId txData)) walletAddress
                                   (deposit_request txData)) ;
                   blockNumber <- call (fun t => rpc_wait W t
                                                   (rpcProvider (tx_chainId txData)) hash)
                                       (EvWait (rpcProvider (tx_chainId txData)) hash) ;
                   ret (mkBridgeResult hash blockNumber (step_requestId depositStep)))%js
              | None => throw TypeError_undefined
              end
          | None => throw NO_DEPOSIT
          end : M BridgeResult) by (by rewrite Hl).
  rewrite Hfd. clear Hfd.
  destruct (head (List.filter _ l)) as [s|]; simpl; [|by left].
  destruct (stated_first_item s) as [first|]; simpl; [|done].
  destruct (item_data first) as [payload|]; [|done].
  split; [apply rpcProvider_supported|]. split; [apply rpcProvider_other|].
  unfold bind, call, ret, deposit_request. cbn.
  destruct (rpc_sendTransaction _ _ _ _ _) as [hash|e]; [|done].
  by destruct (rpc_wait _ _ _ _).
Qed.

(** A deposit on Base goes through the provider of Base; a deposit on
    chain 1, for which there is no RPC URL, through the default provider. *)
Example deposit_on_registered_chain :
  submissions (executeBridgeTransaction calm_world calm_wallet relay_answer []).2 =
    [EvSubmit 8453 calm_wallet
       (TxRaw (Some "0xa5F565650890fBA1824Ee0F21EbBbF660a179934") (Some "0x49290c1c") 0
          GasPriceDefault None)
       (Ok "0x5c504ed432cb51138bcf09aa5e8a410dd4a1e204ef84bfed1be16dfba1b22060")].
Proof. reflexivity. Qed.

Example deposit_on_unregistered_chain :
  submissions (executeBridgeTransaction calm_world calm_wallet foreign_answer []).2 =
    [EvSubmit LOCAL_NODE calm_wallet
       (TxRaw (Some "0xa5F565650890fBA1824Ee0F21EbBbF660a179934") (Some "0x49290c1c") 0
          GasPriceDefault None)
       (Ok "0x5c504ed432cb51138bcf09aa5e8a410dd4a1e204ef84bfed1be16dfba1b22060")].
Proof. reflexivity. Qed.

End Service.

(** ** The gas-price gate *)

Section Gate.

Lemma gated_tail ev tr : gated (ev :: tr) -> gated tr.
Proof.
  intros [armed H]. unfold gated. cbn [gate] in H.
  destruct (gate tr); [eauto|done].
Qed.

Lemma gated_suffix later tr : gated (later ++ tr) -> gated tr.
Proof. induction later as [|ev later IH]; [done|]. intros H. eapply IH, gated_tail, H. Qed.

Lemma gated_submit_armed ev tr : gated (ev :: tr) -> is_submit ev = true -> gate tr = Some true.
Proof.
  intros [armed H] Hs. cbn [gate] in H.
  destruct (gate tr) as [[|]|]; try done; by destruct ev.
Qed.

Lemma armed_fresh tr : gate tr = Some true -> fresh_check tr.
Proof.
  induction tr as [|ev tr IH]; [done|]. cbn [gate].
  destruct (gate tr) as [armed|] eqn:Hg; [|done].
  assert (Hquiet : is_submit ev = false /\ is_price ev = false ->
                   armed = true -> fresh_check (ev :: tr)).
  { intros Hq ->. destruct (IH eq_refl) as (since & c' & p & before & -> & Hp & Hall).
    exists (ev :: since), c', p, before. split; [done|]. split; [done|].
    by constructor. }
  destruct ev; try (intros [= ->]; by apply Hquiet).
  - intros [= Hok]. destruct r as [p|]; [|done]. exists [], chain, p, tr.
    split; [done|]. split; [|done]. unfold price_ok in Hok. lia.
  - by destruct armed.
Qed.

Lemma gated_checked tr : gated tr -> every_submission_checked tr.
Proof.
  intros Hg later ev earlier -> Hs.
  eapply armed_fresh, gated_submit_armed; [|done]. eapply gated_suffix, Hg.
Qed.

Lemma not_armed_after since c r earlier :
  price_ok r = false -> Forall (fun e => is_price e = false) since ->
  gate (since ++ EvGasPrice c r :: earlier) <> Some true.
Proof.
  intros Hbad. induction 1 as [|ev since Hp _ IH]; cbn [app gate].
  - destruct (gate earlier); [|done]. by rewrite Hbad.
  - destruct (gate (since ++ _)) as [armed|] eqn:Hg; [|done].
    destruct ev; try done; try (by intros [= ->]). by destruct armed.
Qed.

Lemma gated_no_submit_after (bad : Res Z -> Prop) tr :
  (forall r, bad r -> price_ok r = false) -> gated tr -> no_submit_after bad tr.
Proof.
  intros Hbad Hg later ev since c r earlier -> Hr Hsince.
  destruct (is_submit ev) eqn:Hs; [|done]. exfalso.
  eapply not_armed_after; [by apply Hbad| |]; [done|].
  eapply gated_submit_armed; [|done]. eapply gated_suffix, Hg.
Qed.

Lemma too_high_not_ok r : too_high r -> price_ok r = false.
Proof. intros (p & -> & Hp). unfold price_ok. lia. Qed.

Lemma failed_not_ok r : failed r -> price_ok r = false.
Proof. by intros (msg & ->). Qed.

End Gate.

(** ** The balance snapshot *)

Section Snapshot.
Import BridgeService.
Variable W : World.

Lemma readToken_spec c address walletAddress tr :
  exists e evs,
    readToken W c address walletAddress tr = (Ok e, evs ++ tr) /\
    Forall (read_of c address walletAddress) evs /\
    entry_matches W c address walletAddress e evs.
Proof.
  unfold readToken, try_catch, bind, call, lift, ret. cbn [length].
  destruct (rpc_decimals W (length tr) c address) as [d|msg] eqn:Hd.
  - destruct (rpc_balanceOf W (S (length tr)) c address walletAddress) as [bal|msg] eqn:Hb.
    + destruct (formatUnits_checked W bal d) as [text|msg] eqn:Hf.
      * eexists _, [_; _]. split; [reflexivity|]. split.
        { constructor; [right; eauto|]. constructor; [left; eauto|constructor]. }
        right. exists d, bal, text. set_solver.
      * eexists _, [_; _]. split; [reflexivity|]. split.
        { constructor; [right; eauto|]. constructor; [left; eauto|constructor]. }
        left. exists msg. split; [done|]. right; right. exists d, bal.
        set_solver.
    + eexists _, [_; _]. split; [reflexivity|]. split.
      { constructor; [right; eauto|]. constructor; [left; eauto|constructor]. }
      left. exists msg. split; [done|]. set_solver.
  - eexists _, [_]. split; [reflexivity|]. split.
    { constructor; [left; eauto|constructor]. }
    left. exists msg. split; [done|]. set_solver.
Qed.

Lemma read_of_is_read c address walletAddress ev :
  read_of c address walletAddress ev -> is_read ev.
Proof. by intros [[r ->] | [r ->]]. Qed.

Lemma entry_matches_later c address walletAddress e evs more :
  entry_matches W c address walletAddress e evs ->
  entry_matches W c address walletAddress e (more ++ evs).
Proof.
  unfold entry_matches. setoid_rewrite elem_of_app.
  intros [(msg & -> & [Hev | [Hev | (d & bal & Hd1 & Hd2 & Hd3)]])
         | (d & bal & text & -> & Hf & Hd1 & Hd2)].
  - left. exists msg. split; [done|]. by left; right.
  - left. exists msg. split; [done|]. by right; left; right.
  - left. exists msg. split; [done|]. right; right. exists d, bal. by repeat split; try right.
  - right. exists d, bal, text. by repeat split; try right.
Qed.

Lemma set_token_insert c sym e (balances : Balances) cd :
  balances !! c = Some cd ->
  set_token c sym e balances =
    <[c := mkChainData (chainName cd) (<[sym := e]> (tokens cd))]> balances.
Proof.
  intros Hc. unfold set_token. apply map_eq. intros c'.
  destruct (decide (c = c')) as [<- | Hne].
  - by rewrite lookup_alter_eq, lookup_insert_eq, Hc.
  - by rewrite lookup_alter_ne, lookup_insert_ne.
Qed.

(** The inner loop fills the entry of every symbol of the table, each from
    the reads of its own token, and touches nothing else. *)
Lemma readTokens_spec c walletAddress table :
  NoDup table.*1 ->
  forall (balances : Balances) cd tr, balances !! c = Some cd ->
  exists cd' evs,
    readTokens W c walletAddress table balances tr = (Ok (<[c := cd']> balances), evs ++ tr) /\
    Forall is_read evs /\
    chainName cd' = chainName cd /\
    (forall sym, sym ∉ table.*1 -> tokens cd' !! sym = tokens cd !! sym) /\
    forall sym address, (sym, address) ∈ table ->
      exists e, tokens cd' !! sym = Some e /\
                entry_matches W c address walletAddress e evs.
Proof.
  induction table as [|[sym address] table IH]; intros Hnd balances cd tr Hc.
  - exists cd, []. cbn. rewrite insert_id by done.
    repeat split; [constructor|]. intros ?? Hin. by apply elem_of_nil in Hin.
  - cbn in Hnd. apply NoDup_cons in Hnd as [Hfresh Hnd].
    cbn [readTokens]. unfold bind.
    destruct (readToken_spec c address walletAddress tr) as (e & evs1 & -> & Hr1 & Hm1).
    rewrite (set_token_insert _ _ _ _ cd) by done.
    set (cd1 := mkChainData (chainName cd) (<[sym := e]> (tokens cd))).
    destruct (IH Hnd (<[c := cd1]> balances) cd1 (evs1 ++ tr))
      as (cd' & evs2 & Hrun & Hr2 & Hname & Hkeep & Hentries); [by rewrite lookup_insert_eq|].
    exists cd', (evs2 ++ evs1). rewrite Hrun, insert_insert_eq, app_assoc.
    split; [done|]. split.
    { apply Forall_app. split; [done|].
      eapply Forall_impl; [exact Hr1|]. apply read_of_is_read. }
    split; [done|]. split.
    + intros sym' Hout. cbn in Hout. apply not_elem_of_cons in Hout as [Hne Hout].
      rewrite Hkeep by done. cbn. by rewrite lookup_insert_ne.
    + intros sym' address' Hin. apply elem_of_cons in Hin as [[= -> ->] | Hin].
      * exists e. split; [|by apply entry_matches_later].
        rewrite Hkeep by done. cbn. by rewrite lookup_insert_eq.
      * destruct (Hentries _ _ Hin) as (e' & He' & Hm'). exists e'. split; [done|].
        destruct Hm' as [(msg & -> & Hev) | (d & bal & text & -> & Hf & Hd1 & Hd2)].
        -- left. exists msg. split; [done|]. setoid_rewrite elem_of_app.
           destruct Hev as [Hev | [Hev | (d & bal & Hd1 & Hd2 & Hd3)]];
             [by left; left|by right; left; left|].
           right; right. exists d, bal. by repeat split; try left.
        -- right. exists d, bal, text. setoid_rewrite elem_of_app. by repeat split; try left.
Qed.

(** The outer loop creates the key of every chain it visits, whatever the
    reads of that chain gave. *)
Lemma readChains_spec walletAddress chains :
  NoDup chains.*2 ->
  (forall name c, (name, c) ∈ chains ->
     exists table, tokenAddresses c = Some table /\ NoDup table.*1) ->
  forall (balances : Balances) tr,
  exists balances' evs,
    readChains W walletAddress chains balances tr = (Ok balances', evs ++ tr) /\
    Forall is_read evs /\
    dom balances' = dom balances ∪ list_to_set chains.*2 /\
    (forall c, c ∉ chains.*2 -> balances' !! c = balances !! c) /\
    forall name c table sym address,
      (name, c) ∈ chains -> tokenAddresses c = Some table -> (sym, address) ∈ table ->
      exists cd e, balances' !! c = Some cd /\ chainName cd = name /\
                   tokens cd !! sym = Some e /\
                   entry_matches W c address walletAddress e evs.
Proof.
  induction chains as [|[name c] chains IH]; intros Hnd Htables balances tr.
  - exists balances, []. cbn. split; [done|]. split; [constructor|].
    split; [by rewrite union_empty_r_L|]. split; [done|].
    intros ????? Hin. by apply elem_of_nil in Hin.
  - cbn in Hnd. apply NoDup_cons in Hnd as [Hfresh Hnd].
    destruct (Htables name c) as (table & Htable & Hndt); [by left|].
    cbn [readChains]. rewrite Htable. unfold bind at 1. unfold lift.
    unfold bind.
    destruct (readTokens_spec c walletAddress table Hndt
                (<[c := mkChainData name ∅]> balances) (mkChainData name ∅) tr)
      as (cd & evs1 & -> & Hr1 & Hname & _ & Hentries); [by rewrite lookup_insert_eq|].
    rewrite insert_insert_eq.
    assert (Htables' : forall name' c', (name', c') ∈ chains ->
              exists table, tokenAddresses c' = Some table /\ NoDup table.*1).
    { intros name' c' Hin. apply (Htables name'). by right. }
    destruct (IH Hnd Htables' (<[c := cd]> balances) (evs1 ++ tr))
      as (balances' & evs2 & Hrun & Hr2 & Hdom & Hkeep & Hchains).
    exists balances', (evs2 ++ evs1). rewrite Hrun, app_assoc.
    split; [done|]. split; [by apply Forall_app|]. split.
    { rewrite Hdom, dom_insert_L. cbn.
      by rewrite (union_comm_L {[c]} (dom balances)), union_assoc_L. }
    split.
    + intros c' Hout. cbn in Hout. apply not_elem_of_cons in Hout as [Hne Hout].
      rewrite Hkeep by done. by rewrite lookup_insert_ne.
    + intros name' c' table' sym address Hin Htable' Hsym.
      apply elem_of_cons in Hin as [[= -> ->] | Hin].
      * assert (table' = table) as -> by congruence.
        destruct (Hentries _ _ Hsym) as (e & He & Hm).
        exists cd, e. rewrite Hkeep by done. rewrite lookup_insert_eq.
        repeat split; try done. by apply entry_matches_later.
      * destruct (Hchains _ _ _ _ _ Hin Htable' Hsym) as (cd' & e & Hl & Hn & Ht & Hm).
        exists cd', e. repeat split; try done.
        destruct Hm as [(msg & -> & Hev) | (d & bal & text & -> & Hf & Hd1 & Hd2)].
        -- left. exists msg. split; [done|]. setoid_rewrite elem_of_app.
           destruct Hev as [Hev | [Hev | (d & bal & Hd1 & Hd2 & Hd3)]];
             [by left; left|by right; left; left|].
           right; right. exists d, bal. by repeat split; try left.
        -- right. exists d, bal, text. setoid_rewrite elem_of_app. by repeat split; try left.
Qed.

(** The whole snapshot: one entry per chain and token of the registry. *)
Lemma checkTokenBalancesAcrossChains_spec (walletAddress : string) (tr : Trace) :
  exists balances evs,
    checkTokenBalancesAcrossChains W walletAddress tr = (Ok balances, evs ++ tr) /\
    Forall is_read evs /\
    dom balances = supported_chains /\
    forall name c table sym address,
      (name, c) ∈ chainIds -> tokenAddresses c = Some table -> (sym, address) ∈ table ->
      exists cd e, balances !! c = Some cd /\ chainName cd = name /\
                   tokens cd !! sym = Some e /\
                   entry_matches W c address walletAddress e evs.
Proof.
  assert (Hids : NoDup chainIds.*2).
  { apply (bool_decide_unpack _). by vm_compute. }
  assert (Htables : forall name c, (name, c) ∈ chainIds ->
            exists table, tokenAddresses c = Some table /\ NoDup table.*1).
  { intros name c Hin.
    repeat (apply elem_of_cons in Hin as [[= -> ->] | Hin]);
      [| | | |by apply elem_of_nil in Hin];
      (eexists; split; [reflexivity|]); apply (bool_decide_unpack _); by vm_compute. }
  destruct (readChains_spec walletAddress chainIds Hids Htables ∅ tr)
    as (balances & evs & Hrun & Hr & Hdom & _ & Hentries).
  exists balances, evs. split; [done|]. split; [done|]. split; [|done].
  rewrite Hdom, dom_empty_L, union_empty_l_L. reflexivity.
Qed.

(** C9: the snapshot operation never aborts; its result has exactly the four
    supported chain ids as keys, and under each of them one entry per token
    of the registry, which is an error entry when one of the reads of that
    very token failed and the values read otherwise. *)
Theorem snapshot_isolates_failures (walletAddress : string) (tr : Trace) :
  exists balances evs,
    checkTokenBalancesAcrossChains W walletAddress tr = (Ok balances, evs ++ tr) /\
    Forall is_read evs /\
    dom balances = supported_chains /\
    forall name c table sym address,
      (name, c) ∈ chainIds -> tokenAddresses c = Some table -> (sym, address) ∈ table ->
      exists cd e, balances !! c = Some cd /\ chainName cd = name /\
                   tokens cd !! sym = Some e /\
                   entry_matches W c address walletAddress e evs.
Proof. apply checkTokenBalancesAcrossChains_spec. Qed.

End Snapshot.

(** ** Rules for monitors *)

Section MonitorRules.
Context {S : Type} (mon : Monitor S).

Lemma mwp_ret {A} (a : A) (Q : Res A -> S -> Prop) s : Q (Ok a) s -> mwp mon (ret a) Q s.
Proof. intros HQ tr Hh <-. by split. Qed.

Lemma mwp_throw {A} msg (Q : Res A -> S -> Prop) s :
  Q (Throw msg) s -> mwp mon (throw msg) Q s.
Proof. intros HQ tr Hh <-. by split. Qed.

Lemma mwp_lift {A} (r : Res A) (Q : Res A -> S -> Prop) s : Q r s -> mwp mon (lift r) Q s.
Proof. intros HQ tr Hh <-. by split. Qed.

Lemma mwp_call {A} (ask : nat -> Res A) ev (Q : Res A -> S -> Prop) s :
  (forall r, mon_ok mon s (ev r) /\ Q r (mon_step mon s (ev r))) ->
  mwp mon (call ask ev) Q s.
Proof.
  intros HQ tr Hh <-. unfold call. cbn.
  destruct (HQ (ask (length tr))) as [Hok Hq]. by repeat split.
Qed.

Lemma mwp_bind {A B} (m : M A) (k : A -> M B) (Q : Res B -> S -> Prop) s :
  mwp mon m (fun r s' => match r with
                         | Ok a => mwp mon (k a) Q s'
                         | Throw e => Q (Throw e) s'
                         end) s ->
  mwp mon (bind m k) Q s.
Proof.
  intros Hm tr Hh Hs. destruct (Hm tr Hh Hs) as [Hh' Hk]. unfold bind.
  destruct (m tr) as [[a|e] tr']; cbn in *; [by apply Hk|done].
Qed.

Lemma mwp_try {A} (m : M A) (h : string -> M A) (Q : Res A -> S -> Prop) s :
  mwp mon m (fun r s' => match r with
                         | Ok a => Q (Ok a) s'
                         | Throw e => mwp mon (h e) Q s'
                         end) s ->
  mwp mon (try_catch m h) Q s.
Proof.
  intros Hm tr Hh Hs. destruct (Hm tr Hh Hs) as [Hh' Hk]. unfold try_catch.
  destruct (m tr) as [[a|e] tr']; cbn in *; [done|by apply Hk].
Qed.

Lemma mwp_mono {A} (m : M A) (Q Q' : Res A -> S -> Prop) s :
  mwp mon m Q s -> (forall r s', Q r s' -> Q' r s') -> mwp mon m Q' s.
Proof. intros Hm HQ tr Hh Hs. destruct (Hm tr Hh Hs). split; auto. Qed.

(** Events the monitor ignores in the state it is in leave that state as it
    is. *)
Lemma mon_ignore evs tr (P : Event -> Prop) :
  (forall ev, P ev -> mon_ok mon (mon_state mon tr) ev /\
                      mon_step mon (mon_state mon tr) ev = mon_state mon tr) ->
  Forall P evs ->
  (mon_holds mon tr -> mon_holds mon (evs ++ tr)) /\
  mon_state mon (evs ++ tr) = mon_state mon tr.
Proof.
  intros HP. induction 1 as [|ev evs Hev _ [IHh IHs]]; [done|].
  cbn. rewrite IHs. destruct (HP ev Hev) as [Hok Hstep].
  split; [|done]. intros Hh. by split; [|apply IHh].
Qed.

Lemma mon_holds_suffix later tr : mon_holds mon (later ++ tr) -> mon_holds mon tr.
Proof. induction later as [|ev later IH]; [done|]. intros [_ H]. by apply IH. Qed.

End MonitorRules.

(** One step of symbolic execution under a monitor. *)
Ltac mwp_step :=
  lazymatch goal with
  | |- mwp _ (bind _ _) _ _ => apply mwp_bind
  | |- mwp _ (try_catch _ _) _ _ => apply mwp_try
  | |- mwp _ (ret _) _ _ => apply mwp_ret
  | |- mwp _ (throw _) _ _ => apply mwp_throw
  | |- mwp _ (lift _) _ _ => apply mwp_lift
  | |- mwp _ (call _ _) _ _ => apply mwp_call; intros ?; cbn [mon_ok mon_step]; split
  | |- mwp _ (if ?b then _ else _) _ _ => destruct b eqn:?
  | |- mwp _ (match ?x with _ => _ end) _ _ => destruct x eqn:?
  | |- mwp _ (let _ := _ in _) _ _ => cbv zeta
  | |- match ?x with _ => _ end => destruct x eqn:?
  end.

(** The two monitors against the vocabulary of the statements. *)
Lemma gate_monitor_spec tr armed :
  gate tr = Some armed <->
  mon_holds gate_monitor tr /\ mon_state gate_monitor tr = armed.
Proof.
  revert armed. induction tr as [|ev tr IH]; intros armed; cbn.
  - split; [by intros [= <-]|by intros [_ ->]].
  - destruct (gate tr) as [a|] eqn:Hg.
    + destruct (proj1 (IH a) eq_refl) as [Hh Hs]. rewrite Hs.
      destruct ev; cbn; try (split; [intros [= <-]; by repeat split|by intros [_ ->]]).
      destruct a.
      * split; [intros [= <-]; by repeat split|by intros [_ <-]].
      * split; [done|]. intros [[Harmed _] _]. by specialize (Harmed eq_refl).
    + split; [done|]. intros [[_ Hh] _].
      discriminate (proj2 (IH (mon_state gate_monitor tr)) (conj Hh eq_refl)).
Qed.

Lemma gated_monitor tr : gated tr <-> mon_holds gate_monitor tr.
Proof.
  unfold gated, is_Some. split.
  - intros [armed H]. by apply gate_monitor_spec in H as [H _].
  - intros H. eexists. apply gate_monitor_spec. by split.
Qed.

Lemma exchange_monitor_state tr : mon_state exchange_monitor tr = last_swap tr.
Proof. induction tr as [|ev tr IH]; [done|]. cbn. rewrite IH. by destruct ev. Qed.

Lemma exchange_monitor_holds tr : mon_holds exchange_monitor tr <-> exchanges_ok tr.
Proof.
  induction tr as [|ev tr IH]; [done|]. cbn. rewrite IH, exchange_monitor_state.
  by destruct ev.
Qed.

(** ** The gas-price gate along the bridge cycle *)

Section GatePass.
Import EthereumUtils BridgeService Script.
Variable W : World.

Ltac gate_side :=
  lazymatch goal with
  | |- mon_ok _ _ _ => cbn; try done; try (intros; discriminate)
  | |- _ => cbn [mon_step gate_monitor]
  end.

Lemma checkGasPrice_run c tr :
  checkGasPrice W c tr =
    (Ok (gas_check_of (rpc_getGasPrice W (length tr) c)),
     EvGasPrice c (rpc_getGasPrice W (length tr) c) :: tr).
Proof.
  unfold checkGasPrice, try_catch, bind, call, ret.
  by destruct (rpc_getGasPrice W (length tr) c).
Qed.

Lemma checkGasPrice_gate c (Q : Res GasCheck -> bool -> Prop) s :
  (forall g, Q (Ok g) (isAcceptable g)) ->
  mwp gate_monitor (checkGasPrice W c) Q s.
Proof.
  intros HQ. unfold checkGasPrice.
  mwp_step. mwp_step. mwp_step; [gate_side|].
  destruct r as [p|e]; cbn.
  - mwp_step. apply (HQ (mkGasCheck (p <=? MAX_GAS_PRICE_WEI) (Some p) p)).
  - mwp_step. apply (HQ (mkGasCheck false None 0)).
Qed.

Lemma approveToken_gate wallet token spender options (Q : Res bool -> bool -> Prop) :
  (forall ok s, Q (Ok ok) s) ->
  mwp gate_monitor (approveToken W wallet token spender options) Q true.
Proof.
  intros HQ. unfold approveToken.
  repeat (mwp_step; gate_side); apply HQ.
Qed.

Lemma executeBridgeTransaction_gate walletAddress quote
    (Q : Res BridgeResult -> bool -> Prop) :
  (forall r s, Q r s) ->
  mwp gate_monitor (executeBridgeTransaction W walletAddress quote) Q true.
Proof.
  intros HQ. unfold executeBridgeTransaction.
  repeat (mwp_step; gate_side); apply HQ.
Qed.

(** Computations that neither query the price nor submit anything. *)
Lemma getQuote_gate account receiver from to amount c
    (Q : Res (option QuoteData) -> bool -> Prop) s :
  (forall o, Q (Ok o) s) ->
  mwp gate_monitor (getQuote W account receiver from to amount c) Q s.
Proof.
  intros HQ. unfold getQuote.
  repeat (mwp_step; gate_side); apply HQ.
Qed.

Lemma requestBridgeQuote_gate params (Q : Res BridgeQuote -> bool -> Prop) s :
  (forall r, Q r s) ->
  mwp gate_monitor (requestBridgeQuote W params) Q s.
Proof.
  intros HQ. unfold requestBridgeQuote, RelayService.requestQuote.
  repeat (mwp_step; gate_side); apply HQ.
Qed.

Lemma checkBridgeStatus_gate requestId (Q : Res (option string) -> bool -> Prop) s :
  (forall r, Q r s) ->
  mwp gate_monitor (checkBridgeStatus W requestId) Q s.
Proof.
  intros HQ. unfold checkBridgeStatus.
  repeat (mwp_step; gate_side); apply HQ.
Qed.

Lemma findDestinationChain_gate src (Q : Res Z -> bool -> Prop) s :
  (forall r, Q r s) ->
  mwp gate_monitor (findDestinationChain W src) Q s.
Proof.
  intros HQ. unfold findDestinationChain.
  repeat (mwp_step; gate_side); apply HQ.
Qed.

Lemma snapshot_mwp {S} (mon : Monitor S) walletAddress (Q : Res Balances -> S -> Prop) s :
  (forall ev, is_read ev -> mon_ok mon s ev /\ mon_step mon s ev = s) ->
  (forall balances, Q (Ok balances) s) ->
  mwp mon (checkTokenBalancesAcrossChains W walletAddress) Q s.
Proof.
  intros Hignore HQ tr Hh <-.
  destruct (checkTokenBalancesAcrossChains_spec W walletAddress tr)
    as (balances & evs & -> & Hreads & _).
  destruct (mon_ignore mon evs tr is_read Hignore Hreads) as [Hh' Hs'].
  cbn. rewrite Hs'. split; [by apply Hh'|apply HQ].
Qed.

Lemma gate_ignores_reads s ev :
  is_read ev -> mon_ok gate_monitor s ev /\ mon_step gate_monitor s ev = s.
Proof. by destruct ev. Qed.

(** One call to a function whose behaviour under the gate is known. *)
Ltac gate_call :=
  lazymatch goal with
  | |- mwp _ (checkGasPrice _ _) _ _ =>
      apply checkGasPrice_gate;
      let g := fresh "g" in intros g; destruct (isAcceptable g) eqn:?; cbn [negb]
  | |- mwp _ (approveToken _ _ _ _ _) _ true => apply approveToken_gate; intros ? ?
  | |- mwp _ (executeBridgeTransaction _ _ _) _ true =>
      apply executeBridgeTransaction_gate; intros ? ?
  | |- mwp _ (getQuote _ _ _ _ _ _ _) _ _ => apply getQuote_gate; intros ?
  | |- mwp _ (requestBridgeQuote _ _) _ _ => apply requestBridgeQuote_gate; intros ?
  | |- mwp _ (checkBridgeStatus _ _) _ _ => apply checkBridgeStatus_gate; intros ?
  | |- mwp _ (findDestinationChain _ _) _ _ => apply findDestinationChain_gate; intros ?
  | |- mwp _ (checkTokenBalancesAcrossChains _ _) _ _ =>
      apply snapshot_mwp; [apply gate_ignores_reads|intros ?]
  end.

Ltac gate_run := repeat (first [gate_call | mwp_step]; gate_side).

Lemma executeSwap_gate wallet quoteData gasLimit (Q : Res SwapResult -> bool -> Prop) s :
  (forall r s', Q (Ok r) s') ->
  mwp gate_monitor (executeSwap W wallet quoteData gasLimit) Q s.
Proof.
  intros HQ. unfold executeSwap. gate_run; apply HQ.
Qed.

Lemma bridgeETHForGas_gate walletAddress target (Q : Res bool -> bool -> Prop) s :
  (forall ok s', Q (Ok ok) s') ->
  mwp gate_monitor (bridgeETHForGas W walletAddress target) Q s.
Proof.
  intros HQ. unfold bridgeETHForGas. gate_run; apply HQ.
Qed.

Ltac gate_call2 :=
  lazymatch goal with
  | |- mwp _ (executeSwap _ _ _ _) _ _ => apply executeSwap_gate; intros ? ?
  | |- mwp _ (bridgeETHForGas _ _ _) _ _ => apply bridgeETHForGas_gate; intros ? ?
  | |- _ => gate_call
  end.

Ltac gate_run2 := repeat (first [gate_call2 | mwp_step]; gate_side).

Lemma bridge_after_swap_gate walletAddress config connectedWallet bestToken
    swapTargetSymbol toAmount toToken (Q : Res CycleEnd -> bool -> Prop) s :
  (forall r s', Q r s') ->
  mwp gate_monitor
    (bridge_after_swap W walletAddress config connectedWallet bestToken
       swapTargetSymbol toAmount toToken) Q s.
Proof.
  intros HQ. unfold bridge_after_swap. gate_run2; apply HQ.
Qed.

Lemma swap_and_bridge_gate walletAddress config connectedWallet bestToken
    swapTargetSymbol swapQuote tx ethBalance (Q : Res CycleEnd -> bool -> Prop) s :
  (forall r s', Q r s') ->
  mwp gate_monitor
    (swap_and_bridge W walletAddress config connectedWallet bestToken
       swapTargetSymbol swapQuote tx ethBalance) Q s.
Proof.
  intros HQ. unfold swap_and_bridge.
  repeat (first [apply bridge_after_swap_gate; intros ? ? | gate_call2 | mwp_step]; gate_side);
    apply HQ.
Qed.

Lemma gas_guard_gate walletAddress src ethBalance
    (Q : Res (option CycleEnd) -> bool -> Prop) s :
  (forall r s', Q r s') ->
  mwp gate_monitor (gas_guard W walletAddress src ethBalance) Q s.
Proof.
  intros HQ. unfold gas_guard. gate_run2; apply HQ.
Qed.

Lemma executeBridgeCycle_gate walletAddress config (Q : Res CycleEnd -> bool -> Prop) s :
  (forall r s', Q r s') ->
  mwp gate_monitor (executeBridgeCycle W walletAddress config) Q s.
Proof.
  intros HQ. unfold executeBridgeCycle.
  repeat (first [ apply swap_and_bridge_gate; intros ? ?
                | apply gas_guard_gate; intros ? ?
                | gate_call2 | mwp_step ]; gate_side);
    apply HQ.
Qed.

(** A run that starts from the empty trace is gated. *)
Lemma gated_from_start {A} (m : M A) :
  (forall Q s, (forall r s', Q r s') -> mwp gate_monitor m Q s) ->
  gated (m []).2.
Proof.
  intros Hm. apply gated_monitor.
  by destruct (Hm (fun _ _ => True) false (fun _ _ => I) [] I eq_refl).
Qed.

End GatePass.

(** ** Rejected checks end the run *)

Section AbortPass.
Import EthereumUtils BridgeService Script.
Variable W : World.

Ltac a_side :=
  lazymatch goal with
  | |- mon_ok _ _ _ => cbn; try done; try (intros; discriminate)
  | |- _ => cbn [mon_step abort_monitor]
  end.

Lemma abort_ignores_reads ev :
  is_read ev -> mon_ok abort_monitor false ev /\ mon_step abort_monitor false ev = false.
Proof. by destruct ev. Qed.

Lemma checkGasPrice_abort c (Q : Res GasCheck -> bool -> Prop) s :
  (forall g, Q (Ok g) (negb (isAcceptable g))) ->
  mwp abort_monitor (checkGasPrice W c) Q s.
Proof.
  intros HQ. unfold checkGasPrice.
  mwp_step. mwp_step. mwp_step; [a_side|].
  destruct r as [p|e]; cbn.
  - mwp_step. apply (HQ (mkGasCheck (p <=? MAX_GAS_PRICE_WEI) (Some p) p)).
  - mwp_step. apply (HQ (mkGasCheck false None 0)).
Qed.

Lemma approveToken_abort wallet token spender options (Q : Res bool -> bool -> Prop) :
  (forall ok, Q (Ok ok) false) ->
  mwp abort_monitor (approveToken W wallet token spender options) Q false.
Proof. intros HQ. unfold approveToken. repeat (mwp_step; a_side); apply HQ. Qed.

Lemma executeBridgeTransaction_abort walletAddress quote
    (Q : Res BridgeResult -> bool -> Prop) :
  (forall r, Q r false) ->
  mwp abort_monitor (executeBridgeTransaction W walletAddress quote) Q false.
Proof.
  intros HQ. unfold executeBridgeTransaction. repeat (mwp_step; a_side); apply HQ.
Qed.

Lemma getQuote_abort account receiver from to amount c
    (Q : Res (option QuoteData) -> bool -> Prop) :
  (forall o, Q (Ok o) false) ->
  mwp abort_monitor (getQuote W account receiver from to amount c) Q false.
Proof. intros HQ. unfold getQuote. repeat (mwp_step; a_side); apply HQ. Qed.

Lemma requestBridgeQuote_abort params (Q : Res BridgeQuote -> bool -> Prop) :
  (forall r, Q r false) ->
  mwp abort_monitor (requestBridgeQuote W params) Q false.
Proof.
  intros HQ. unfold requestBridgeQuote, RelayService.requestQuote.
  repeat (mwp_step; a_side); apply HQ.
Qed.

Lemma checkBridgeStatus_abort requestId (Q : Res (option string) -> bool -> Prop) :
  (forall r, Q r false) ->
  mwp abort_monitor (checkBridgeStatus W requestId) Q false.
Proof. intros HQ. unfold checkBridgeStatus. repeat (mwp_step; a_side); apply HQ. Qed.

Lemma findDestinationChain_abort src (Q : Res Z -> bool -> Prop) :
  (forall r, Q r false) ->
  mwp abort_monitor (findDestinationChain W src) Q false.
Proof. intros HQ. unfold findDestinationChain. repeat (mwp_step; a_side); apply HQ. Qed.

Ltac a_call :=
  lazymatch goal with
  | |- mwp _ (checkGasPrice _ _) _ _ =>
      apply checkGasPrice_abort;
      let g := fresh "g" in intros g; destruct (isAcceptable g) eqn:?; cbn [negb]
  | |- mwp _ (approveToken _ _ _ _ _) _ false => apply approveToken_abort; intros ?
  | |- mwp _ (executeBridgeTransaction _ _ _) _ false =>
      apply executeBridgeTransaction_abort; intros ?
  | |- mwp _ (getQuote _ _ _ _ _ _ _) _ false => apply getQuote_abort; intros ?
  | |- mwp _ (requestBridgeQuote _ _) _ false => apply requestBridgeQuote_abort; intros ?
  | |- mwp _ (checkBridgeStatus _ _) _ false => apply checkBridgeStatus_abort; intros ?
  | |- mwp _ (findDestinationChain _ _) _ false =>
      apply findDestinationChain_abort; intros ?
  | |- mwp _ (checkTokenBalancesAcrossChains _ _) _ false =>
      apply snapshot_mwp; [apply abort_ignores_reads|intros ?]
  end.

(** [executeSwap] starts with its own check, so it may follow a query that
    did not pass; when it reports success nothing is pending. *)
Lemma executeSwap_abort wallet quoteData gasLimit (Q : Res SwapResult -> bool -> Prop) s :
  (forall e s', Q (Ok (SwapFailed e)) s') ->
  (forall blockNumber toAmount toToken, Q (Ok (SwapDone blockNumber toAmount toToken)) false) ->
  mwp abort_monitor (executeSwap W wallet quoteData gasLimit) Q s.
Proof.
  intros HQ1 HQ2. unfold executeSwap.
  repeat (first [a_call | mwp_step]; a_side); first [apply HQ1 | apply HQ2].
Qed.

Lemma bridgeETHForGas_abort walletAddress target (Q : Res bool -> bool -> Prop) s :
  (forall s', Q (Ok false) s') -> Q (Ok true) false ->
  mwp abort_monitor (bridgeETHForGas W walletAddress target) Q s.
Proof.
  intros HQ1 HQ2. unfold bridgeETHForGas.
  repeat (first [a_call | mwp_step]; a_side); first [apply HQ1 | apply HQ2].
Qed.

Lemma gas_guard_abort walletAddress src ethBalance
    (Q : Res (option CycleEnd) -> bool -> Prop) :
  Q (Ok None) false -> (forall e s', Q (Ok (Some e)) s') -> (forall e s', Q (Throw e) s') ->
  mwp abort_monitor (gas_guard W walletAddress src ethBalance) Q false.
Proof.
  intros HQ1 HQ2 HQ3. unfold gas_guard.
  repeat (first [ apply bridgeETHForGas_abort; [intros ?|] | a_call | mwp_step ]; a_side);
    first [apply HQ1 | apply HQ2 | apply HQ3].
Qed.

Lemma bridge_after_swap_abort walletAddress config connectedWallet bestToken
    swapTargetSymbol toAmount toToken (Q : Res CycleEnd -> bool -> Prop) :
  (forall r s', Q r s') ->
  mwp abort_monitor
    (bridge_after_swap W walletAddress config connectedWallet bestToken
       swapTargetSymbol toAmount toToken) Q false.
Proof.
  intros HQ. unfold bridge_after_swap.
  repeat (first [a_call | mwp_step]; a_side); apply HQ.
Qed.

Lemma swap_and_bridge_abort walletAddress config connectedWallet bestToken
    swapTargetSymbol swapQuote tx ethBalance (Q : Res CycleEnd -> bool -> Prop) :
  (forall r s', Q r s') ->
  mwp abort_monitor
    (swap_and_bridge W walletAddress config connectedWallet bestToken
       swapTargetSymbol swapQuote tx ethBalance) Q false.
Proof.
  intros HQ. unfold swap_and_bridge.
  repeat (first [ apply executeSwap_abort; [intros ? ?|intros ? ? ?]
                | apply bridge_after_swap_abort; intros ? ?
                | a_call | mwp_step ]; a_side);
    apply HQ.
Qed.

Lemma executeBridgeCycle_abort walletAddress config (Q : Res CycleEnd -> bool -> Prop) :
  (forall r s', Q r s') ->
  mwp abort_monitor (executeBridgeCycle W walletAddress config) Q false.
Proof.
  intros HQ. unfold executeBridgeCycle.
  repeat (first [ apply swap_and_bridge_abort; intros ? ?
                | apply gas_guard_abort; [|intros ? ?|intros ? ?]
                | a_call | mwp_step ]; a_side);
    apply HQ.
Qed.

Lemma abort_monitor_spec tr : mon_holds abort_monitor tr -> ends_after_rejected_check tr.
Proof.
  intros Hh later c r earlier -> Hbad.
  destruct later as [|ev later _] using rev_ind; [by left|]. right.
  rewrite <- app_assoc in Hh. apply mon_holds_suffix in Hh.
  destruct Hh as [Hok _]. cbn in Hok. rewrite Hbad in Hok.
  specialize (Hok eq_refl). destruct ev; try done. eauto.
Qed.

(** A run that starts from the empty trace ends after a rejected check. *)
Lemma aborts_from_start {A} (m : M A) :
  (forall Q, (forall r s', Q r s') -> mwp abort_monitor m Q false) ->
  ends_after_rejected_check (m []).2.
Proof.
  intros Hm. apply abort_monitor_spec.
  by destruct (Hm (fun _ _ => True) (fun _ _ => I) [] I eq_refl).
Qed.

End AbortPass.

(** ** What the checks guarantee *)

Section GasClaims.
Import EthereumUtils Script.
Variable W : World.

(** The three properties of a run under a reading [bad] of "the check did
    not pass". *)
Lemma run_is_checked {A} (m : M A) :
  (forall Q s, (forall r s', Q r s') -> mwp gate_monitor m Q s) ->
  (forall Q, (forall r s', Q r s') -> mwp abort_monitor m Q false) ->
  every_submission_checked (m []).2 /\
  no_submit_after too_high (m []).2 /\
  no_submit_after failed (m []).2 /\
  ends_after_rejected_check (m []).2.
Proof.
  intros Hgate Habort.
  pose proof (gated_from_start m Hgate) as Hg.
  split; [by apply gated_checked|].
  split; [by apply gated_no_submit_after; [apply too_high_not_ok|]|].
  split; [by apply gated_no_submit_after; [apply failed_not_ok|]|].
  by apply aborts_from_start.
Qed.

Lemma cycle_is_checked walletAddress config :
  let tr := (executeBridgeCycle W walletAddress config []).2 in
  every_submission_checked tr /\ no_submit_after too_high tr /\
  no_submit_after failed tr /\ ends_after_rejected_check tr.
Proof.
  apply run_is_checked; intros.
  - by apply executeBridgeCycle_gate.
  - by apply executeBridgeCycle_abort.
Qed.

Lemma rescue_is_checked walletAddress target :
  let tr := (bridgeETHForGas W walletAddress target []).2 in
  every_submission_checked tr /\ no_submit_after too_high tr /\
  no_submit_after failed tr /\ ends_after_rejected_check tr.
Proof.
  apply run_is_checked; intros.
  - by apply bridgeETHForGas_gate.
  - by apply bridgeETHForGas_abort.
Qed.

Lemma swap_is_checked wallet quoteData gasLimit :
  let tr := (executeSwap W wallet quoteData gasLimit []).2 in
  every_submission_checked tr /\ no_submit_after too_high tr /\
  no_submit_after failed tr /\ ends_after_rejected_check tr.
Proof.
  apply run_is_checked; intros.
  - by apply executeSwap_gate.
  - by apply executeSwap_abort.
Qed.

(** C5: in every run of the bridge cycle, of the gas rescue and of the swap
    execution, each submitted transaction (approval, swap, wrap, bridge)
    comes right after a gas-price query of its own that returned at most
    0.1 gwei; after a query that returned more, nothing is submitted until
    the price is queried again, and a query that does not pass is the last
    thing the run does unless another query follows at once. *)
Theorem writes_are_gated_by_gas_price (walletAddress : string) (config : Config)
    (target : Z) (wallet : ConnectedWallet) (quoteData : QuoteData)
    (gasLimit : option Z) :
  let cycle := (executeBridgeCycle W walletAddress config []).2 in
  let rescue := (bridgeETHForGas W walletAddress target []).2 in
  let swap := (executeSwap W wallet quoteData gasLimit []).2 in
  (every_submission_checked cycle /\ no_submit_after too_high cycle /\
   ends_after_rejected_check cycle) /\
  (every_submission_checked rescue /\ no_submit_after too_high rescue /\
   ends_after_rejected_check rescue) /\
  (every_submission_checked swap /\ no_submit_after too_high swap /\
   ends_after_rejected_check swap).
Proof.
  cbv zeta.
  destruct (cycle_is_checked walletAddress config) as (? & ? & _ & ?).
  destruct (rescue_is_checked walletAddress target) as (? & ? & _ & ?).
  destruct (swap_is_checked wallet quoteData gasLimit) as (? & ? & _ & ?).
  by repeat split.
Qed.

(** C10: [checkGasPrice] never throws; when the price query fails it
    answers [isAcceptable = false] with a zero price; and in every run of the
    bridge cycle, of the gas rescue and of the swap execution nothing is
    submitted after a failed query until the price is queried again, the
    failed query being the last thing the run does unless another query
    follows at once. *)
Theorem failed_price_query_fails_closed (walletAddress : string) (config : Config)
    (target : Z) (wallet : ConnectedWallet) (quoteData : QuoteData)
    (gasLimit : option Z) (provider : Z) (tr : Trace) :
  let r := rpc_getGasPrice W (length tr) provider in
  let cycle := (executeBridgeCycle W walletAddress config []).2 in
  let rescue := (bridgeETHForGas W walletAddress target []).2 in
  let swap := (executeSwap W wallet quoteData gasLimit []).2 in
  (exists g, checkGasPrice W provider tr = (Ok g, EvGasPrice provider r :: tr) /\
             (failed r -> g = mkGasCheck false None 0)) /\
  (no_submit_after failed cycle /\ ends_after_rejected_check cycle) /\
  (no_submit_after failed rescue /\ ends_after_rejected_check rescue) /\
  (no_submit_after failed swap /\ ends_after_rejected_check swap).
Proof.
  cbv zeta. split.
  - exists (gas_check_of (rpc_getGasPrice W (length tr) provider)).
    split; [apply checkGasPrice_run|]. by intros [msg ->].
  - destruct (cycle_is_checked walletAddress config) as (_ & _ & ? & ?).
    destruct (rescue_is_checked walletAddress target) as (_ & _ & ? & ?).
    destruct (swap_is_checked wallet quoteData gasLimit) as (_ & _ & ? & ?).
    by repeat split.
Qed.

End GasClaims.

(** ** Swap and bridge requests along the bridge cycle *)

Section ExchangePass.
Import EthereumUtils BridgeService Script.
Variable W : World.

Ltac x_side :=
  lazymatch goal with
  | |- mon_ok _ _ _ => cbn; try done
  | |- _ => cbn [mon_step exchange_monitor]
  end.

Lemma exchange_ignores_reads (s : XState) ev :
  is_read ev -> mon_ok exchange_monitor s ev /\ mon_step exchange_monitor s ev = s.
Proof. by destruct ev. Qed.

(** Computations that talk neither to 1inch nor to Relay. *)
Lemma checkGasPrice_exchange c (Q : Res GasCheck -> XState -> Prop) s :
  (forall g, Q (Ok g) s) -> mwp exchange_monitor (checkGasPrice W c) Q s.
Proof. intros HQ. unfold checkGasPrice. repeat (mwp_step; x_side); apply HQ. Qed.

Lemma approveToken_exchange wallet token spender options
    (Q : Res bool -> XState -> Prop) s :
  (forall ok, Q (Ok ok) s) ->
  mwp exchange_monitor (approveToken W wallet token spender options) Q s.
Proof. intros HQ. unfold approveToken. repeat (mwp_step; x_side); apply HQ. Qed.

Lemma executeBridgeTransaction_exchange walletAddress quote
    (Q : Res BridgeResult -> XState -> Prop) s :
  (forall r, Q r s) ->
  mwp exchange_monitor (executeBridgeTransaction W walletAddress quote) Q s.
Proof.
  intros HQ. unfold executeBridgeTransaction. repeat (mwp_step; x_side); apply HQ.
Qed.

Lemma checkBridgeStatus_exchange requestId (Q : Res (option string) -> XState -> Prop) s :
  (forall r, Q r s) -> mwp exchange_monitor (checkBridgeStatus W requestId) Q s.
Proof. intros HQ. unfold checkBridgeStatus. repeat (mwp_step; x_side); apply HQ. Qed.

Lemma findDestinationChain_exchange src (Q : Res Z -> XState -> Prop) s :
  (forall r, Q r s) -> mwp exchange_monitor (findDestinationChain W src) Q s.
Proof. intros HQ. unfold findDestinationChain. repeat (mwp_step; x_side); apply HQ. Qed.

(** The two exchanges. *)
Lemma getQuote_exchange account receiver from to amount c
    (Q : Res (option QuoteData) -> XState -> Prop) s :
  let params := mkSwapParams c from to amount account receiver in
  swap_request_ok params ->
  (forall resp, Q (Ok (quote_of resp)) (Some (params, resp))) ->
  mwp exchange_monitor (getQuote W account receiver from to amount c) Q s.
Proof.
  intros params Hok HQ. unfold getQuote.
  mwp_step. cbv zeta. mwp_step. mwp_step; [done|]. cbn [mon_step exchange_monitor].
  destruct r as [data|e]; repeat mwp_step.
  - apply (HQ (Ok data)).
  - apply (HQ (Throw e)).
Qed.

Lemma requestBridgeQuote_exchange params (Q : Res BridgeQuote -> XState -> Prop) s :
  origin_agrees s (bp_originChainId params) (bp_tokenAddress params) ->
  (forall r, Q r s) ->
  mwp exchange_monitor (requestBridgeQuote W params) Q s.
Proof.
  intros Hok HQ. unfold requestBridgeQuote, RelayService.requestQuote.
  repeat (mwp_step; x_side); apply HQ.
Qed.

Lemma executeSwap_exchange wallet quoteData gasLimit
    (Q : Res SwapResult -> XState -> Prop) s :
  (forall e, Q (Ok (SwapFailed e)) s) ->
  (forall blockNumber,
     Q (Ok (SwapDone blockNumber (standard_toAmount quoteData)
              (standard_toToken quoteData))) s) ->
  mwp exchange_monitor (executeSwap W wallet quoteData gasLimit) Q s.
Proof.
  intros HQ1 HQ2. unfold executeSwap.
  repeat (first [apply checkGasPrice_exchange; intros ? | mwp_step]; x_side);
    first [apply HQ1 | apply HQ2].
Qed.

Ltac x_call :=
  lazymatch goal with
  | |- mwp _ (checkGasPrice _ _) _ _ => apply checkGasPrice_exchange; intros ?
  | |- mwp _ (approveToken _ _ _ _ _) _ _ => apply approveToken_exchange; intros ?
  | |- mwp _ (executeBridgeTransaction _ _ _) _ _ =>
      apply executeBridgeTransaction_exchange; intros ?
  | |- mwp _ (checkBridgeStatus _ _) _ _ => apply checkBridgeStatus_exchange; intros ?
  | |- mwp _ (findDestinationChain _ _) _ _ =>
      apply findDestinationChain_exchange; intros ?
  | |- mwp _ (checkTokenBalancesAcrossChains _ _) _ _ =>
      apply snapshot_mwp; [apply exchange_ignores_reads|intros ?]
  end.

Lemma base_weth : Registry.tokenAddress BASE (Some "WETH") = Ok (Some WETH_Base).
Proof. reflexivity. Qed.

(** Before any swap, the gas rescue asks Relay for WETH of Base only. *)
Lemma bridgeETHForGas_exchange walletAddress target (Q : Res bool -> XState -> Prop) :
  (forall ok, Q (Ok ok) None) ->
  mwp exchange_monitor (bridgeETHForGas W walletAddress target) Q None.
Proof.
  intros HQ. unfold bridgeETHForGas. rewrite base_weth.
  repeat (first [ apply requestBridgeQuote_exchange; [done|intros ?]
                | x_call | mwp_step ]; x_side);
    apply HQ.
Qed.

Lemma gas_guard_exchange walletAddress src ethBalance
    (Q : Res (option CycleEnd) -> XState -> Prop) :
  (forall r, Q r None) ->
  mwp exchange_monitor (gas_guard W walletAddress src ethBalance) Q None.
Proof.
  intros HQ. unfold gas_guard.
  repeat (first [ apply bridgeETHForGas_exchange; intros ? | x_call | mwp_step ]; x_side);
    apply HQ.
Qed.

(** After the swap, the bridge is asked for the token the swap produced,
    with the zero address replaced. *)
Lemma fix_toToken_address src swapTargetSymbol toToken fixed :
  fix_toToken src swapTargetSymbol toToken = Ok fixed ->
  if bool_decide (out_address toToken = Some ZERO_ADDRESS)
  then Registry.tokenAddress src swapTargetSymbol = Ok (out_address fixed) /\
       out_symbol fixed = swapTargetSymbol
  else fixed = toToken.
Proof.
  unfold fix_toToken. case_bool_decide; [|by intros [= <-]].
  destruct (Registry.tokenAddress src swapTargetSymbol); [|done]. by intros [= <-].
Qed.

Lemma bridge_after_swap_exchange walletAddress config connectedWallet bestToken
    swapTargetSymbol toAmount toToken asked resp (Q : Res CycleEnd -> XState -> Prop) :
  sourceChainId bestToken = sp_chainId asked ->
  Registry.tokenAddress (sourceChainId bestToken) swapTargetSymbol = Ok (sp_dst asked) ->
  reported_address resp = out_address toToken ->
  (forall r, Q r (Some (asked, resp))) ->
  mwp exchange_monitor
    (bridge_after_swap W walletAddress config connectedWallet bestToken
       swapTargetSymbol toAmount toToken) Q (Some (asked, resp)).
Proof.
  intros Hsrc Hdst Hrep HQ. unfold bridge_after_swap.
  mwp_step. x_call. destruct r as [destinationChainId|e]; [|apply HQ].
  mwp_step. mwp_step.
  destruct (fix_toToken _ _ _) as [fixed|e] eqn:Hfix; [|apply HQ].
  apply fix_toToken_address in Hfix.
  mwp_step. mwp_step. mwp_step; [|apply HQ].
  mwp_step. apply requestBridgeQuote_exchange.
  { cbn. split; [done|]. rewrite Hrep.
    case_bool_decide; [|by subst].
    destruct Hfix as [Hfix _]. congruence. }
  intros r.
  repeat (first [x_call | mwp_step]; x_side); apply HQ.
Qed.

Lemma swap_and_bridge_exchange walletAddress config connectedWallet bestToken
    swapTargetSymbol swapQuote tx ethBalance asked resp
    (Q : Res CycleEnd -> XState -> Prop) :
  sourceChainId bestToken = sp_chainId asked ->
  Registry.tokenAddress (sourceChainId bestToken) swapTargetSymbol = Ok (sp_dst asked) ->
  reported_address resp = out_address (standard_toToken swapQuote) ->
  (forall r, Q r (Some (asked, resp))) ->
  mwp exchange_monitor
    (swap_and_bridge W walletAddress config connectedWallet bestToken
       swapTargetSymbol swapQuote tx ethBalance) Q (Some (asked, resp)).
Proof.
  intros Hsrc Hdst Hrep HQ. unfold swap_and_bridge.
  repeat (first [ apply executeSwap_exchange; [intros ?|intros ?]
                | apply bridge_after_swap_exchange; [done|done|done|intros ?]
                | x_call | mwp_step ]; x_side);
    apply HQ.
Qed.

Lemma findBestTokenToBridge_symbol balances bestToken :
  findBestTokenToBridge balances = Ok bestToken ->
  symbol bestToken = "WETH" \/ symbol bestToken = "USDC".
Proof.
  unfold findBestTokenToBridge, findTokenBalanceOnChains.
  repeat (case_match; try done); intros [= <-]; simplify_eq; cbn; auto.
Qed.

Lemma check_amount_toToken q q' :
  check_amount q = Ok q' -> standard_toToken q' = standard_toToken q.
Proof. unfold check_amount. repeat case_match; by intros [= <-]. Qed.

Lemma executeBridgeCycle_exchange walletAddress config (Q : Res CycleEnd -> XState -> Prop) :
  (forall r s, Q r s) ->
  mwp exchange_monitor (executeBridgeCycle W walletAddress config) Q None.
Proof.
  intros HQ. unfold executeBridgeCycle.
  mwp_step. x_call. mwp_step. mwp_step.
  destruct (findBestTokenToBridge balances) as [bestToken|e] eqn:Hbest; [|apply HQ].
  apply findBestTokenToBridge_symbol in Hbest.
  mwp_step. mwp_step. mwp_step; [|apply HQ].
  mwp_step; [mwp_step; apply HQ|].
  cbv zeta. mwp_step. x_call. mwp_step; [mwp_step; apply HQ|].
  mwp_step. mwp_step; [done|]. x_side. mwp_step; [|apply HQ].
  mwp_step. apply gas_guard_exchange. intros stop.
  destruct stop as [[stop|]|e]; [mwp_step; apply HQ| |apply HQ].
  mwp_step. mwp_step.
  destruct (Registry.tokenAddress _ _) as [swapTargetAddress|e] eqn:Hdst; [|apply HQ].
  mwp_step. apply getQuote_exchange.
  { destruct Hbest as [Hsym | Hsym]; rewrite Hsym in Hdst; cbn in Hdst;
      eexists; (split; [|exact Hdst]); auto. }
  intros resp.
  destruct (quote_of resp) as [swapQuote|] eqn:Hquote; [|mwp_step; apply HQ].
  assert (Hrep : reported_address resp = out_address (standard_toToken swapQuote)).
  { destruct resp as [[q|]|]; try done. cbn in Hquote. by injection Hquote as <-. }
  mwp_step; [|mwp_step; apply HQ].
  mwp_step. mwp_step.
  destruct (check_amount swapQuote) as [checked|e] eqn:Hchecked; [|apply HQ].
  apply check_amount_toToken in Hchecked.
  repeat (first [ apply swap_and_bridge_exchange; [done|done|congruence|intros ?]
                | x_call | mwp_step ]; x_side);
    apply HQ.
Qed.

(** What the monitor gives for a particular request of a trace. *)
Lemma exchanges_ok_suffix later tr : exchanges_ok (later ++ tr) -> exchanges_ok tr.
Proof. induction later as [|ev later IH]; [done|]. intros [_ H]. by apply IH. Qed.

Lemma exchanges_ok_last_swap tr asked resp :
  exchanges_ok tr -> last_swap tr = Some (asked, resp) -> swap_request_ok asked.
Proof.
  induction tr as [|ev tr IH]; [done|]. intros [Hev Htr].
  destruct ev; cbn; try (by apply IH). by intros [= <- <-].
Qed.

Lemma registry_address_not_zero c target address :
  target = "WETH" \/ target = "USDC" ->
  Registry.tokenAddress c (Some target) = Ok address ->
  address <> Some ZERO_ADDRESS.
Proof.
  unfold Registry.tokenAddress, tokenAddresses.
  intros [-> | ->]; repeat case_match; try done; simplify_eq; cbn; by intros [= <-].
Qed.

Lemma executeBridgeCycle_exchanges_ok walletAddress config :
  exchanges_ok (executeBridgeCycle W walletAddress config []).2.
Proof.
  apply exchange_monitor_holds.
  by destruct (executeBridgeCycle_exchange walletAddress config (fun _ _ => True)
                 (fun _ _ => I) [] I eq_refl).
Qed.

End ExchangePass.
Section ZeroAddress.
Import Script.

(** C8: in every run of the bridge cycle, a Relay quote request that follows
    a swap whose response reported the zero address as output token has, as
    origin currency, the destination token that was asked of 1inch, which is
    the registry address of the swap target on the source chain and not the
    zero address; the token record handed on carries that address and the
    symbol of the swap target. *)
Theorem zero_address_is_replaced (W : World) (walletAddress : string) (config : Config)
    (later earlier : Trace) (p : RelayQuoteParams) (r : Res (Z * BridgeQuote))
    (asked : SwapParams) (resp : Res (option QuoteData)) :
  (executeBridgeCycle W walletAddress config []).2 = later ++ EvRelayQuote p r :: earlier ->
  last_swap earlier = Some (asked, resp) ->
  reported_address resp = Some ZERO_ADDRESS ->
  exists target,
    (target = "WETH" \/ target = "USDC") /\
    Registry.tokenAddress (sp_chainId asked) (Some target) = Ok (sp_dst asked) /\
    rq_originChainId p = sp_chainId asked /\
    rq_originCurrency p = sp_dst asked /\
    rq_originCurrency p <> Some ZERO_ADDRESS /\
    forall sym decimals,
      fix_toToken (sp_chainId asked) (Some target)
        (mkOutToken (Some ZERO_ADDRESS) sym decimals) =
      Ok (mkOutToken (sp_dst asked) (Some target) decimals).
Proof.
  intros Htrace Hswap Hzero.
  pose proof (executeBridgeCycle_exchanges_ok W walletAddress config) as Hok.
  rewrite Htrace in Hok. apply exchanges_ok_suffix in Hok. destruct Hok as [Hreq Hearlier].
  unfold origin_ok, origin_agrees in Hreq. rewrite Hswap in Hreq.
  rewrite bool_decide_eq_true_2 in Hreq by done. destruct Hreq as [Hchain Hcur].
  destruct (exchanges_ok_last_swap _ _ _ Hearlier Hswap) as (target & Htarget & Hdst).
  exists target. repeat split; try done.
  - rewrite Hcur. by eapply registry_address_not_zero.
  - intros sym decimals. unfold fix_toToken. cbn [out_address out_decimals].
    rewrite bool_decide_eq_true_2 by done. by rewrite Hdst.
Qed.

Lemma zero_address_is_replaced_witness :
  calm_trace = take 8 calm_trace ++
               EvRelayQuote calm_relay_request (Ok (200, relay_answer)) ::
               drop 9 calm_trace /\
  last_swap (drop 9 calm_trace) = Some (calm_swap_request, Ok (Some oneinch_answer)) /\
  reported_address (Ok (Some oneinch_answer)) = Some ZERO_ADDRESS /\
  exists target,
    (target = "WETH" \/ target = "USDC") /\
    Registry.tokenAddress (sp_chainId calm_swap_request) (Some target) =
      Ok (sp_dst calm_swap_request) /\
    rq_originChainId calm_relay_request = sp_chainId calm_swap_request /\
    rq_originCurrency calm_relay_request = sp_dst calm_swap_request /\
    rq_originCurrency calm_relay_request <> Some ZERO_ADDRESS /\
    forall sym decimals,
      fix_toToken (sp_chainId calm_swap_request) (Some target)
        (mkOutToken (Some ZERO_ADDRESS) sym decimals) =
      Ok (mkOutToken (sp_dst calm_swap_request) (Some target) decimals).
Proof.
  assert (H1 : calm_trace = take 8 calm_trace ++
                 EvRelayQuote calm_relay_request (Ok (200, relay_answer)) ::
                 drop 9 calm_trace) by (vm_compute; reflexivity).
  assert (H2 : last_swap (drop 9 calm_trace) =
                 Some (calm_swap_request, Ok (Some oneinch_answer)))
    by (vm_compute; reflexivity).
  assert (H3 : reported_address (Ok (Some oneinch_answer)) = Some ZERO_ADDRESS)
    by reflexivity.
  split; [exact H1|]. split; [exact H2|]. split; [exact H3|].
  exact (zero_address_is_replaced calm_world calm_wallet (mkConfig None)
           (take 8 calm_trace) (drop 9 calm_trace) calm_relay_request
           (Ok (200, relay_answer)) calm_swap_request (Ok (Some oneinch_answer))
           H1 H2 H3).
Defined.

End ZeroAddress.

(** ** Gas rescue *)

Section Rescue.
Import Script.

(** C6: when the native balance of the wallet on Base is below the rescue
    amount plus the fee allowance (0.001 + 0.0005 ETH), [bridgeETHForGas]
    answers [false] after at most a price query and a balance query on
    Base, and submits nothing. *)
Theorem rescue_abandoned_on_low_reserve (W : World) (walletAddress : string)
    (target : Z) (tr : Trace) :
  (forall t b, rpc_getBalance W t BASE walletAddress = Ok b ->
               b < GAS_BRIDGE_AMOUNT + GAS_RESERVE) ->
  exists evs,
    bridgeETHForGas W walletAddress target tr = (Ok false, evs ++ tr) /\
    submissions evs = [] /\
    Forall (fun ev => (exists r, ev = EvGasPrice BASE r) \/
                      (exists r, ev = EvGetBalance BASE walletAddress r)) evs.
Proof.
  intros Hlow. unfold bridgeETHForGas, try_catch. unfold bind at 1.
  rewrite checkGasPrice_run.
  set (price := rpc_getGasPrice W (length tr) BASE).
  destruct (isAcceptable (gas_check_of price)) eqn:Hacc; cbn [negb].
  - unfold bind at 1. unfold call at 1. cbn [length].
    destruct (rpc_getBalance W (S (length tr)) BASE walletAddress) as [b|e] eqn:Hb.
    + specialize (Hlow _ _ Hb). rewrite (proj2 (Z.ltb_lt _ _) Hlow).
      eexists [_; _]. split; [reflexivity|]. split; [done|].
      constructor; [right; eauto|]. constructor; [left; eauto|constructor].
    + eexists [_; _]. split; [reflexivity|]. split; [done|].
      constructor; [right; eauto|]. constructor; [left; eauto|constructor].
  - eexists [_]. split; [reflexivity|]. split; [done|].
    constructor; [left; eauto|constructor].
Qed.

Lemma rescue_abandoned_on_low_reserve_witness :
  (forall t b, rpc_getBalance low_reserve_world t BASE calm_wallet = Ok b ->
               b < GAS_BRIDGE_AMOUNT + GAS_RESERVE) /\
  exists evs,
    bridgeETHForGas low_reserve_world calm_wallet 42161 [] = (Ok false, evs ++ []) /\
    submissions evs = [] /\
    Forall (fun ev => (exists r, ev = EvGasPrice BASE r) \/
                      (exists r, ev = EvGetBalance BASE calm_wallet r)) evs.
Proof.
  assert (H : forall t b, rpc_getBalance low_reserve_world t BASE calm_wallet = Ok b ->
                          b < GAS_BRIDGE_AMOUNT + GAS_RESERVE)
    by (intros t b [= <-]; reflexivity).
  split; [exact H|].
  exact (rescue_abandoned_on_low_reserve low_reserve_world calm_wallet 42161 [] H).
Defined.

(** Scenario C end to end: the cycle picks WETH on Arbitrum, finds too
    little gas there, fails to rescue from Base and returns without having
    submitted anything. *)
Lemma scenario_low_reserve :
  let run := executeBridgeCycle low_reserve_world calm_wallet (mkConfig None) [] in
  run.1 = Ok SkippedGasBridgeFailed /\ submissions run.2 = [].
Proof. by vm_compute. Qed.

(** In [calm_world] the cycle completes and submits four transactions:
    approval, swap, approval, bridge. *)
Lemma scenario_calm :
  let run := executeBridgeCycle calm_world calm_wallet (mkConfig None) [] in
  run.1 = Ok Completed /\ length (submissions run.2) = 4%nat.
Proof. by vm_compute. Qed.

End Rescue.

(** ** No qualifying balance *)

Section NoToken.
Import Script.

Lemma findBestTokenToBridge_none balances :
  none_qualifies "WETH" balances -> none_qualifies "USDC" balances ->
  findBestTokenToBridge balances = Throw NO_BALANCE.
Proof.
  intros Hw Hu. unfold findBestTokenToBridge.
  by rewrite !findTokenBalanceOnChains_none.
Qed.

(** Whatever the world, a snapshot without a qualifying balance makes the
    cycle end with the exception of the selection, which [main] logs. *)
Lemma executeBridgeCycle_no_token (W : World) walletAddress config tr balances tr1 :
  BridgeService.checkTokenBalancesAcrossChains W walletAddress tr = (Ok balances, tr1) ->
  none_qualifies "WETH" balances -> none_qualifies "USDC" balances ->
  executeBridgeCycle W walletAddress config tr = (Throw NO_BALANCE, tr1) /\
  cycle_in_main W walletAddress config tr = (Ok (Some NO_BALANCE), tr1).
Proof.
  intros Hsnap Hw Hu.
  assert (Hcycle : executeBridgeCycle W walletAddress config tr = (Throw NO_BALANCE, tr1)).
  { unfold executeBridgeCycle. unfold bind at 1. rewrite Hsnap.
    unfold bind at 1. unfold lift at 1. by rewrite findBestTokenToBridge_none. }
  split; [done|].
  unfold cycle_in_main, try_catch. unfold bind at 1. by rewrite Hcycle.
Qed.

(** C2: with 0.0005 WETH and 0.5 USDC on every chain nothing reaches its
    minimum; the selection throws instead of returning an absent candidate,
    [executeBridgeCycle] lets the exception through after the sixteen reads
    of the snapshot, and [main] logs it as an error of the cycle. *)
Theorem no_qualifying_token_throws :
  (exists balances, dust_snapshot = Ok balances /\
     findBestTokenToBridge balances = Throw NO_BALANCE) /\
  (executeBridgeCycle dust_world calm_wallet (mkConfig None) []).1 = Throw NO_BALANCE /\
  length (executeBridgeCycle dust_world calm_wallet (mkConfig None) []).2 = 16%nat /\
  (cycle_in_main dust_world calm_wallet (mkConfig None) []).1 = Ok (Some NO_BALANCE).
Proof.
  split; [|by vm_compute].
  eexists. split; [by vm_compute|]. by vm_compute.
Qed.

End NoToken.

(** ** Further scenarios *)

Section Scenarios.
Import Script.

(** Without a qualifying WETH balance the selection falls through to USDC,
    with WETH as target. *)
Lemma usdc_when_no_weth (balances : Balances) c0 cd0 b0 :
  dom balances ⊆ supported_chains ->
  none_qualifies "WETH" balances ->
  balances !! c0 = Some cd0 -> qualifies "USDC" cd0 b0 ->
  exists cand, findBestTokenToBridge balances = Ok cand /\
    symbol cand = "USDC" /\ targetSymbol cand = Some "WETH" /\
    (forall c cd b, balances !! c = Some cd -> qualifies "USDC" cd b -> b <= balance cand).
Proof.
  intros Hsup Hno Hc0 Hq0.
  destruct (findTokenBalanceOnChains_some balances "USDC" c0 cd0 b0 Hsup Hc0 Hq0)
    as (cand & Hfind & Hsym & _ & _ & Hmax).
  exists (with_target cand (TARGET_TOKENS "USDC")).
  unfold findBestTokenToBridge.
  rewrite (findTokenBalanceOnChains_none _ _ Hno), Hfind. by repeat split.
Qed.

Lemma scenario_B :
  findBestTokenToBridge snapshot_scenario_B =
    Ok (mkCandidate "USDC" 42161 "arbitrum" (Some USDC_Arbitrum) 5000000
          (Some "5.0") (Some 6) (Some "WETH")).
Proof. by vm_compute. Qed.

(** The selection of the service, which only [bridgeTokens] calls, is
    another policy: on the snapshot of the witness of C1 it picks the USDC of
    Arbitrum although Base holds 0.002 WETH. *)
Lemma legacy_selection_prefers_usdc :
  BridgeService.findBestTokenToBridge snapshot_weth_and_usdc =
    Ok (BridgeService.mkBestToken "USDC" 42161 "arbitrum" (Some USDC_Arbitrum)
          5000000000000).
Proof. by vm_compute. Qed.

(** With gas at 1 gwei the cycle stops at its first check. *)
Lemma scenario_costly :
  let run := executeBridgeCycle costly_world calm_wallet (mkConfig None) [] in
  run.1 = Ok CancelledHighGas /\ submissions run.2 = [].
Proof. by vm_compute. Qed.

(** A failing read of USDC on Base leaves an error under that entry alone;
    the WETH of Base is still found and bridged. *)
Lemma scenario_flaky :
  let snapshot := (BridgeService.checkTokenBalancesAcrossChains flaky_world calm_wallet []).1 in
  (exists balances cd,
     snapshot = Ok balances /\ balances !! 8453 = Some cd /\
     tokens cd !! "USDC" = Some (entry_error "timeout") /\
     tokens cd !! "WETH" = Some (entry_read WETH_Base 2000000000000000 "" 18)) /\
  (executeBridgeCycle flaky_world calm_wallet (mkConfig None) []).1 = Ok Completed.
Proof. split; [|by vm_compute]. eexists _, _. by vm_compute. Qed.

End Scenarios.

(** ** Ties between chains *)

Section Ties.
Import Script.

Lemma key_le_total : Total key_le.
Proof. intros x y. unfold key_le. lia. Qed.

Lemma key_le_trans : Transitive key_le.
Proof. intros x y z. unfold key_le. lia. Qed.

(** [Object.entries] lists every chain once, by ascending chain id. *)
Lemma Object_entries_sorted (balances : Balances) :
  StronglySorted key_le (Object_entries balances) /\ NoDup (Object_entries balances).*1.
Proof.
  unfold Object_entries. split.
  - apply StronglySorted_merge_sort; [apply key_le_trans|apply key_le_total].
  - rewrite merge_sort_Permutation. apply NoDup_fst_map_to_list.
Qed.

(** The scan replaces its best record only by a strictly larger balance. *)
Lemma scan_fold_strict sym l : forall best,
  match fold_left (scan_chain sym) l best with
  | Some r => best = Some r \/ forall b0, best = Some b0 -> bestBalance b0 < bestBalance r
  | None => True
  end.
Proof.
  induction l as [|[c cd] l IH]; intros best; cbn [fold_left].
  - destruct best; [by left|done].
  - specialize (IH (scan_chain sym best (c, cd))).
    destruct (fold_left _ _ _) as [r|]; [|done].
    assert (Hstep : scan_chain sym best (c, cd) = best \/
              exists b1, scan_chain sym best (c, cd) = Some b1 /\
                         forall b0, best = Some b0 -> bestBalance b0 < bestBalance b1).
    { unfold scan_chain. repeat case_match; auto; right; eexists; (split; [done|]);
        intros ? [= <-]; cbn; lia || done. }
    destruct Hstep as [Hsame | (b1 & Hb1 & Hlt)]; [by rewrite Hsame in IH|].
    rewrite Hb1 in IH. right. intros b0 Hb0. specialize (Hlt _ Hb0).
    destruct IH as [[= <-] | IH]; [done|]. specialize (IH _ eq_refl). lia.
Qed.

Lemma scan_fold_first sym l :
  StronglySorted key_le l -> NoDup l.*1 ->
  forall best,
    (forall b0 c cd, best = Some b0 -> (c, cd) ∈ l -> bestChainId b0 < c) ->
    match fold_left (scan_chain sym) l best with
    | Some r => forall c cd, (c, cd) ∈ l -> qualifies sym cd (bestBalance r) ->
                             bestChainId r <= c
    | None => True
    end.
Proof.
  induction l as [|[c1 cd1] l IH]; intros Hsorted Hnd best Hbefore; cbn [fold_left].
  - destruct best; [|done]. intros ?? Hin. by apply elem_of_nil in Hin.
  - apply StronglySorted_inv in Hsorted as [Hsorted Hhead].
    cbn in Hnd. apply NoDup_cons in Hnd as [Hfresh Hnd].
    assert (Hlater : forall c cd, (c, cd) ∈ l -> c1 < c).
    { intros c cd Hin. rewrite Forall_forall in Hhead.
      pose proof (Hhead _ Hin) as Hle. unfold key_le in Hle. cbn in Hle.
      assert (c <> c1); [|lia]. intros ->. apply Hfresh.
      apply list_elem_of_fmap. by exists (c1, cd). }
    pose proof (scan_fold_strict sym l (scan_chain sym best (c1, cd1))) as Hstrict.
    pose proof (scan_fold sym l (scan_chain sym best (c1, cd1))) as Hfold.
    assert (Hstep :
      (scan_chain sym best (c1, cd1) = best /\ forall b, qualifies sym cd1 b ->
          exists b0, best = Some b0 /\ b <= bestBalance b0) \/
      (exists e b, tokens cd1 !! sym = Some e /\ te_balance e = Some b /\
          scan_chain sym best (c1, cd1) = Some (best_of c1 e b))).
    { unfold scan_chain.
      destruct (tokens cd1 !! sym) as [e|] eqn:He;
        [|left; split; [done|]; intros b (e' & ? & _); congruence].
      destruct (te_balance e) as [bal|] eqn:Hbal;
        [|left; split; [done|]; intros b (e' & ? & ? & _); congruence].
      destruct (truthy_str (te_error e)) eqn:Herr;
        [left; split; [done|]; intros b (e' & ? & ? & ? & _); congruence|].
      destruct (bal <? minAmountOf sym) eqn:Hmin.
      { left; split; [done|]. intros b (e' & ? & ? & ? & ?).
        assert (e' = e) as -> by congruence. assert (b = bal) as -> by congruence. lia. }
      destruct best as [b0|]; [|right; by exists e, bal].
      destruct (bestBalance b0 <? bal) eqn:Hgt; [right; by exists e, bal|].
      left. split; [done|]. intros b (e' & ? & ? & ? & ?).
      assert (e' = e) as -> by congruence. assert (b = bal) as -> by congruence.
      exists b0. split; [done|lia]. }
    specialize (IH Hsorted Hnd (scan_chain sym best (c1, cd1))).
    destruct Hstep as [[Hsame Hcov] | (e & b & He & Hb & Hnew)].
    + rewrite Hsame in *.
      assert (Hbefore' : forall b0 c cd, best = Some b0 -> (c, cd) ∈ l -> bestChainId b0 < c).
      { intros b0 c cd Hb0 Hin. eapply Hbefore; [done|]. by apply elem_of_cons; right. }
      specialize (IH Hbefore').
      destruct (fold_left _ _ _) as [r|]; [|done].
      intros c cd Hin Hq. apply elem_of_cons in Hin as [[= -> ->]|Hin]; [|by eapply IH].
      destruct (Hcov _ Hq) as (b0 & Hb0 & Hle).
      destruct Hfold as (_ & Hge & _). specialize (Hge _ Hb0).
      destruct Hstrict as [Hr | Hlt].
      * assert (r = b0) as -> by congruence.
        assert (bestChainId b0 < c1); [|lia]. eapply Hbefore; [done|]. by apply elem_of_cons; left.
      * specialize (Hlt _ Hb0). lia.
    + rewrite Hnew in *.
      assert (Hbefore' : forall b0 c cd, Some (best_of c1 e b) = Some b0 -> (c, cd) ∈ l ->
                                         bestChainId b0 < c).
      { intros b0 c cd [= <-] Hin. cbn. by eapply Hlater. }
      specialize (IH Hbefore').
      destruct (fold_left _ _ _) as [r|]; [|done].
      intros c cd Hin Hq. apply elem_of_cons in Hin as [[= -> ->]|Hin]; [|by eapply IH].
      destruct Hq as (e' & He' & Hb' & _).
      assert (e' = e) as -> by congruence.
      assert (bestBalance r = b) as Hrb by congruence.
      destruct Hstrict as [[= <-] | Hlt]; [cbn; lia|].
      specialize (Hlt _ eq_refl). cbn in Hlt. lia.
Qed.

Lemma findTokenBalanceOnChains_first balances sym cand :
  findTokenBalanceOnChains balances sym = Ok (Some cand) ->
  forall c cd, balances !! c = Some cd -> qualifies sym cd (balance cand) ->
               sourceChainId cand <= c.
Proof.
  unfold findTokenBalanceOnChains. intros Hfind c cd Hc Hq.
  destruct (Object_entries_sorted balances) as [Hsorted Hnd].
  pose proof (scan_fold_first sym _ Hsorted Hnd None ltac:(done)) as Hfirst.
  destruct (fold_left _ _ _) as [r|]; [|done].
  destruct (chainNameOf _); [|done]. injection Hfind as <-. cbn in *.
  eapply Hfirst; [|done]. by apply elem_of_Object_entries.
Qed.

(** X1: when several chains hold the same largest qualifying balance of the
    selected token, the selection of the bridge cycle takes the chain with
    the smallest chain id: [Object.entries] enumerates the snapshot by
    ascending chain id and a later chain replaces the best one only with a
    strictly larger balance. *)
Theorem selection_breaks_ties_by_chain_id (balances : Balances) (cand : Candidate) :
  findBestTokenToBridge balances = Ok cand ->
  forall c cd, balances !! c = Some cd -> qualifies (symbol cand) cd (balance cand) ->
               sourceChainId cand <= c.
Proof.
  unfold findBestTokenToBridge. intros Hbest.
  destruct (findTokenBalanceOnChains balances "WETH") as [[w|]|] eqn:Hw; [| |done].
  - injection Hbest as <-. cbn.
    assert (symbol w = "WETH") as ->.
    { unfold findTokenBalanceOnChains in Hw. repeat case_match; try done. by simplify_eq. }
    by apply findTokenBalanceOnChains_first.
  - destruct (findTokenBalanceOnChains balances "USDC") as [[u|]|] eqn:Hu; [|done|done].
    injection Hbest as <-. cbn.
    assert (symbol u = "USDC") as ->.
    { unfold findTokenBalanceOnChains in Hu. repeat case_match; try done. by simplify_eq. }
    by apply findTokenBalanceOnChains_first.
Qed.

Lemma selection_breaks_ties_by_chain_id_witness :
  findBestTokenToBridge snapshot_tie = Ok tie_candidate /\
  qualifies "WETH" base_with_weth (balance tie_candidate) /\
  forall c cd, snapshot_tie !! c = Some cd ->
               qualifies (symbol tie_candidate) cd (balance tie_candidate) ->
               sourceChainId tie_candidate <= c.
Proof.
  assert (H : findBestTokenToBridge snapshot_tie = Ok tie_candidate)
    by (vm_compute; reflexivity).
  split; [exact H|]. split.
  { eexists. split; [reflexivity|]. split; [reflexivity|]. split; [reflexivity|].
    vm_compute. discriminate. }
  exact (selection_breaks_ties_by_chain_id snapshot_tie tie_candidate H).
Defined.

End Ties.

(** ** The selection of the service *)

Section ServiceSelection.
Import BridgeService.

(** One pass of the legacy scan: either nothing exceeded the running
    balance, or the running variables describe an entry of the list that
    holds more than the balance the pass started with and at least as much
    as any other. *)
Lemma legacy_scan_fold sym l : forall st,
  let st' := fold_left (legacy_scan sym) l st in
  (st' = st /\ forall c cd b, (c, cd) ∈ l -> holds sym cd b -> b <= run_tokenBalance st) \/
  (run_bestToken st' = Some sym /\ run_tokenBalance st < run_tokenBalance st' /\
   (exists c cd e, (c, cd) ∈ l /\ run_sourceChainId st' = Some c /\
      tokens cd !! sym = Some e /\ te_balance e = Some (run_tokenBalance st') /\
      truthy_str (te_error e) = false /\ run_tokenAddress st' = te_address e) /\
   forall c cd b, (c, cd) ∈ l -> holds sym cd b -> b <= run_tokenBalance st').
Proof.
  induction l as [|[c cd] l IH]; intros st; cbn [fold_left].
  - left. split; [done|]. intros ??? Hin. by apply elem_of_nil in Hin.
  - assert (Hstep :
      (legacy_scan sym st (c, cd) = st /\
         forall b, holds sym cd b -> b <= run_tokenBalance st) \/
      (exists e b, tokens cd !! sym = Some e /\ te_balance e = Some b /\
         truthy_str (te_error e) = false /\ run_tokenBalance st < b /\
         legacy_scan sym st (c, cd) = mkRunning (Some sym) (Some c) (te_address e) b)).
    { unfold legacy_scan.
      destruct (tokens cd !! sym) as [e|] eqn:He;
        [|left; split; [done|]; intros b (e' & ? & _); congruence].
      destruct (te_balance e) as [bal|] eqn:Hbal;
        [|left; split; [done|]; intros b (e' & ? & ? & _); congruence].
      destruct (truthy_str (te_error e)) eqn:Herr;
        [left; split; [done|]; intros b (e' & ? & ? & ?); congruence|].
      destruct (run_tokenBalance st <? bal) eqn:Hgt.
      - right. exists e, bal. repeat split; try done. lia.
      - left. split; [done|]. intros b (e' & ? & ? & ?).
        assert (e' = e) as -> by congruence. assert (b = bal) as -> by congruence. lia. }
    specialize (IH (legacy_scan sym st (c, cd))). cbv zeta in IH.
    destruct Hstep as [[Hsame Hcov] | (e & b & He & Hb & Herr & Hgt & Hnew)].
    + rewrite Hsame in *.
      destruct IH as [[Hst Hmax] | (Hsym & Hlt & (c' & cd' & e' & Hin & Hrest) & Hmax)].
      * left. split; [done|]. intros c' cd' b' Hin Hh.
        apply elem_of_cons in Hin as [[= -> ->]|Hin]; eauto.
      * right. split; [done|]. split; [done|]. split.
        { exists c', cd', e'. split; [by apply elem_of_cons; right|done]. }
        intros c'' cd'' b' Hin' Hh.
        apply elem_of_cons in Hin' as [[= -> ->]|Hin']; [|eauto].
        specialize (Hcov _ Hh). lia.
    + rewrite Hnew in *. cbn [run_tokenBalance] in IH. right.
      assert (Hhere : forall b', holds sym cd b' -> b' = b).
      { intros b' (e' & ? & ? & _). congruence. }
      destruct IH as [[Hst Hmax] | (Hsym & Hlt & (c' & cd' & e' & Hin & Hrest) & Hmax)].
      * rewrite Hst. cbn. split; [done|]. split; [done|]. split.
        { exists c, cd, e. split; [by apply elem_of_cons; left|done]. }
        intros c' cd' b' Hin Hh.
        apply elem_of_cons in Hin as [[= -> ->]|Hin]; [|eauto].
        rewrite (Hhere _ Hh). lia.
      * split; [done|]. split; [lia|]. split.
        { exists c', cd', e'. split; [by apply elem_of_cons; right|done]. }
        intros c'' cd'' b' Hin' Hh.
        apply elem_of_cons in Hin' as [[= -> ->]|Hin']; [|eauto].
        rewrite (Hhere _ Hh). lia.
Qed.

(** What the two passes leave in the running variables. *)
Lemma legacy_passes (balances : Balances) :
  let entries := Object_entries balances in
  let st1 := fold_left (legacy_scan "USDC") entries (mkRunning None None None 0) in
  let st := match run_bestToken st1 with
            | None => fold_left (legacy_scan "WETH") entries st1
            | Some _ => st1
            end in
  (st = mkRunning None None None 0 /\
   forall sym c cd b, sym = "USDC" \/ sym = "WETH" ->
     balances !! c = Some cd -> holds sym cd b -> b <= 0) \/
  (exists sym c cd e,
     run_bestToken st = Some sym /\ run_sourceChainId st = Some c /\
     balances !! c = Some cd /\ tokens cd !! sym = Some e /\
     te_balance e = Some (run_tokenBalance st) /\ truthy_str (te_error e) = false /\
     run_tokenAddress st = te_address e /\ 0 < run_tokenBalance st /\
     (forall c' cd' b, balances !! c' = Some cd' -> holds sym cd' b ->
                       b <= run_tokenBalance st) /\
     (sym = "USDC" \/
      sym = "WETH" /\ forall c' cd' b, balances !! c' = Some cd' -> holds "USDC" cd' b -> b <= 0)).
Proof.
  cbv zeta.
  pose proof (legacy_scan_fold "USDC" (Object_entries balances) (mkRunning None None None 0))
    as H1. cbv zeta in H1.
  destruct H1 as [[Hst1 Hmax1] | (Hsym & Hlt & (c & cd & e & Hin & Hc & He & Hb & Herr & Ha) & Hmax)].
  - rewrite Hst1. cbn [run_bestToken].
    pose proof (legacy_scan_fold "WETH" (Object_entries balances) (mkRunning None None None 0))
      as H2. cbv zeta in H2.
    destruct H2 as [[Hst2 Hmax2] | (Hsym & Hlt & (c & cd & e & Hin & Hc & He & Hb & Herr & Ha) & Hmax)].
    + left. split; [done|]. intros sym c cd b [-> | ->] Hl Hh.
      * eapply (Hmax1 c cd); [by apply elem_of_Object_entries|done].
      * eapply (Hmax2 c cd); [by apply elem_of_Object_entries|done].
    + right. exists "WETH", c, cd, e. apply elem_of_Object_entries in Hin.
      repeat split; try done.
      * intros c' cd' b Hl Hh. eapply Hmax; [by apply elem_of_Object_entries|done].
      * right. split; [done|]. intros c' cd' b Hl Hh.
        eapply (Hmax1 c' cd'); [by apply elem_of_Object_entries|done].
  - rewrite Hsym. right. exists "USDC", c, cd, e. apply elem_of_Object_entries in Hin.
    repeat split; try done; [|by left].
    intros c' cd' b Hl Hh. eapply Hmax; [by apply elem_of_Object_entries|done].
Qed.

(** What the selection of the service returns. *)
Lemma legacy_selection_spec (balances : Balances) (best : BestToken) :
  findBestTokenToBridge balances = Ok best ->
  (exists cd e,
     balances !! bt_sourceChainId best = Some cd /\
     tokens cd !! bt_symbol best = Some e /\
     te_balance e = Some (bt_balance best) /\ truthy_str (te_error e) = false /\
     bt_tokenAddress best = te_address e) /\
  0 < bt_balance best /\
  (forall c cd b, balances !! c = Some cd -> holds (bt_symbol best) cd b ->
                  b <= bt_balance best) /\
  (bt_symbol best = "USDC" \/
   bt_symbol best = "WETH" /\
   forall c cd b, balances !! c = Some cd -> holds "USDC" cd b -> b <= 0) /\
  chainNameOf (bt_sourceChainId best) = Ok (bt_chainName best).
Proof.
  unfold findBestTokenToBridge. cbv zeta.
  pose proof (legacy_passes balances) as H. cbv zeta in H.
  destruct H as [[-> _] | (sym & c & cd & e & Hsym & Hc & Hl & He & Hb & Herr & Ha & Hpos & Hmax & Hpref)];
    [done|].
  rewrite Hsym, Hc.
  destruct (chainNameOf c) as [name|] eqn:Hname; [|done].
  intros [= <-]. cbn. split; [by exists cd, e|]. by repeat split.
Qed.

(** X2: the selection of [BridgeService] prefers USDC: its result is a
    strictly positive balance that was read without error, the largest of
    its symbol over all chains, and it is WETH only when no chain holds a
    positive USDC balance.  No minimum amount applies. *)
Theorem service_selection_takes_usdc_first (balances : Balances) (best : BestToken) :
  findBestTokenToBridge balances = Ok best ->
  (exists cd e,
     balances !! bt_sourceChainId best = Some cd /\
     tokens cd !! bt_symbol best = Some e /\
     te_balance e = Some (bt_balance best) /\ truthy_str (te_error e) = false /\
     bt_tokenAddress best = te_address e) /\
  0 < bt_balance best /\
  (forall c cd b, balances !! c = Some cd -> holds (bt_symbol best) cd b ->
                  b <= bt_balance best) /\
  (bt_symbol best = "USDC" \/
   bt_symbol best = "WETH" /\
   forall c cd b, balances !! c = Some cd -> holds "USDC" cd b -> b <= 0) /\
  chainNameOf (bt_sourceChainId best) = Ok (bt_chainName best).
Proof. apply legacy_selection_spec. Qed.

Lemma service_selection_takes_usdc_first_witness :
  let best := mkBestToken "USDC" 42161 "arbitrum" (Some USDC_Arbitrum) 5000000000000 in
  findBestTokenToBridge snapshot_weth_and_usdc = Ok best /\
  (exists cd e,
     snapshot_weth_and_usdc !! bt_sourceChainId best = Some cd /\
     tokens cd !! bt_symbol best = Some e /\
     te_balance e = Some (bt_balance best) /\ truthy_str (te_error e) = false /\
     bt_tokenAddress best = te_address e) /\
  0 < bt_balance best /\
  (forall c cd b, snapshot_weth_and_usdc !! c = Some cd -> holds (bt_symbol best) cd b ->
                  b <= bt_balance best) /\
  (bt_symbol best = "USDC" \/
   bt_symbol best = "WETH" /\
   forall c cd b, snapshot_weth_and_usdc !! c = Some cd -> holds "USDC" cd b -> b <= 0) /\
  chainNameOf (bt_sourceChainId best) = Ok (bt_chainName best).
Proof.
  cbv zeta.
  assert (H : findBestTokenToBridge snapshot_weth_and_usdc =
              Ok (mkBestToken "USDC" 42161 "arbitrum" (Some USDC_Arbitrum) 5000000000000))
    by (vm_compute; reflexivity).
  split; [exact H|].
  exact (service_selection_takes_usdc_first snapshot_weth_and_usdc _ H).
Defined.

(** X3: the selection of [BridgeService] throws "No available token balance
    found on any chain" exactly when no chain of the snapshot holds a
    positive USDC or WETH balance read without error; on a snapshot keyed by
    supported chains it throws nothing else. *)
Theorem service_selection_needs_positive_balance (balances : Balances) :
  dom balances ⊆ supported_chains ->
  (findBestTokenToBridge balances = Throw "No available token balance found on any chain" <->
   forall sym c cd b, sym = "USDC" \/ sym = "WETH" ->
     balances !! c = Some cd -> holds sym cd b -> b <= 0) /\
  (forall msg, findBestTokenToBridge balances = Throw msg ->
               msg = "No available token balance found on any chain").
Proof.
  intros Hsup. unfold findBestTokenToBridge. cbv zeta.
  pose proof (legacy_passes balances) as H. cbv zeta in H.
  destruct H as [[-> Hnone] | (sym & c & cd & e & Hsym & Hc & Hl & He & Hb & Herr & Ha & Hpos & Hmax & Hpref)].
  - cbn. split; [done|]. by intros msg [= <-].
  - rewrite Hsym, Hc.
    destruct (chainNameOf_supported c) as [name ->].
    { apply elem_of_supported_chains, Hsup, elem_of_dom. by exists cd. }
    split; [|done]. split; [done|]. intros Hnone. exfalso.
    assert (run_tokenBalance
              match run_bestToken (fold_left (legacy_scan "USDC") (Object_entries balances)
                                     (mkRunning None None None 0)) with
              | Some _ => fold_left (legacy_scan "USDC") (Object_entries balances)
                            (mkRunning None None None 0)
              | None => fold_left (legacy_scan "WETH") (Object_entries balances)
                          (fold_left (legacy_scan "USDC") (Object_entries balances)
                             (mkRunning None None None 0))
              end <= 0); [|lia].
    eapply (Hnone sym c cd); [|done|by exists e].
    destruct Hpref as [-> | [-> _]]; auto.
Qed.

Lemma service_selection_needs_positive_balance_witness :
  dom snapshot_empty_wallet ⊆ supported_chains /\
  (findBestTokenToBridge snapshot_empty_wallet =
     Throw "No available token balance found on any chain" <->
   forall sym c cd b, sym = "USDC" \/ sym = "WETH" ->
     snapshot_empty_wallet !! c = Some cd -> holds sym cd b -> b <= 0) /\
  (forall msg, findBestTokenToBridge snapshot_empty_wallet = Throw msg ->
               msg = "No available token balance found on any chain").
Proof.
  assert (H : dom snapshot_empty_wallet ⊆ supported_chains)
    by (apply (bool_decide_unpack _); vm_compute; exact I).
  split; [exact H|].
  exact (service_selection_needs_positive_balance snapshot_empty_wallet H).
Defined.

End ServiceSelection.

(** ** More on the destination chain *)

Section Destination.
Import BridgeService.

Lemma chainNameOf_unsupported c : ~ supported c -> chainNameOf c = Throw TypeError_undefined.
Proof.
  intros Hno. unfold chainNameOf, chainIds. cbn -[Z.eqb].
  destruct (8453 =? c) eqn:?; [exfalso; apply Hno; unfold supported; lia|].
  destruct (42161 =? c) eqn:?; [exfalso; apply Hno; unfold supported; lia|].
  destruct (10 =? c) eqn:?; [exfalso; apply Hno; unfold supported; lia|].
  destruct (59144 =? c) eqn:?; [exfalso; apply Hno; unfold supported; lia|]. done.
Qed.

(** X4: every supported chain other than the source can be drawn: for each
    of them there is a value of [Math.random()] in [0, 1) for which
    [findDestinationChain] returns it. *)
Theorem every_other_chain_can_be_drawn (src d : Z) :
  supported src -> supported d -> d <> src ->
  exists r, 0 <= r < 2 ^ 53 /\
    forall (W : World) (tr : Trace),
      Math_random W (length tr) = r ->
      findDestinationChain W src tr = (Ok d, EvRandom r :: tr).
Proof.
  intros Hsrc Hd Hne.
  assert (Hrun : forall k, (k = 0 \/ k = 3002399751580331 \/ k = 6004799503160662) ->
            0 <= k < 2 ^ 53 /\
            random_index k 3 = (if k =? 0 then 0 else if k =? 3002399751580331 then 1 else 2)).
  { intros k [-> | [-> | ->]]; vm_compute; (split; [split; [discriminate|reflexivity]|reflexivity]). }
  unfold supported in Hsrc, Hd.
  assert (Hpick : exists k, (k = 0 \/ k = 3002399751580331 \/ k = 6004799503160662) /\
            List.filter (fun id => negb (id =? src)) (List.map snd chainIds)
              !! Z.to_nat (if k =? 0 then 0 else if k =? 3002399751580331 then 1 else 2)
            = Some d).
  { destruct Hsrc as [-> | [-> | [-> | ->]]], Hd as [-> | [-> | [-> | ->]]]; try done;
      first [ by exists 0; split; [auto|]
            | by exists 3002399751580331; split; [auto|]
            | by exists 6004799503160662; split; [auto|] ]. }
  destruct Hpick as (k & Hk & Hlook). destruct (Hrun k Hk) as [Hrange Hidx].
  exists k. split; [done|]. intros W tr Hr.
  destruct (chainNameOf_supported src) as [sname Hsname]; [done|].
  destruct (chainNameOf_supported d) as [dname Hdname]; [done|].
  unfold findDestinationChain, bind, call, lift, ret. rewrite Hr.
  assert (length (List.filter (fun id => negb (id =? src)) (List.map snd chainIds)) = 3%nat)
    as ->.
  { unfold supported in *. destruct Hsrc as [-> | [-> | [-> | ->]]]; reflexivity. }
  rewrite Hidx.
  replace ((if k =? 0 then 0 else if k =? 3002399751580331 then 1 else 2) <? 0) with false
    by (by repeat case_match).
  rewrite Hlook, Hsname, Hdname. done.
Qed.

Lemma every_other_chain_can_be_drawn_witness :
  supported 8453 /\ supported 59144 /\ 59144 <> 8453 /\
  exists r, 0 <= r < 2 ^ 53 /\
    forall (W : World) (tr : Trace),
      Math_random W (length tr) = r ->
      findDestinationChain W 8453 tr = (Ok 59144, EvRandom r :: tr).
Proof.
  assert (H1 : supported 8453) by (left; reflexivity).
  assert (H2 : supported 59144) by (right; right; right; reflexivity).
  assert (H3 : 59144 <> 8453) by discriminate.
  split; [exact H1|]. split; [exact H2|]. split; [exact H3|].
  exact (every_other_chain_can_be_drawn 8453 59144 H1 H2 H3).
Defined.

(** X5: for a source chain that is not registered [findDestinationChain]
    draws its random number and then throws the [TypeError] of the name
    lookup; it returns no destination. *)
Theorem unregistered_source_has_no_destination (W : World) (src : Z) (tr : Trace) :
  ~ supported src ->
  findDestinationChain W src tr =
    (Throw TypeError_undefined, EvRandom (Math_random W (length tr)) :: tr).
Proof.
  intros Hno. unfold findDestinationChain, bind, call, lift.
  by rewrite (chainNameOf_unsupported _ Hno).
Qed.

Lemma unregistered_source_has_no_destination_witness :
  ~ supported 1 /\
  findDestinationChain calm_world 1 [] =
    (Throw TypeError_undefined, EvRandom (Math_random calm_world (length (@nil Event))) :: []).
Proof.
  assert (H : ~ supported 1) by (unfold supported; lia).
  split; [exact H|].
  exact (unregistered_source_has_no_destination calm_world 1 [] H).
Defined.

End Destination.

(** ** Quote requests *)

Section QuoteRequests.
Import BridgeService.

Lemma tokenAddress_unsupported c sym :
  ~ supported c -> Registry.tokenAddress c sym = Throw TypeError_undefined.
Proof.
  intros Hno. unfold Registry.tokenAddress, tokenAddresses.
  destruct (c =? 8453) eqn:?; [exfalso; apply Hno; unfold supported; lia|].
  destruct (c =? 42161) eqn:?; [exfalso; apply Hno; unfold supported; lia|].
  destruct (c =? 10) eqn:?; [exfalso; apply Hno; unfold supported; lia|].
  destruct (c =? 59144) eqn:?; [exfalso; apply Hno; unfold supported; lia|]. done.
Qed.

Lemma tokenAddress_supported c sym :
  supported c -> exists address, Registry.tokenAddress c sym = Ok address.
Proof. intros [-> | [-> | [-> | ->]]]; eexists; reflexivity. Qed.

(** X6: [requestBridgeQuote] posts at most one quote request to Relay.  It
    posts none, and throws a [TypeError], exactly when no destination
    currency is given and the destination chain is not registered.  A given
    destination currency is used as it is, whatever the target symbol; else
    the registry address of the target symbol on the destination chain, else
    of the bridged symbol.  The recipient defaults to the user, the slippage
    to 0.5, and the body of the response is returned only for status 200. *)
Theorem bridge_quote_request (W : World) (params : BridgeParams) (tr : Trace) :
  let run := requestBridgeQuote W params tr in
  let dest := bp_destinationChainId params in
  let given := truthy_str (bp_destinationCurrency params) in
  let wanted := if truthy_str (bp_targetSymbol params)
                then bp_targetSymbol params else bp_symbol params in
  (given = false /\ ~ supported dest /\ run = (Throw TypeError_undefined, tr)) \/
  exists q,
    run.2 = EvRelayQuote q (relay_quote W (length tr) q) :: tr /\
    (given = true -> rq_destinationCurrency q = bp_destinationCurrency params) /\
    (given = false ->
       supported dest /\ Registry.tokenAddress dest wanted = Ok (rq_destinationCurrency q)) /\
    rq_user q = bp_user params /\
    Some (rq_recipient q) = or_str (bp_recipient params) (Some (bp_user params)) /\
    Some (rq_slippageTolerance q) = or_str (bp_slippageTolerance params) (Some "0.5") /\
    rq_originChainId q = bp_originChainId params /\
    rq_destinationChainId q = dest /\
    rq_originCurrency q = bp_tokenAddress params /\
    rq_amount q = bp_amount params /\
    match relay_quote W (length tr) q with
    | Ok (status, body) =>
        if status =? 200 then run.1 = Ok body else exists msg, run.1 = Throw msg
    | Throw e => run.1 = Throw e
    end.
Proof.
  cbv zeta.
  set (recipient := default (bp_user params)
                      (or_str (bp_recipient params) (Some (bp_user params)))).
  set (slippage := default "0.5" (or_str (bp_slippageTolerance params) (Some "0.5"))).
  assert (Hrec : Some recipient = or_str (bp_recipient params) (Some (bp_user params))).
  { unfold recipient, or_str. destruct (truthy_str (bp_recipient params)) eqn:Ht; [|done].
    by destruct (bp_recipient params). }
  assert (Hslip : Some slippage = or_str (bp_slippageTolerance params) (Some "0.5")).
  { unfold slippage, or_str. destruct (truthy_str (bp_slippageTolerance params)) eqn:Ht; [|done].
    by destruct (bp_slippageTolerance params). }
  assert (Hpost : forall cur,
    let q := mkRelayQuoteParams (bp_user params) recipient (bp_originChainId params)
               (bp_destinationChainId params) (bp_tokenAddress params) cur
               (bp_amount params) slippage in
    (RelayService.requestQuote W q tr).2 = EvRelayQuote q (relay_quote W (length tr) q) :: tr /\
    match relay_quote W (length tr) q with
    | Ok (status, body) =>
        if status =? 200 then (RelayService.requestQuote W q tr).1 = Ok body
        else exists msg, (RelayService.requestQuote W q tr).1 = Throw msg
    | Throw e => (RelayService.requestQuote W q tr).1 = Throw e
    end).
  { intros cur q. unfold RelayService.requestQuote, bind, call.
    destruct (relay_quote W (length tr) q) as [[status body]|e]; cbn; [|done].
    destruct (status =? 200); cbn; eauto. }
  assert (Hrun : forall cur,
    (if truthy_str (bp_destinationCurrency params)
     then Ok (bp_destinationCurrency params)
     else Registry.tokenAddress (bp_destinationChainId params)
            (if truthy_str (bp_targetSymbol params)
             then bp_targetSymbol params else bp_symbol params)) = Ok cur ->
    requestBridgeQuote W params tr =
      RelayService.requestQuote W
        (mkRelayQuoteParams (bp_user params) recipient (bp_originChainId params)
           (bp_destinationChainId params) (bp_tokenAddress params) cur
           (bp_amount params) slippage) tr).
  { intros cur Hcur. unfold requestBridgeQuote, bind, lift, ret.
    destruct (truthy_str (bp_destinationCurrency params)).
    - by injection Hcur as <-.
    - destruct (truthy_str (bp_targetSymbol params)); by rewrite Hcur. }
  destruct (truthy_str (bp_destinationCurrency params)) eqn:Hgiven.
  - right. rewrite (Hrun _ eq_refl).
    destruct (Hpost (bp_destinationCurrency params)) as [Htr Hres].
    eexists. split; [exact Htr|]. by repeat split.
  - destruct (decide (supported (bp_destinationChainId params))) as [Hsup | Hno].
    + right.
      destruct (tokenAddress_supported (bp_destinationChainId params)
                  (if truthy_str (bp_targetSymbol params)
                   then bp_targetSymbol params else bp_symbol params) Hsup) as [cur Hcur].
      rewrite (Hrun _ Hcur).
      destruct (Hpost cur) as [Htr Hres].
      eexists. split; [exact Htr|]. by repeat split.
    + left. split; [done|]. split; [done|]. unfold requestBridgeQuote, bind, lift.
      rewrite Hgiven, !(tokenAddress_unsupported _ _ Hno).
      by destruct (truthy_str (bp_targetSymbol params)).
Qed.

End QuoteRequests.

(** ** Approvals and swaps, call by call *)

Section Outcomes.
Import EthereumUtils Script.
Variable W : World.

(** X7: [approveToken] never throws.  With a positive allowance it answers
    [true] without submitting anything; otherwise it submits one approval
    of the maximal amount to the spender, with gas limit 100000 and the gas
    price of its options, and answers [true] only when that transaction was
    mined.  It never submits anything else, nor more than once. *)
Theorem approval_outcome (wallet : ConnectedWallet) (token spender : string)
    (options : option Z) (tr : Trace) :
  let c := cw_chain wallet in
  let owner := cw_address wallet in
  let approve := TxApprove token spender MaxUint256 100000 options in
  exists ok evs,
    approveToken W wallet (Some token) spender options tr = (Ok ok, evs ++ tr) /\
    (forall ev, ev ∈ submissions evs -> exists r, ev = EvSubmit c owner approve r) /\
    (length (submissions evs) <= 1)%nat /\
    (forall a, EvAllowance c token owner spender (Ok a) ∈ evs -> 0 < a ->
               ok = true /\ submissions evs = []) /\
    (ok = true ->
       (exists a, EvAllowance c token owner spender (Ok a) ∈ evs /\ 0 < a) \/
       (exists hash blockNumber,
          EvSubmit c owner approve (Ok hash) ∈ evs /\ EvWait c hash (Ok blockNumber) ∈ evs)).
Proof.
  cbv zeta. unfold approveToken, try_catch, bind, call, ret. cbn [length].
  destruct (rpc_allowance W (length tr) _ _ _ _) as [a|e] eqn:Ha.
  - destruct (0 <? a) eqn:Hpos.
    + eexists true, [_]. split; [reflexivity|]. cbn.
      split; [by intros ? ?%elem_of_nil|]. split; [lia|]. split; [done|].
      intros _. left. exists a. split; [by left|lia].
    + destruct (rpc_sendTransaction W _ _ _ _) as [hash|e] eqn:Hs.
      * destruct (rpc_wait W _ _ _) as [bn|e] eqn:Hw.
        -- eexists true, [_; _; _]. split; [reflexivity|]. cbn.
           split; [intros ev ->%list_elem_of_singleton; eauto|]. split; [lia|]. split.
           { intros a' Hin Ha'. repeat (apply elem_of_cons in Hin as [Hin|Hin]); try done.
             - injection Hin as <-. lia.
             - by apply elem_of_nil in Hin. }
           intros _. right. exists hash, bn. split; [by right; left|by left].
        -- eexists false, [_; _; _]. split; [reflexivity|]. cbn.
           split; [intros ev ->%list_elem_of_singleton; eauto|]. split; [lia|]. split; [|done].
           intros a' Hin Ha'. repeat (apply elem_of_cons in Hin as [Hin|Hin]); try done.
           ++ injection Hin as <-. lia.
           ++ by apply elem_of_nil in Hin.
      * eexists false, [_; _]. split; [reflexivity|]. cbn.
        split; [intros ev ->%list_elem_of_singleton; eauto|]. split; [lia|]. split; [|done].
        intros a' Hin Ha'. repeat (apply elem_of_cons in Hin as [Hin|Hin]); try done.
        -- injection Hin as <-. lia.
        -- by apply elem_of_nil in Hin.
  - eexists false, [_]. split; [reflexivity|]. cbn.
    split; [by intros ? ?%elem_of_nil|]. split; [lia|]. split; [|done].
    intros a' Hin Ha'. repeat (apply elem_of_cons in Hin as [Hin|Hin]); try done.
    by apply elem_of_nil in Hin.
Qed.

End Outcomes.

Section SwapOutcome.
Import EthereumUtils Script.
Variable W : World.

(** X8: [executeSwap] never throws and submits at most one transaction.  It
    reports success only when the transaction of the quote was submitted
    after a gas-price check that passed, with the gas limit it was given or
    120% of its own estimate, and was mined; it reports [high_gas_price]
    only when its check did not pass, and then nothing was done besides
    that check. *)
Theorem swap_outcome (wallet : ConnectedWallet) (quoteData : QuoteData)
    (gasLimit : option Z) (tr : Trace) :
  let c := cw_chain wallet in
  let sender := cw_address wallet in
  exists res evs,
    executeSwap W wallet quoteData gasLimit tr = (Ok res, evs ++ tr) /\
    (length (submissions evs) <= 1)%nat /\
    match res with
    | SwapDone blockNumber toAmount toToken =>
        exists tx p limit hash,
          q_tx quoteData = Some tx /\
          truthy_str (stx_to tx) = true /\ truthy_str (stx_data tx) = true /\
          EvGasPrice c (Ok p) ∈ evs /\ p <= MAX_GAS_PRICE_WEI /\
          submissions evs =
            [EvSubmit c sender
               (TxRaw (stx_to tx) (stx_data tx) (default 0 (stx_value tx))
                  (GasPriceOfGwei (Some p)) (Some limit)) (Ok hash)] /\
          EvWait c hash (Ok blockNumber) ∈ evs /\
          match gasLimit with
          | Some given => limit = given
          | None =>
              exists estimate,
                EvEstimateGas c sender
                  (mkCallRequest (stx_to tx) (stx_data tx) (default 0 (stx_value tx)))
                  (Ok estimate) ∈ evs /\
                limit = (estimate * 120) `quot` 100
          end /\
          toAmount = standard_toAmount quoteData /\
          toToken = standard_toToken quoteData
    | SwapFailed (Some reason) =>
        reason = "high_gas_price" /\
        exists r, evs = [EvGasPrice c r] /\ price_ok r = false
    | SwapFailed None => True
    end.
Proof.
  cbv zeta. unfold executeSwap, try_catch. unfold bind at 1. rewrite checkGasPrice_run.
  set (price := rpc_getGasPrice W (length tr) (cw_chain wallet)).
  destruct (isAcceptable (gas_check_of price)) eqn:Hacc; cbn [negb].
  2:{ eexists _, [_]. split; [reflexivity|]. split; [cbn; lia|].
      split; [done|]. exists price. split; [done|].
      destruct price as [p|e]; [|done]. exact Hacc. }
  destruct price as [p|e] eqn:Hprice; [|done]. cbn in Hacc. cbn [gas_check_of currentGwei].
  destruct (q_tx quoteData) as [tx|] eqn:Htx.
  2:{ eexists _, [_]. split; [reflexivity|]. split; [cbn; lia|done]. }
  destruct (truthy_str (stx_to tx)) eqn:Hto; cbn [negb orb].
  2:{ eexists _, [_]. split; [reflexivity|]. split; [cbn; lia|done]. }
  destruct (truthy_str (stx_data tx)) eqn:Hdata; cbn [negb orb].
  2:{ eexists _, [_]. split; [reflexivity|]. split; [cbn; lia|done]. }
  destruct gasLimit as [given|].
  - unfold bind, call, ret. cbn [length].
    destruct (rpc_sendTransaction W _ _ _ _) as [hash|e] eqn:Hs.
    2:{ eexists _, [_; _]. split; [reflexivity|]. split; [cbn; lia|done]. }
    destruct (rpc_wait W _ _ _) as [bn|e] eqn:Hw.
    2:{ eexists _, [_; _; _]. split; [reflexivity|]. split; [cbn; lia|done]. }
    eexists _, [_; _; _]. split; [reflexivity|]. split; [cbn; lia|].
    exists tx, p, given, hash. repeat split; try done.
    + by right; right; left.
    + lia.
    + by left.
  - unfold bind, call, ret. cbn [length].
    destruct (rpc_estimateGas W _ _ _ _) as [estimate|e] eqn:He.
    2:{ eexists _, [_; _]. split; [reflexivity|]. split; [cbn; lia|done]. }
    destruct (rpc_sendTransaction W _ _ _ _) as [hash|e] eqn:Hs.
    2:{ eexists _, [_; _; _]. split; [reflexivity|]. split; [cbn; lia|done]. }
    destruct (rpc_wait W _ _ _) as [bn|e] eqn:Hw.
    2:{ eexists _, [_; _; _; _]. split; [reflexivity|]. split; [cbn; lia|done]. }
    eexists _, [_; _; _; _]. split; [reflexivity|]. split; [cbn; lia|].
    exists tx, p, ((estimate * 120) `quot` 100), hash. repeat split; try done.
    + by right; right; right; left.
    + lia.
    + by left.
    + exists estimate. split; [by right; right; left|done].
Qed.

(** X9: the amount the cycle hands to the bridge after a swap is the
    [dstAmount] of the 1inch response when there is one, else its
    [toAmount], else its [amount]: [getQuote] copies [dstAmount] over
    [toAmount], the cycle refuses a response with none of the three, and
    [executeSwap] reads them in the order [toAmount], [dstAmount],
    [amount], so that its placeholder of zero is never used. *)
Theorem swap_output_amount (q : QuoteData) :
  let quoted := or_else (q_dstAmount q) (or_else (q_toAmount q) (q_amount q)) in
  match check_amount (normalize_quote q) with
  | Ok q' =>
      quoted = Some (standard_toAmount q') /\
      standard_toToken q' = standard_toToken (normalize_quote q) /\
      q_tx q' = q_tx q
  | Throw _ =>
      q_dstAmount q = None /\ q_toAmount q = None /\ q_amount q = None
  end.
Proof.
  cbv zeta. unfold check_amount, normalize_quote, standard_toAmount, standard_toToken.
  destruct q as [tx toAmount dstAmount amount toToken dstToken toTokenAddress dst].
  destruct toAmount, dstAmount, amount, dstToken; cbn; done.
Qed.

End SwapOutcome.

(** ** The ledger of a run *)

Section Ledger.
Import EthereumUtils BridgeService Script.
Variable W : World.

Lemma ledger_state tr : mon_state ledger_monitor tr = ledger tr.
Proof.
  induction tr as [|ev tr IH]; [done|]. cbn. rewrite IH. unfold ledger. cbn.
  by destruct (is_entry ev).
Qed.

Lemma ledger_holds tr : mon_holds ledger_monitor tr.
Proof. by induction tr. Qed.

(** From a fact about the monitor to the ledger of a run. *)
Lemma ledger_run {A} (m : M A) (Q : Res A -> Trace -> Prop) tr :
  mwp ledger_monitor m Q (ledger tr) -> Q (m tr).1 (ledger (m tr).2).
Proof.
  intros Hm. rewrite <- (ledger_state (m tr).2).
  apply Hm; [apply ledger_holds|apply ledger_state].
Qed.

Lemma submissions_ledger tr : submissions (ledger tr) = submissions tr.
Proof.
  unfold submissions, ledger. induction tr as [|ev tr IH]; [done|]. cbn.
  destruct ev; cbn; by rewrite ?IH.
Qed.

Lemma or_str_same (w : string) : default w (or_str (Some w) (Some w)) = w.
Proof. unfold or_str. by destruct (truthy_str (Some w)). Qed.

Lemma normalize_quote_tx q : q_tx (normalize_quote q) = q_tx q.
Proof.
  unfold normalize_quote. destruct q as [tx toAmount dstAmount amount toToken dstToken a d].
  by destruct dstAmount, dstToken.
Qed.

Lemma check_amount_tx q checked : check_amount q = Ok checked -> q_tx checked = q_tx q.
Proof.
  unfold check_amount. destruct q as [tx toAmount dstAmount amount toToken dstToken a d].
  destruct toAmount, dstAmount, amount; cbn; by intros [= <-].
Qed.

(** The transaction of a checked quote is the one of the 1inch answer. *)
Lemma answered_tx resp swapQuote checked tx :
  quote_of resp = Some swapQuote -> check_amount swapQuote = Ok checked ->
  q_tx checked = Some tx ->
  exists answer, resp = Ok (Some answer) /\ q_tx answer = Some tx.
Proof.
  destruct resp as [[answer|]|]; try done. cbn. intros [= <-] Hc Htx.
  exists answer. split; [done|].
  by rewrite <- Htx, (check_amount_tx _ _ Hc), normalize_quote_tx.
Qed.

Ltac log_side :=
  lazymatch goal with
  | |- mon_ok _ _ _ => exact I
  | |- _ => cbn [mon_step ledger_monitor is_entry is_submit is_wait is_quote orb]
  end.

Ltac log_run := repeat (mwp_step; log_side).

(** The entries added to [s]. *)
Ltac log_added :=
  first [ exists (@nil Event); split; [reflexivity|split; [reflexivity|]]
        | eexists [_]; split; [reflexivity|split; [reflexivity|]]
        | eexists [_; _]; split; [reflexivity|split; [reflexivity|]]
        | eexists [_; _; _]; split; [reflexivity|split; [reflexivity|]]
        | eexists [_; _; _; _]; split; [reflexivity|split; [reflexivity|]]
        | eexists [_; _; _; _; _]; split; [reflexivity|split; [reflexivity|]]
        | eexists [_; _; _; _; _; _]; split; [reflexivity|split; [reflexivity|]]
        | eexists [_; _; _; _; _; _; _]; split; [reflexivity|split; [reflexivity|]] ].

(** A response with status 200, as the event records it. *)
Ltac status_200 :=
  repeat match goal with
         | H : (fst ?response =? 200) = true |- _ =>
             destruct response as [? ?]; cbn [fst snd] in *; apply Z.eqb_eq in H; subst
         end.

Ltac price_passed :=
  repeat match goal with
         | H : negb (isAcceptable _) = _ |- _ =>
             cbn in H; first [discriminate H | apply negb_false_iff, Z.leb_le in H]
         end.

Ltac payload_found :=
  unfold deposit_payload;
  repeat match goal with
         | H : steps _ = Some _ |- _ => rewrite H; clear H; cbn -[find_deposit]
         | H : find_deposit _ = Some _ |- _ => rewrite H; clear H; cbn -[find_deposit]
         end;
  assumption.

(** What each part of the cycle enters. *)
Lemma bridgeETHForGas_ledger walletAddress target s :
  mwp ledger_monitor (bridgeETHForGas W walletAddress target)
    (fun r s' => exists ok new, r = Ok ok /\ s' = new ++ s /\
       (length (submissions new) <= 2)%nat /\
       (ok = true -> rescued walletAddress target new)) s.
Proof.
  unfold bridgeETHForGas, requestBridgeQuote, RelayService.requestQuote,
    executeBridgeTransaction, checkBridgeStatus, checkGasPrice.
  cbn [bp_destinationCurrency truthy_str bp_user bp_recipient bp_originChainId
       bp_destinationChainId bp_tokenAddress bp_amount bp_slippageTolerance].
  rewrite or_str_same.
  log_run.
  all: try (eexists false; log_added; split; [cbn; lia|done]).
  all: eexists true; log_added; split; [cbn; lia|]; intros _.
  all: price_passed; status_200.
  all: try match goal with H : negb (String.eqb _ _) = false |- _ => discriminate H end.
  all: injection Heqr3 as <-.
  all: eexists _, _, _, _, _, _, _; cbv zeta; split; [reflexivity|split; [|assumption]].
  all: payload_found.
Qed.

(** X10: [bridgeETHForGas] never throws and submits at most two
    transactions.  It answers [true] only after the wrap of 0.001 ETH into
    WETH on Base was mined, at a checked gas price within the ceiling, Relay
    then answered its request for native currency on the target chain with
    status 200, and the deposit of that answer was mined, sent through the
    provider built from the chain id of its payload. *)
Theorem rescue_success_means_two_transactions (walletAddress : string) (target : Z)
    (tr : Trace) :
  let run := bridgeETHForGas W walletAddress target tr in
  exists ok new,
    run.1 = Ok ok /\
    ledger run.2 = new ++ ledger tr /\
    (length (submissions new) <= 2)%nat /\
    (ok = true -> rescued walletAddress target new).
Proof.
  cbv zeta.
  apply (ledger_run (bridgeETHForGas W walletAddress target)), bridgeETHForGas_ledger.
Qed.

Lemma ledger_ignores_reads s ev :
  is_read ev -> mon_ok ledger_monitor s ev /\ mon_step ledger_monitor s ev = s.
Proof. by destruct ev. Qed.

Ltac log_leaf H :=
  first [ apply (H _ []) | apply (H _ [_]) | apply (H _ [_; _]) | apply (H _ [_; _; _])
        | apply (H _ [_; _; _; _]) ]; [cbn; lia|reflexivity].

Lemma checkGasPrice_ledger c (Q : Res GasCheck -> Trace -> Prop) s :
  (forall g, Q (Ok g) s) -> mwp ledger_monitor (checkGasPrice W c) Q s.
Proof. intros HQ. unfold checkGasPrice. log_run; apply HQ. Qed.

Lemma approveToken_ledger cw token spender options (Q : Res bool -> Trace -> Prop) s :
  (forall ok new, (length (submissions new) <= 1)%nat -> quotes new = [] ->
                  Q (Ok ok) (new ++ s)) ->
  mwp ledger_monitor (approveToken W cw token spender options) Q s.
Proof. intros HQ. unfold approveToken. log_run; log_leaf HQ. Qed.

Lemma getQuote_ledger account receiver from to amount c
    (Q : Res (option QuoteData) -> Trace -> Prop) s :
  (forall resp,
     Q (Ok (quote_of resp))
       (EvSwapQuote (mkSwapParams c from to amount account receiver) resp :: s)) ->
  mwp ledger_monitor (getQuote W account receiver from to amount c) Q s.
Proof.
  intros HQ. unfold getQuote.
  mwp_step. cbv zeta. mwp_step. mwp_step; [done|]. log_side.
  destruct r as [data|e]; repeat mwp_step.
  - apply (HQ (Ok data)).
  - apply (HQ (Throw e)).
Qed.

Lemma requestBridgeQuote_ledger params (Q : Res BridgeQuote -> Trace -> Prop) s :
  (forall e, Q (Throw e) s) ->
  (forall request r e, Q (Throw e) (EvRelayQuote request r :: s)) ->
  (forall request quote, Q (Ok quote) (EvRelayQuote request (Ok (200, quote)) :: s)) ->
  mwp ledger_monitor (requestBridgeQuote W params) Q s.
Proof.
  intros HQ1 HQ2 HQ3. unfold requestBridgeQuote, RelayService.requestQuote.
  log_run; status_200; first [apply HQ1 | apply HQ2 | apply HQ3].
Qed.

Lemma checkBridgeStatus_ledger requestId (Q : Res (option string) -> Trace -> Prop) s :
  (forall r, Q r s) -> mwp ledger_monitor (checkBridgeStatus W requestId) Q s.
Proof. intros HQ. unfold checkBridgeStatus. log_run; apply HQ. Qed.

Lemma findDestinationChain_ledger src (Q : Res Z -> Trace -> Prop) s :
  (forall r, Q r s) -> mwp ledger_monitor (findDestinationChain W src) Q s.
Proof. intros HQ. unfold findDestinationChain. log_run; apply HQ. Qed.

Lemma executeBridgeTransaction_ledger w quote (Q : Res BridgeResult -> Trace -> Prop) s :
  (forall e new, (length (submissions new) <= 1)%nat -> quotes new = [] ->
                 Q (Throw e) (new ++ s)) ->
  (forall res payload hash blockNumber,
     deposit_payload quote = Some payload ->
     Q (Ok res)
       ([EvWait (rpcProvider (tx_chainId payload)) hash (Ok blockNumber);
         EvSubmit (rpcProvider (tx_chainId payload)) w (deposit_request payload)
           (Ok hash)] ++ s)) ->
  mwp ledger_monitor (executeBridgeTransaction W w quote) Q s.
Proof.
  intros HQ1 HQ2. unfold executeBridgeTransaction. log_run;
    first [log_leaf HQ1 | apply HQ2; payload_found].
Qed.

Lemma executeSwap_ledger cw quoteData gasLimit (Q : Res SwapResult -> Trace -> Prop) s :
  (forall e new, (length (submissions new) <= 1)%nat -> quotes new = [] ->
                 Q (Ok (SwapFailed e)) (new ++ s)) ->
  (forall blockNumber tx gasPrice limit hash,
     q_tx quoteData = Some tx ->
     Q (Ok (SwapDone blockNumber (standard_toAmount quoteData)
              (standard_toToken quoteData)))
       ([EvWait (cw_chain cw) hash (Ok blockNumber);
         EvSubmit (cw_chain cw) (cw_address cw)
           (TxRaw (stx_to tx) (stx_data tx) (default 0 (stx_value tx))
              (GasPriceOfGwei gasPrice) (Some limit))
           (Ok hash)] ++ s)) ->
  mwp ledger_monitor (executeSwap W cw quoteData gasLimit) Q s.
Proof.
  intros HQ1 HQ2. unfold executeSwap.
  repeat (first [apply checkGasPrice_ledger; intros ? | mwp_step]; log_side);
    first [log_leaf HQ1 | by apply HQ2].
Qed.

Ltac log_call :=
  lazymatch goal with
  | |- mwp _ (checkGasPrice _ _) _ _ => apply checkGasPrice_ledger; intros ?
  | |- mwp _ (checkBridgeStatus _ _) _ _ => apply checkBridgeStatus_ledger; intros ?
  | |- mwp _ (findDestinationChain _ _) _ _ => apply findDestinationChain_ledger; intros ?
  | |- mwp _ (checkTokenBalancesAcrossChains _ _) _ _ =>
      apply snapshot_mwp; [apply ledger_ignores_reads|intros ?]
  end.

(** The entries added to [s] in a state built on it. *)
Ltac prefix_of t s :=
  lazymatch t with
  | s => constr:(@nil Event)
  | ?a :: ?t' => let p := prefix_of t' s in constr:(a :: p)
  | ?l ++ ?t' => let p := prefix_of t' s in constr:(l ++ p)
  end.

Ltac log_new s :=
  lazymatch goal with
  | |- exists new, ?t = new ++ _ /\ _ =>
      let p := prefix_of t s in
      exists p; split;
        [repeat (progress (cbn [app]; rewrite <- ?app_assoc)); reflexivity|]
  end.

Ltac log_count :=
  unfold submissions in *;
  repeat (progress (cbn; rewrite ?app_nil_r, ?List.filter_app, ?length_app)); lia.

Lemma gas_guard_ledger walletAddress src ethBalance s :
  mwp ledger_monitor (gas_guard W walletAddress src ethBalance)
    (fun r s' => exists new, s' = new ++ s /\ (length (submissions new) <= 2)%nat /\
                             r <> Ok (Some Completed)) s.
Proof.
  unfold gas_guard. cbv zeta.
  mwp_step; [|mwp_step; log_new s; split; [log_count|done]].
  mwp_step. eapply mwp_mono; [apply bridgeETHForGas_ledger|].
  intros r s' (ok & new & -> & -> & Hlen & _).
  destruct ok; log_run; log_new s; (split; [log_count|done]).
Qed.

Lemma bridge_after_swap_ledger walletAddress config cw bestToken swapTargetSymbol
    toAmount toToken s :
  mwp ledger_monitor
    (bridge_after_swap W walletAddress config cw bestToken swapTargetSymbol toAmount toToken)
    (fun r s' => exists new, s' = new ++ s /\ (length (submissions new) <= 2)%nat /\
       (r = Ok Completed ->
          exists relayer request quote payload hash blockNumber,
            new = [EvWait (rpcProvider (tx_chainId payload)) hash (Ok blockNumber);
                   EvSubmit (rpcProvider (tx_chainId payload)) (cw_address cw)
                     (deposit_request payload) (Ok hash)] ++ relayer ++
                  [EvRelayQuote request (Ok (200, quote))] /\
            deposit_payload quote = Some payload /\
            (length (submissions relayer) <= 1)%nat /\ quotes relayer = [])) s.
Proof.
  unfold bridge_after_swap. cbv zeta.
  repeat (first [ apply approveToken_ledger; intros ? ? ? ?
                | apply executeBridgeTransaction_ledger; [intros ? ? ? ?|intros ? ? ? ? ?]
                | apply requestBridgeQuote_ledger; [intros ?|intros ? ? ?|intros ? ?]
                | log_call | mwp_step ]; log_side).
  all: log_new s; (split; [log_count|]); try (intros [=]; fail).
  all: intros _.
  all: first [ exists (@nil Event); eexists _, _, _, _, _; split; [reflexivity|]
             | eexists _, _, _, _, _, _; split; [reflexivity|] ].
  all: split; [assumption|]; split; [log_count|done].
Qed.

Lemma swap_and_bridge_ledger walletAddress config cw bestToken swapTargetSymbol swapQuote
    tx ethBalance s :
  mwp ledger_monitor
    (swap_and_bridge W walletAddress config cw bestToken swapTargetSymbol swapQuote
       tx ethBalance)
    (fun r s' => exists new, s' = new ++ s /\ (length (submissions new) <= 3)%nat /\
       (r = Ok Completed ->
          exists relayer request quote payload hash blockNumber
                 sent gasPrice limit swapHash swapBlock,
            new = [EvWait (rpcProvider (tx_chainId payload)) hash (Ok blockNumber);
                   EvSubmit (rpcProvider (tx_chainId payload)) (cw_address cw)
                     (deposit_request payload) (Ok hash)] ++ relayer ++
                  [EvRelayQuote request (Ok (200, quote));
                   EvWait (cw_chain cw) swapHash (Ok swapBlock);
                   EvSubmit (cw_chain cw) (cw_address cw)
                     (TxRaw (stx_to sent) (stx_data sent) (default 0 (stx_value sent))
                        (GasPriceOfGwei gasPrice) (Some limit))
                     (Ok swapHash)] /\
            q_tx swapQuote = Some sent /\
            deposit_payload quote = Some payload /\
            (length (submissions relayer) <= 1)%nat /\ quotes relayer = [])) s.
Proof.
  unfold swap_and_bridge. cbv zeta.
  repeat (first [ apply executeSwap_ledger; [intros ? ? ? ?|intros ? ? ? ? ? Hsent]
                | eapply mwp_mono;
                    [apply bridge_after_swap_ledger
                    |intros ? ? (? & -> & ? & Hdone); cbv beta]
                | log_call | mwp_step ]; log_side).
  all: log_new s; (split; [log_count|]); try (intros [=]; fail).
  all: intros Hc;
    destruct (Hdone Hc) as (relayer & request & quote & payload & dh & bn & -> & Hp & Hr & Hq).
  all: eexists relayer, _, _, _, _, _, _, _, _, _, _; split; [|done].
  all: cbn [app]; rewrite <- ?app_assoc; reflexivity.
Qed.

Lemma executeBridgeCycle_ledger walletAddress config s :
  mwp ledger_monitor (executeBridgeCycle W walletAddress config)
    (fun r s' => exists new, s' = new ++ s /\ (length (submissions new) <= 6)%nat /\
       (r = Ok Completed -> swapped_then_bridged walletAddress new)) s.
Proof.
  unfold executeBridgeCycle. cbv zeta.
  repeat (first [ apply approveToken_ledger; intros ? ? ? ?
                | apply getQuote_ledger; intros ?
                | eapply mwp_mono;
                    [apply gas_guard_ledger|intros ? ? (? & -> & ? & Hguard); cbv beta]
                | eapply mwp_mono;
                    [apply swap_and_bridge_ledger
                    |intros ? ? (? & -> & ? & Hdone); cbv beta]
                | log_call | mwp_step ]; log_side).
  all: log_new s; (split; [log_count|]); try (intros [=]; fail).
  all: try (intros [= ->]; by destruct Hguard).
  all: intros Hc;
    destruct (Hdone Hc)
      as (relayer & request & quote & payload & hash & bn & sent & gp & limit & sh & sb &
          -> & Hsent & Hp & Hr & Hq).
  all: match goal with
       | H1 : quote_of ?resp = Some ?q, H2 : check_amount ?q = Ok ?c |- _ =>
           destruct (answered_tx _ _ _ _ H1 H2 Hsent) as (answer & -> & Hanswer)
       end.
  all: match goal with
       | |- context [EvSwapQuote ?asked (Ok (Some ?given))] =>
           exists x, new, relayer, asked, given, sent, gp, limit, sh, sb,
                  request, quote, payload, hash, bn
       end.
  all: cbv zeta; split;
    [rewrite ?app_nil_r; repeat (progress (cbn [app]; rewrite <- ?app_assoc)); reflexivity|].
  all: repeat (split; [done|]); done.
Qed.

(** X13: a bridge cycle submits at most six transactions, and it ends as
    completed only after 1inch answered its request with a quote, the
    transaction of that quote was mined on the chain of the request, Relay
    then answered a request with status 200, and the deposit of that answer
    was mined, sent through the provider built from the chain id of its
    payload.  Besides these there is at most one submission between the
    1inch answer and the swap, at most one between the Relay answer and the
    deposit, and at most two before the 1inch request. *)
Theorem completed_cycle_has_swapped_and_bridged (walletAddress : string)
    (config : Config) (tr : Trace) :
  let run := executeBridgeCycle W walletAddress config tr in
  exists new,
    ledger run.2 = new ++ ledger tr /\
    (length (submissions new) <= 6)%nat /\
    (run.1 = Ok Completed -> swapped_then_bridged walletAddress new).
Proof.
  cbv zeta.
  apply (ledger_run (executeBridgeCycle W walletAddress config)),
    executeBridgeCycle_ledger.
Qed.

Lemma bridgeTokens_ledger walletAddress s :
  mwp ledger_monitor (bridgeTokens W walletAddress)
    (fun r s' => exists new, s' = new ++ s /\ (length (submissions new) <= 1)%nat /\
       forall flow, r = Ok flow ->
         exists request payload hash blockNumber,
           new = [EvWait (rpcProvider (tx_chainId payload)) hash (Ok blockNumber);
                  EvSubmit (rpcProvider (tx_chainId payload)) walletAddress
                    (deposit_request payload) (Ok hash);
                  EvRelayQuote request (Ok (200, bf_quoteResponse flow))] /\
           deposit_payload (bf_quoteResponse flow) = Some payload) s.
Proof.
  unfold bridgeTokens. cbv zeta.
  repeat (first [ apply executeBridgeTransaction_ledger; [intros ? ? ? ?|intros ? ? ? ? ?]
                | apply requestBridgeQuote_ledger; [intros ?|intros ? ? ?|intros ? ?]
                | log_call | mwp_step ]; log_side).
  all: log_new s; (split; [log_count|]); try (intros ? [=]; fail).
  all: intros ? [= <-]; cbn [bf_quoteResponse]; by eexists _, _, _, _.
Qed.

End Ledger.

(** ** Requests judged against what was read *)

Section History.
Import BridgeService.
Variable W : World.
Variable wallet : string.
Variable judge : Trace -> Event -> Prop.
Hypothesis judge_reads : forall s ev, is_read ev -> judge s ev.

Local Abbreviation HM := (history_monitor judge).

Lemma history_state tr : mon_state HM tr = List.filter recorded tr.
Proof.
  induction tr as [|ev tr IH]; [done|]. cbn. rewrite IH. by destruct (recorded ev).
Qed.

(** The snapshot records the balances it read, and makes no request. *)
Lemma reads_recorded evs tr :
  Forall is_read evs ->
  (mon_holds HM tr -> mon_holds HM (evs ++ tr)) /\
  mon_state HM (evs ++ tr) = List.filter recorded evs ++ mon_state HM tr /\
  last_swap (List.filter recorded evs ++ mon_state HM tr) = last_swap (mon_state HM tr).
Proof.
  induction 1 as [|ev evs Hev _ (IHh & IHs & IHl)]; [done|].
  cbn [app mon_holds mon_state]. rewrite IHs. split; [|split].
  - intros Hh. split; [by apply judge_reads|by apply IHh].
  - cbn. by destruct (recorded ev).
  - cbn. destruct ev; try done. destruct r; [|done]. cbn. exact IHl.
Qed.

Lemma snapshot_history (Q : Res Balances -> Trace -> Prop) s :
  (forall balances s', extends s s' -> snapshot_read wallet balances s' ->
                       Q (Ok balances) s') ->
  mwp HM (checkTokenBalancesAcrossChains W wallet) Q s.
Proof.
  intros HQ tr Hh <-.
  destruct (checkTokenBalancesAcrossChains_spec W wallet tr)
    as (balances & evs & -> & Hreads & Hdom & Hentries).
  destruct (reads_recorded evs tr Hreads) as (Hh' & Hs' & Hl').
  cbn. split; [by apply Hh'|]. rewrite Hs'. apply HQ.
  - split; [done|]. intros ev Hin. apply elem_of_app. by right.
  - intros c cd sym e b Hc Hsym He Hb.
    assert (Hsup : supported c).
    { apply elem_of_supported_chains. rewrite <- Hdom. apply elem_of_dom. by exists cd. }
    split; [done|].
    assert (Hreg : exists name table address,
              (name, c) ∈ chainIds /\ tokenAddresses c = Some table /\
              (sym, address) ∈ table /\
              Registry.tokenAddress c (Some sym) = Ok (Some address)).
    { unfold supported in Hsup.
      destruct Hsup as [-> | [-> | [-> | ->]]], Hsym as [-> | ->];
        eexists _, _, _; (split; [|split; [reflexivity|split; [|reflexivity]]]);
        unfold chainIds;
        repeat first [apply list_elem_of_here | apply list_elem_of_further]. }
    destruct Hreg as (name & table & address & Hin & Htable & Hsymin & Haddr).
    destruct (Hentries _ _ _ _ _ Hin Htable Hsymin) as (cd' & e' & Hc' & _ & He' & Hm).
    assert (cd' = cd) as -> by congruence. assert (e' = e) as -> by congruence.
    exists address. split; [done|].
    destruct Hm as [(msg & -> & _) | (d & bal & text & -> & _ & _ & Hread)]; [done|].
    cbn in Hb. injection Hb as <-. split; [done|].
    apply elem_of_app. left. apply list_elem_of_In, filter_In.
    split; [by apply list_elem_of_In|done].
Qed.

End History.

Lemma last_swap_recorded tr : last_swap (List.filter recorded tr) = last_swap tr.
Proof.
  induction tr as [|ev tr IH]; [done|]. cbn.
  destruct ev; cbn; try done. by destruct r.
Qed.

Lemma elem_of_recorded ev tr : ev ∈ List.filter recorded tr -> ev ∈ tr.
Proof.
  rewrite !list_elem_of_In. intros Hin. by apply filter_In in Hin as [? _].
Qed.

Lemma extends_refl s : extends s s.
Proof. by split. Qed.

Lemma extends_read s c token owner b : extends s (EvBalanceOf c token owner (Ok b) :: s).
Proof. split; [done|]. intros ev Hin. by right. Qed.

(** A destination that is returned is a supported chain other than the
    source. *)
Lemma findDestinationChain_history W judge src (Q : Res Z -> Trace -> Prop) s :
  (forall s' r, judge s' (EvRandom r)) ->
  (forall d, supported d -> d <> src -> Q (Ok d) s) -> (forall e, Q (Throw e) s) ->
  mwp (history_monitor judge) (BridgeService.findDestinationChain W src) Q s.
Proof.
  intros Hj HQ1 HQ2. unfold BridgeService.findDestinationChain.
  mwp_step. mwp_step; [apply Hj|]. cbn [mon_step history_monitor recorded].
  destruct r as [r|e]; [|apply HQ2].
  cbv zeta. mwp_step. mwp_step.
  destruct (chainNameOf src) as [name|e] eqn:Hname; [|apply HQ2].
  destruct (BridgeService.random_index r _ <? 0); [mwp_step; apply HQ2|].
  destruct (_ !! _) as [d|] eqn:Hd; [|mwp_step; apply HQ2].
  apply list_elem_of_lookup_2, list_elem_of_In, filter_In in Hd as [Hin Hne].
  apply list_elem_of_In in Hin. apply negb_true_iff, Z.eqb_neq in Hne.
  mwp_step. mwp_step. destruct (chainNameOf d) as [dname|e]; [|apply HQ2].
  mwp_step. apply HQ1; [|done].
  cbn in Hin. unfold supported.
  repeat (apply elem_of_cons in Hin as [-> | Hin]); auto. by apply elem_of_nil in Hin.
Qed.

Lemma registry_address_truthy c sym address :
  sym = "WETH" \/ sym = "USDC" ->
  Registry.tokenAddress c (Some sym) = Ok address -> truthy_str address = true.
Proof.
  unfold Registry.tokenAddress, tokenAddresses.
  intros [-> | ->]; repeat case_match; try done; simplify_eq; cbn; by intros [= <-].
Qed.

(** ** The requests of the cycle *)

Section FlowPass.
Import EthereumUtils BridgeService Script.
Variable W : World.
Variable wallet : string.
Variable config : Config.

Local Abbreviation FM := (flow_monitor wallet config).

Ltac f_side :=
  lazymatch goal with
  | |- mon_ok _ _ _ => cbn; try done
  | |- _ => cbn [mon_step flow_monitor history_monitor recorded]
  end.

(** Computations that make no request and read no balance. *)
Lemma checkGasPrice_flow c (Q : Res GasCheck -> Trace -> Prop) s :
  (forall g, Q (Ok g) s) -> mwp FM (checkGasPrice W c) Q s.
Proof. intros HQ. unfold checkGasPrice. repeat (mwp_step; f_side); apply HQ. Qed.

Lemma approveToken_flow cw token spender options (Q : Res bool -> Trace -> Prop) s :
  (forall ok, Q (Ok ok) s) -> mwp FM (approveToken W cw token spender options) Q s.
Proof. intros HQ. unfold approveToken. repeat (mwp_step; f_side); apply HQ. Qed.

Lemma executeBridgeTransaction_flow w quote (Q : Res BridgeResult -> Trace -> Prop) s :
  (forall r, Q r s) -> mwp FM (executeBridgeTransaction W w quote) Q s.
Proof. intros HQ. unfold executeBridgeTransaction. repeat (mwp_step; f_side); apply HQ. Qed.

Lemma checkBridgeStatus_flow requestId (Q : Res (option string) -> Trace -> Prop) s :
  (forall r, Q r s) -> mwp FM (checkBridgeStatus W requestId) Q s.
Proof. intros HQ. unfold checkBridgeStatus. repeat (mwp_step; f_side); apply HQ. Qed.

(** The two kinds of request. *)
Lemma getQuote_flow account receiver from to amount c
    (Q : Res (option QuoteData) -> Trace -> Prop) s :
  let params := mkSwapParams c from to amount account receiver in
  last_swap s = None ->
  sells_whole_balance wallet s params ->
  (forall resp, Q (Ok (quote_of resp)) (EvSwapQuote params resp :: s)) ->
  mwp FM (getQuote W account receiver from to amount c) Q s.
Proof.
  intros params Hnone Hok HQ. unfold getQuote.
  mwp_step. cbv zeta. mwp_step. mwp_step; [done|]. f_side.
  destruct r as [data|e]; repeat mwp_step.
  - apply (HQ (Ok data)).
  - apply (HQ (Throw e)).
Qed.

Lemma requestBridgeQuote_flow params (Q : Res BridgeQuote -> Trace -> Prop) s :
  truthy_str (bp_destinationCurrency params) = true ->
  bridges_swap_output wallet config (last_swap s)
    (mkRelayQuoteParams (bp_user params)
       (default (bp_user params) (or_str (bp_recipient params) (Some (bp_user params))))
       (bp_originChainId params) (bp_destinationChainId params)
       (bp_tokenAddress params) (bp_destinationCurrency params) (bp_amount params)
       (default "0.5" (or_str (bp_slippageTolerance params) (Some "0.5")))) ->
  (forall r, Q r s) ->
  mwp FM (requestBridgeQuote W params) Q s.
Proof.
  intros Hgiven Hok HQ. unfold requestBridgeQuote, RelayService.requestQuote.
  rewrite Hgiven. repeat (mwp_step; f_side); apply HQ.
Qed.

Lemma executeSwap_flow cw quoteData gasLimit (Q : Res SwapResult -> Trace -> Prop) s :
  (forall e, Q (Ok (SwapFailed e)) s) ->
  (forall blockNumber,
     Q (Ok (SwapDone blockNumber (standard_toAmount quoteData)
              (standard_toToken quoteData))) s) ->
  mwp FM (executeSwap W cw quoteData gasLimit) Q s.
Proof.
  intros HQ1 HQ2. unfold executeSwap.
  repeat (first [apply checkGasPrice_flow; intros ? | mwp_step]; f_side);
    first [apply HQ1 | apply HQ2].
Qed.

Ltac f_call :=
  lazymatch goal with
  | |- mwp _ (checkGasPrice _ _) _ _ => apply checkGasPrice_flow; intros ?
  | |- mwp _ (approveToken _ _ _ _ _) _ _ => apply approveToken_flow; intros ?
  | |- mwp _ (executeBridgeTransaction _ _ _) _ _ =>
      apply executeBridgeTransaction_flow; intros ?
  | |- mwp _ (checkBridgeStatus _ _) _ _ => apply checkBridgeStatus_flow; intros ?
  end.

(** Before any swap, the gas rescue asks Relay for 0.001 WETH of Base
    against native currency. *)
Lemma bridgeETHForGas_flow target (Q : Res bool -> Trace -> Prop) s :
  last_swap s = None ->
  (forall ok s', extends s s' -> Q (Ok ok) s') ->
  mwp FM (bridgeETHForGas W wallet target) Q s.
Proof.
  intros Hnone HQ. unfold bridgeETHForGas. rewrite base_weth.
  mwp_step. mwp_step. f_call. mwp_step; [mwp_step; apply HQ, extends_refl|].
  mwp_step. mwp_step; [done|]. f_side.
  destruct r as [baseETHBalance|e]; [|mwp_step; apply HQ, extends_refl].
  cbv zeta. mwp_step; [mwp_step; apply HQ, extends_refl|].
  mwp_step. mwp_step. destruct (chainNameOf target); [|mwp_step; apply HQ, extends_refl].
  mwp_step. mwp_step. mwp_step. f_call. mwp_step; [mwp_step; apply HQ, extends_refl|].
  cbv zeta. mwp_step. mwp_step; [done|]. f_side.
  destruct r as [wrapHash|e]; [|mwp_step; apply HQ, extends_refl].
  mwp_step. mwp_step; [done|]. f_side.
  destruct r as [wrapBlock|e]; [|mwp_step; apply HQ, extends_refl].
  mwp_step. mwp_step; [done|]. f_side.
  destruct r as [wethBalance|e]; [|mwp_step; apply HQ, extends_refl].
  cbn [recorded].
  assert (Hext : extends s (EvBalanceOf BASE WETH_Base wallet (Ok wethBalance) :: s))
    by apply extends_read.
  mwp_step. apply requestBridgeQuote_flow; [done| |].
  { cbn. rewrite Hnone. unfold or_str. by destruct (truthy_str (Some wallet)). }
  intros r.
  repeat (first [f_call | mwp_step]; f_side); by apply HQ.
Qed.

Lemma gas_guard_flow src ethBalance (Q : Res (option CycleEnd) -> Trace -> Prop) s :
  last_swap s = None ->
  (forall r s', extends s s' -> Q r s') ->
  mwp FM (gas_guard W wallet src ethBalance) Q s.
Proof.
  intros Hnone HQ. unfold gas_guard. cbv zeta.
  mwp_step; [|mwp_step; apply HQ, extends_refl].
  mwp_step. apply bridgeETHForGas_flow; [done|]. intros ok s' Hext.
  mwp_step; [|mwp_step; by apply HQ].
  repeat (mwp_step; f_side); by apply HQ.
Qed.


(** What the selection returns comes from an entry of the snapshot. *)
Lemma findTokenBalanceOnChains_picked balances sym cand :
  findTokenBalanceOnChains balances sym = Ok (Some cand) ->
  symbol cand = sym /\
  exists cd e,
    balances !! sourceChainId cand = Some cd /\ tokens cd !! sym = Some e /\
    te_balance e = Some (balance cand) /\ minAmountOf sym <= balance cand /\
    tokenAddress cand = te_address e.
Proof.
  unfold findTokenBalanceOnChains. intros Hfind.
  pose proof (scan_fold sym (Object_entries balances) None) as H.
  destruct (fold_left _ _ _) as [r|]; [|done].
  destruct (chainNameOf _); [|done]. injection Hfind as <-. cbn.
  destruct H as ([?|(cd & e & Hin & He & Hb & Herr & Hmin & Hr)] & _); [done|].
  apply elem_of_Object_entries in Hin. split; [done|].
  exists cd, e. repeat split; try done. by rewrite Hr.
Qed.

Lemma findBestTokenToBridge_picked balances bestToken :
  findBestTokenToBridge balances = Ok bestToken ->
  (symbol bestToken = "WETH" \/ symbol bestToken = "USDC") /\
  exists cd e,
    balances !! sourceChainId bestToken = Some cd /\
    tokens cd !! symbol bestToken = Some e /\
    te_balance e = Some (balance bestToken) /\
    minAmountOf (symbol bestToken) <= balance bestToken /\
    tokenAddress bestToken = te_address e.
Proof.
  unfold findBestTokenToBridge. intros Hbest.
  destruct (findTokenBalanceOnChains balances "WETH") as [[w|]|] eqn:Hw; [| |done].
  - injection Hbest as <-. cbn.
    destruct (findTokenBalanceOnChains_picked _ _ _ Hw) as [-> H]. by split; [left|].
  - destruct (findTokenBalanceOnChains balances "USDC") as [[u|]|] eqn:Hu; [|done|done].
    injection Hbest as <-. cbn.
    destruct (findTokenBalanceOnChains_picked _ _ _ Hu) as [-> H]. by split; [right|].
Qed.

Lemma checked_output resp swapQuote checked :
  quote_of resp = Some swapQuote -> check_amount swapQuote = Ok checked ->
  quoted_output resp = Some (standard_toAmount checked).
Proof.
  destruct resp as [[q|]|]; try done. cbn. intros [= <-].
  unfold check_amount, normalize_quote, standard_toAmount.
  destruct q as [tx toAmount dstAmount amount toToken dstToken toTokenAddress dst].
  destruct toAmount, dstAmount, amount, dstToken; cbn; by intros [= <-].
Qed.

(** After the swap. *)
Lemma bridge_after_swap_flow cw bestToken swapTargetSymbol toAmount toToken
    asked resp sym (Q : Res CycleEnd -> Trace -> Prop) s :
  last_swap s = Some (asked, resp) ->
  sp_chainId asked = sourceChainId bestToken ->
  sym = "WETH" \/ sym = "USDC" ->
  swapTargetSymbol = TARGET_TOKENS sym ->
  Registry.tokenAddress (sourceChainId bestToken) (Some sym) = Ok (sp_src asked) ->
  quoted_output resp = Some toAmount ->
  (forall r, Q r s) ->
  mwp FM (bridge_after_swap W wallet config cw bestToken swapTargetSymbol
            toAmount toToken) Q s.
Proof.
  intros Hlast Hchain Hsym -> Hsrc Hout HQ. unfold bridge_after_swap. cbv zeta.
  mwp_step. apply findDestinationChain_history; [done| |intros ?; apply HQ]. intros d Hd Hne.
  mwp_step. mwp_step. destruct (fix_toToken _ _ _) as [fixed|e]; [|apply HQ].
  mwp_step. mwp_step.
  assert (Hdest : TARGET_TOKENS sym ≫= TARGET_TOKENS = Some sym)
    by (by destruct Hsym as [-> | ->]).
  rewrite Hdest.
  destruct (Registry.tokenAddress d (Some sym)) as [destinationCurrency|e] eqn:Hcur;
    [|apply HQ].
  mwp_step. apply requestBridgeQuote_flow.
  { cbn. by eapply registry_address_truthy. }
  { cbn. rewrite Hlast. unfold or_str at 1.
    split; [done|]. split; [by destruct (truthy_str (Some wallet))|]. cbn.
    split; [by rewrite Hchain|]. split; [done|]. split; [by rewrite Hchain|].
    split; [exists sym; by rewrite Hchain|]. split; [done|].
    unfold or_str. destruct (truthy_str (SLIPPAGE_TOLERANCE config)) eqn:Hs; cbn.
    - rewrite Hs. by destruct (SLIPPAGE_TOLERANCE config).
    - done. }
  intros r.
  repeat (first [f_call | mwp_step]; f_side); apply HQ.
Qed.

Lemma swap_and_bridge_flow cw bestToken swapTargetSymbol swapQuote tx ethBalance
    asked resp sym (Q : Res CycleEnd -> Trace -> Prop) s :
  last_swap s = Some (asked, resp) ->
  sp_chainId asked = sourceChainId bestToken ->
  sym = "WETH" \/ sym = "USDC" ->
  swapTargetSymbol = TARGET_TOKENS sym ->
  Registry.tokenAddress (sourceChainId bestToken) (Some sym) = Ok (sp_src asked) ->
  quoted_output resp = Some (standard_toAmount swapQuote) ->
  (forall r, Q r s) ->
  mwp FM (swap_and_bridge W wallet config cw bestToken swapTargetSymbol swapQuote
            tx ethBalance) Q s.
Proof.
  intros Hlast Hchain Hsym Htarget Hsrc Hout HQ. unfold swap_and_bridge.
  repeat (first [ apply executeSwap_flow; [intros ?|intros ?]
                | eapply bridge_after_swap_flow; [done|done|done|done|done|done|intros ?]
                | f_call | mwp_step ]; f_side);
    apply HQ.
Qed.

Lemma executeBridgeCycle_flow (Q : Res CycleEnd -> Trace -> Prop) s :
  last_swap s = None ->
  (forall r s', Q r s') ->
  mwp FM (executeBridgeCycle W wallet config) Q s.
Proof.
  intros Hnone HQ. unfold executeBridgeCycle.
  mwp_step. apply snapshot_history; [by intros ? []|]. intros balances s1 Hext1 Hsnap.
  mwp_step. mwp_step.
  destruct (findBestTokenToBridge balances) as [bestToken|e] eqn:Hbest; [|apply HQ].
  destruct (findBestTokenToBridge_picked _ _ Hbest)
    as (Hsym & cd & e & Hcd & He & Hbal & Hmin & Haddr).
  destruct (Hsnap _ _ _ _ _ Hcd Hsym He Hbal) as (Hsup & address & Hreg & Hentry & Hread).
  mwp_step. mwp_step. mwp_step; [|apply HQ].
  mwp_step; [mwp_step; apply HQ|].
  cbv zeta. mwp_step. f_call. mwp_step; [mwp_step; apply HQ|].
  mwp_step. mwp_step; [done|]. f_side. mwp_step; [|apply HQ].
  mwp_step. apply gas_guard_flow; [by rewrite (proj1 Hext1)|]. intros stop s2 Hext2.
  destruct stop as [[stop|]|err]; [mwp_step; apply HQ| |apply HQ].
  mwp_step. mwp_step.
  destruct (Registry.tokenAddress _ (TARGET_TOKENS _)) as [swapTargetAddress|err] eqn:Hdst;
    [|apply HQ].
  mwp_step. apply getQuote_flow.
  { by rewrite (proj1 Hext2), (proj1 Hext1). }
  { split; [done|]. split; [done|]. exists (symbol bestToken), address. cbn.
    repeat split; try done; [congruence|]. by apply (proj2 Hext2). }
  intros resp.
  destruct (quote_of resp) as [swapQuote|] eqn:Hquote; [|mwp_step; apply HQ].
  mwp_step; [|mwp_step; apply HQ].
  mwp_step. mwp_step.
  destruct (check_amount swapQuote) as [checked|err] eqn:Hchecked; [|apply HQ].
  pose proof (checked_output _ _ _ Hquote Hchecked) as Hout.
  repeat (first [ eapply (swap_and_bridge_flow _ _ _ _ _ _ _ resp (symbol bestToken));
                    [done|done|done|done|cbn; congruence|done|intros ?]
                | f_call | mwp_step ]; f_side);
    apply HQ.
Qed.

Lemma executeBridgeCycle_flow_holds :
  mon_holds FM (executeBridgeCycle W wallet config []).2.
Proof.
  by destruct (executeBridgeCycle_flow (fun _ _ => True) [] eq_refl (fun _ _ => I)
                 [] I eq_refl).
Qed.


(** X11: the bridge cycle asks 1inch at most once, and then to sell, for
    the wallet itself, the whole balance of WETH or USDC that its snapshot
    read on the chain of the request, a balance that reaches the minimum
    bridge amount, against the other of the two tokens on that chain. *)
Theorem cycle_swaps_whole_balance (later earlier : Trace) (p : SwapParams)
    (r : Res (option QuoteData)) :
  (executeBridgeCycle W wallet config []).2 = later ++ EvSwapQuote p r :: earlier ->
  last_swap earlier = None /\ sells_whole_balance wallet earlier p.
Proof.
  intros Htrace. pose proof executeBridgeCycle_flow_holds as Hh.
  rewrite Htrace in Hh. apply mon_holds_suffix in Hh. destruct Hh as [[Hnone Hok] _].
  unfold flow_monitor in Hnone, Hok. rewrite history_state in Hnone, Hok. rewrite last_swap_recorded in Hnone.
  split; [done|].
  destruct Hok as (Hfrom & Hrecv & sym & address & Hsym & Hsrc & Hp & Hdst & Hmin & Hread).
  split; [done|]. split; [done|]. exists sym, address.
  repeat split; try done. by apply elem_of_recorded.
Qed.

(** X12: every quote request the bridge cycle sends to Relay is made for the
    wallet itself.  After the swap it bridges the output amount that the
    1inch response stated, from the chain of the swap to another supported
    chain, asking there for the token that the swap sold, with the
    configured slippage or 0.5; before the swap it can only be the request
    of the gas rescue, 0.001 WETH of Base against native currency. *)
Theorem cycle_bridges_swap_output (later earlier : Trace) (p : RelayQuoteParams)
    (r : Res (Z * BridgeQuote)) :
  (executeBridgeCycle W wallet config []).2 = later ++ EvRelayQuote p r :: earlier ->
  bridges_swap_output wallet config (last_swap earlier) p.
Proof.
  intros Htrace. pose proof executeBridgeCycle_flow_holds as Hh.
  rewrite Htrace in Hh. apply mon_holds_suffix in Hh. destruct Hh as [Hok _].
  unfold flow_monitor in Hok. cbn [mon_ok history_monitor] in Hok.
  by rewrite history_state, last_swap_recorded in Hok.
Qed.

End FlowPass.

Lemma cycle_swaps_whole_balance_witness :
  calm_trace = take 19 calm_trace ++
               EvSwapQuote calm_swap_request (Ok (Some oneinch_answer)) ::
               drop 20 calm_trace /\
  last_swap (drop 20 calm_trace) = None /\
  sells_whole_balance calm_wallet (drop 20 calm_trace) calm_swap_request.
Proof.
  assert (H : calm_trace = take 19 calm_trace ++
                EvSwapQuote calm_swap_request (Ok (Some oneinch_answer)) ::
                drop 20 calm_trace) by (vm_compute; reflexivity).
  split; [exact H|].
  exact (cycle_swaps_whole_balance calm_world calm_wallet (Script.mkConfig None)
           (take 19 calm_trace) (drop 20 calm_trace) calm_swap_request
           (Ok (Some oneinch_answer)) H).
Defined.

Lemma cycle_bridges_swap_output_witness :
  calm_trace = take 8 calm_trace ++
               EvRelayQuote calm_relay_request (Ok (200, relay_answer)) ::
               drop 9 calm_trace /\
  bridges_swap_output calm_wallet (Script.mkConfig None)
    (last_swap (drop 9 calm_trace)) calm_relay_request.
Proof.
  assert (H : calm_trace = take 8 calm_trace ++
                EvRelayQuote calm_relay_request (Ok (200, relay_answer)) ::
                drop 9 calm_trace) by (vm_compute; reflexivity).
  split; [exact H|].
  exact (cycle_bridges_swap_output calm_world calm_wallet (Script.mkConfig None)
           (take 8 calm_trace) (drop 9 calm_trace) calm_relay_request
           (Ok (200, relay_answer)) H).
Defined.

(** ** Token alternation along the cycle *)

Section Alternation.
Import BridgeService Script.







End Alternation.


(** ** The legacy flow of the service *)

Section LegacyFlow.
Import EthereumUtils BridgeService.
Variable W : World.
Variable wallet : string.

Local Abbreviation LM := (legacy_monitor wallet).

Ltac l_side :=
  lazymatch goal with
  | |- mon_ok _ _ _ => cbn; try done
  | |- _ => cbn [mon_step legacy_monitor history_monitor recorded]
  end.

Lemma executeBridgeTransaction_legacy w quote (Q : Res BridgeResult -> Trace -> Prop) s :
  (forall r, Q r s) -> mwp LM (executeBridgeTransaction W w quote) Q s.
Proof. intros HQ. unfold executeBridgeTransaction. repeat (mwp_step; l_side); apply HQ. Qed.

Lemma checkBridgeStatus_legacy requestId (Q : Res (option string) -> Trace -> Prop) s :
  (forall r, Q r s) -> mwp LM (checkBridgeStatus W requestId) Q s.
Proof. intros HQ. unfold checkBridgeStatus. repeat (mwp_step; l_side); apply HQ. Qed.

Lemma bridgeTokens_legacy (Q : Res BridgeFlow -> Trace -> Prop) s :
  (forall r s', Q r s') -> mwp LM (bridgeTokens W wallet) Q s.
Proof.
  intros HQ. unfold bridgeTokens.
  mwp_step. apply snapshot_history; [by intros ? []|]. intros balances s1 Hext1 Hsnap.
  mwp_step. mwp_step.
  destruct (findBestTokenToBridge balances) as [best|e] eqn:Hbest; [|apply HQ].
  destruct (legacy_selection_spec _ _ Hbest)
    as ((cd & e & Hcd & He & Hbal & Herr & Haddr) & Hpos & _ & Hsym & _).
  assert (Hsym' : bt_symbol best = "WETH" \/ bt_symbol best = "USDC")
    by (destruct Hsym as [? | [? _]]; auto).
  destruct (Hsnap _ _ _ _ _ Hcd Hsym' He Hbal) as (Hsup & address & Hreg & Hentry & Hread).
  mwp_step. apply findDestinationChain_history; [done| |intros ?; apply HQ].
  intros d Hd Hne.
  cbv zeta. mwp_step. mwp_step. destruct (decimals_of _ _ _); [|apply HQ].
  mwp_step. mwp_step. destruct (formatUnits_checked _ _ _); [|apply HQ].
  mwp_step. unfold requestBridgeQuote, RelayService.requestQuote. cbn [bp_destinationCurrency
    bp_targetSymbol bp_symbol truthy_str bp_destinationChainId].
  destruct (tokenAddress_supported d (Some (bt_symbol best)) Hd) as [cur Hcur].
  rewrite Hcur.
  mwp_step. mwp_step. mwp_step. cbv zeta. mwp_step.
  { cbn. unfold or_str.
    split; [done|]. split; [by destruct (truthy_str (Some wallet))|].
    split; [done|]. split; [done|]. split; [done|]. split; [done|].
    exists (bt_symbol best), address, (bt_balance best).
    split; [tauto|]. split; [done|]. split; [cbn; congruence|]. by repeat split. }
  l_side.
  repeat (first [ apply executeBridgeTransaction_legacy; intros ?
                | apply checkBridgeStatus_legacy; intros ?
                | mwp_step ]; l_side);
    apply HQ.
Qed.

Lemma bridgeTokens_legacy_holds : mon_holds LM (bridgeTokens W wallet []).2.
Proof.
  by destruct (bridgeTokens_legacy (fun _ _ => True) [] (fun _ _ => I) [] I eq_refl).
Qed.

(** X14: the quote request of [bridgeTokens] asks Relay, for the wallet
    itself and with slippage 0.5, to bridge half of a positive USDC or WETH
    balance that the snapshot read, from the supported chain that holds it
    to the same token on another supported chain. *)
Theorem legacy_flow_bridges_half_balance (later earlier : Trace) (p : RelayQuoteParams)
    (r : Res (Z * BridgeQuote)) :
  (bridgeTokens W wallet []).2 = later ++ EvRelayQuote p r :: earlier ->
  bridges_half_balance wallet earlier p.
Proof.
  intros Htrace. pose proof bridgeTokens_legacy_holds as Hh.
  rewrite Htrace in Hh. apply mon_holds_suffix in Hh. destruct Hh as [Hok _].
  unfold legacy_monitor in Hok. cbn [mon_ok history_monitor] in Hok.
  rewrite history_state in Hok.
  destruct Hok as (? & ? & ? & ? & ? & ? & sym & address & b & ? & ? & ? & ? & Hread & ? & ?).
  repeat (split; [done|]). exists sym, address, b.
  repeat (split; [done|]). split; [by apply elem_of_recorded|done].
Qed.

Lemma legacy_no_price tr : mon_holds LM tr -> Forall (fun ev => is_price ev = false) tr.
Proof.
  induction tr as [|ev tr IH]; [constructor|]. intros [Hok Hh].
  constructor; [|by apply IH]. by destruct ev.
Qed.

(** X15: [bridgeTokens] never queries the gas price.  It submits at most one
    transaction, and returns only after Relay answered its request with
    status 200 and the deposit of that answer, the quote it returns, was
    mined, sent through the provider built from the chain id of its
    payload. *)
Theorem legacy_flow_is_not_gated :
  let run := bridgeTokens W wallet [] in
  Forall (fun ev => is_price ev = false) run.2 /\
  (length (submissions run.2) <= 1)%nat /\
  forall flow, run.1 = Ok flow ->
    exists request payload hash blockNumber,
      let c := rpcProvider (tx_chainId payload) in
      ledger run.2 = [EvWait c hash (Ok blockNumber);
                      EvSubmit c wallet (deposit_request payload) (Ok hash);
                      EvRelayQuote request (Ok (200, bf_quoteResponse flow))] /\
      deposit_payload (bf_quoteResponse flow) = Some payload.
Proof.
  cbv zeta. split; [apply legacy_no_price, bridgeTokens_legacy_holds|].
  destruct (ledger_run (bridgeTokens W wallet) _ [] (bridgeTokens_ledger W wallet []))
    as (new & Hnew & Hlen & Hflow).
  cbn in Hnew. rewrite app_nil_r in Hnew.
  split; [by rewrite <- submissions_ledger, Hnew|].
  intros flow Hflow'. rewrite Hnew. by eapply Hflow.
Qed.

End LegacyFlow.

Lemma legacy_flow_bridges_half_balance_witness :
  legacy_trace = take 3 legacy_trace ++
                 EvRelayQuote legacy_request (Ok (200, relay_answer)) ::
                 drop 4 legacy_trace /\
  bridges_half_balance calm_wallet (drop 4 legacy_trace) legacy_request.
Proof.
  assert (H : legacy_trace = take 3 legacy_trace ++
                EvRelayQuote legacy_request (Ok (200, relay_answer)) ::
                drop 4 legacy_trace) by (vm_compute; reflexivity).
  split; [exact H|].
  exact (legacy_flow_bridges_half_balance calm_world calm_wallet
           (take 3 legacy_trace) (drop 4 legacy_trace) legacy_request
           (Ok (200, relay_answer)) H).
Defined.

(** ** Wallet files *)

Section Wallets.
Import WalletManager.

Lemma assoc_app_new {V} (k : string) (l : list (string * V)) (v : V) :
  assoc k (l ++ [(k, v)]) = Some (default v (assoc k l)).
Proof.
  unfold assoc. induction l as [|[k' v'] l IH]; cbn.
  - by rewrite String.eqb_refl.
  - destruct (String.eqb k' k); [done|]. exact IH.
Qed.

Lemma assoc_app_other {V} (k k' : string) (l : list (string * V)) (v : V) :
  is_Some (assoc k l) -> assoc k (l ++ [(k', v)]) = assoc k l.
Proof.
  unfold assoc. induction l as [|[k0 v0] l IH]; cbn.
  - by intros [? [=]].
  - destruct (String.eqb k0 k); [done|]. exact IH.
Qed.

Lemma truthy_is_Some v : truthy v = true -> is_Some v.
Proof. destruct v; [eauto|done]. Qed.

Lemma validate_wallet_spec index wallet :
  match validate_wallet index wallet with
  | Ok w => complete wallet = true /\ w = activated wallet /\ loaded w
  | Throw msg =>
      complete wallet = false /\
      (wallet = JNull \/ msg = "Invalid wallet data at index " +:+ pretty index)
  end.
Proof.
  unfold validate_wallet, activated, loaded, complete.
  destruct wallet as [| | | | |fields]; cbn; try by (split; [done|right]).
  { by split; [|left]. }
  destruct (truthy (assoc "address" fields)) eqn:Ha; cbn; [|by split; [|right]].
  destruct (truthy (assoc "privateKey" fields)) eqn:Hk; cbn; [|by split; [|right]].
  destruct (assoc "active" fields) as [active|] eqn:Hact; cbn.
  - rewrite Ha, Hk, Hact. by eauto.
  - rewrite !assoc_app_other by (by apply truthy_is_Some).
    rewrite Ha, Hk, assoc_app_new, Hact. by eauto.
Qed.

Lemma validate_spec wallets : forall index,
  match validate index wallets with
  | Ok ws =>
      Forall (fun w => complete w = true) wallets /\ ws = activated <$> wallets /\
      Forall loaded ws
  | Throw msg =>
      exists i wallet,
        wallets !! i = Some wallet /\ complete wallet = false /\
        (forall j w, (j < i)%nat -> wallets !! j = Some w -> complete w = true) /\
        (wallet = JNull \/
         msg = "Invalid wallet data at index " +:+ pretty (index + i)%nat)
  end.
Proof.
  induction wallets as [|wallet rest IH]; intros index; cbn [validate].
  - by repeat split.
  - pose proof (validate_wallet_spec index wallet) as Hw.
    destruct (validate_wallet index wallet) as [w|msg].
    + destruct Hw as (Hc & -> & Hl). specialize (IH (S index)).
      destruct (validate (S index) rest) as [ws|msg].
      * destruct IH as (Hall & -> & Hloaded). by repeat split; try constructor.
      * destruct IH as (i & w' & Hi & Hbad & Hbefore & Hmsg).
        exists (S i), w'. split; [done|]. split; [done|]. split.
        -- intros [|j] w'' Hj Hw''; [by injection Hw'' as <-|].
           eapply Hbefore; [|done]. lia.
        -- by rewrite Nat.add_succ_r.
    + destruct Hw as [Hbad Hmsg]. exists 0%nat, wallet.
      split; [done|]. split; [done|]. split; [intros; lia|]. by rewrite Nat.add_0_r.
Qed.

(** X17: the wallets [loadWallets] returns are the wallets of the file, in
    order, each an object with a truthy address and private key and with a
    defined [active] property, which is [true] where the file gave none and
    the value of the file otherwise; there is at least one. *)
Theorem loaded_wallets_are_complete (WALLET_FILE : option string) (fs : Files)
    (ws : list Json) :
  loadWallets WALLET_FILE fs = Ok ws ->
  ws <> [] /\ Forall loaded ws /\
  exists wallets,
    fs (default "wallets.json" (or_str WALLET_FILE (Some "wallets.json"))) =
      Some (Ok (JArray wallets)) /\
    Forall (fun w => complete w = true) wallets /\
    ws = activated <$> wallets.
Proof.
  unfold loadWallets. cbv zeta.
  destruct (fs _) as [[[| | | |wallets|]|]|]; try done.
  destruct wallets as [|wallet rest] eqn:Hl; [done|]. rewrite <- Hl.
  pose proof (validate_spec wallets 0) as H.
  destruct (validate 0 wallets) as [ws'|]; [|done].
  destruct H as (Hall & Hws & Hloaded). intros [= <-].
  split; [by rewrite Hws, Hl|]. split; [done|]. by exists wallets.
Qed.

Lemma loaded_wallets_are_complete_witness :
  loadWallets None two_wallets = Ok [activated wallet_one; wallet_two] /\
  [activated wallet_one; wallet_two] <> [] /\
  Forall loaded [activated wallet_one; wallet_two] /\
  exists wallets,
    two_wallets (default "wallets.json" (or_str None (Some "wallets.json"))) =
      Some (Ok (JArray wallets)) /\
    Forall (fun w => complete w = true) wallets /\
    [activated wallet_one; wallet_two] = activated <$> wallets.
Proof.
  assert (H : loadWallets None two_wallets = Ok [activated wallet_one; wallet_two])
    by (vm_compute; reflexivity).
  split; [exact H|].
  exact (loaded_wallets_are_complete None two_wallets _ H).
Defined.

(** X18: when the wallet file holds an array in which some wallet other
    than [null] lacks a truthy address or private key while all wallets
    before it are complete, [loadWallets] throws "Invalid wallet data at
    index i" for the index of that wallet, however many wallets follow. *)
Theorem first_incomplete_wallet_is_reported (WALLET_FILE : option string) (fs : Files)
    (wallets : list Json) (i : nat) (wallet : Json) :
  fs (default "wallets.json" (or_str WALLET_FILE (Some "wallets.json"))) =
    Some (Ok (JArray wallets)) ->
  wallets !! i = Some wallet -> complete wallet = false -> wallet <> JNull ->
  (forall j w, (j < i)%nat -> wallets !! j = Some w -> complete w = true) ->
  loadWallets WALLET_FILE fs = Throw ("Invalid wallet data at index " +:+ pretty i).
Proof.
  intros Hfile Hi Hbad Hnull Hbefore. unfold loadWallets. cbv zeta. rewrite Hfile.
  destruct wallets as [|w0 rest] eqn:Hl; [done|]. rewrite <- Hl in *.
  pose proof (validate_spec wallets 0) as H.
  destruct (validate 0 wallets) as [ws|msg].
  - destruct H as (Hall & _). rewrite Forall_lookup in Hall.
    specialize (Hall _ _ Hi). cbn in Hall. congruence.
  - destruct H as (i' & w' & Hi' & Hbad' & Hbefore' & Hmsg).
    assert (i' = i) as ->.
    { destruct (Nat.lt_trichotomy i' i) as [Hlt | [-> | Hgt]]; [|done|].
      - specialize (Hbefore _ _ Hlt Hi'). congruence.
      - specialize (Hbefore' _ _ Hgt Hi). congruence. }
    assert (w' = wallet) as -> by congruence.
    destruct Hmsg as [-> | ->]; done.
Qed.

Lemma first_incomplete_wallet_is_reported_witness :
  broken_wallets (default "wallets.json" (or_str None (Some "wallets.json"))) =
    Some (Ok (JArray [wallet_one; wallet_two; wallet_without_key])) /\
  [wallet_one; wallet_two; wallet_without_key] !! 2%nat = Some wallet_without_key /\
  complete wallet_without_key = false /\ wallet_without_key <> JNull /\
  loadWallets None broken_wallets = Throw "Invalid wallet data at index 2".
Proof.
  assert (H1 : broken_wallets (default "wallets.json" (or_str None (Some "wallets.json"))) =
                 Some (Ok (JArray [wallet_one; wallet_two; wallet_without_key])))
    by reflexivity.
  assert (H2 : [wallet_one; wallet_two; wallet_without_key] !! 2%nat =
                 Some wallet_without_key) by reflexivity.
  assert (H3 : complete wallet_without_key = false) by reflexivity.
  assert (H4 : wallet_without_key <> JNull) by discriminate.
  assert (H5 : forall j w, (j < 2)%nat ->
                 [wallet_one; wallet_two; wallet_without_key] !! j = Some w ->
                 complete w = true).
  { intros [|[|j]] w Hj; [by intros [= <-]|by intros [= <-]|lia]. }
  split; [exact H1|]. split; [exact H2|]. split; [exact H3|]. split; [exact H4|].
  exact (first_incomplete_wallet_is_reported None broken_wallets
           [wallet_one; wallet_two; wallet_without_key] 2 wallet_without_key
           H1 H2 H3 H4 H5).
Defined.

End Wallets.

(** ** The main loop *)

Section MainLoop.
Import WalletManager Script.
Variable W : World.
Hypothesis random_in_range : forall t, 0 <= Math_random W t < 2 ^ 53.

Lemma floor_random_range r n :
  0 <= r < 2 ^ 53 -> 0 < n -> 0 <= floor_random r n < n.
Proof.
  intros Hr Hn. unfold floor_random. split.
  - apply Z.div_pos; lia.
  - apply Z.div_lt_upper_bound; [lia|]. nia.
Qed.

Lemma cycle_in_main_returns address config tr :
  exists message, (cycle_in_main W address config tr).1 = Ok message.
Proof.
  unfold cycle_in_main, try_catch, bind, ret.
  destruct (executeBridgeCycle W address config tr) as [[e|msg] tr']; cbn; eauto.
Qed.

Lemma filter_active_spec wallets active :
  filter_active wallets = Ok active ->
  forall w, w ∈ active <-> w ∈ wallets /\ exists a, get "active" w = Ok a /\ truthy a = true.
Proof.
  revert active. induction wallets as [|wallet rest IH]; intros active; cbn.
  - intros [= <-] w. split; [by intros ?%elem_of_nil|by intros [?%elem_of_nil _]].
  - destruct (get "active" wallet) as [a|] eqn:Ha; [|done].
    destruct (filter_active rest) as [rest'|]; [|done].
    specialize (IH _ eq_refl). intros [= <-] w.
    destruct (truthy a) eqn:Ht.
    + rewrite !elem_of_cons, IH. split.
      * intros [-> | [Hin Hact]]; [split; [by left|eauto]|split; [by right|done]].
      * intros [[-> | Hin] Hact]; [by left|by right].
    + rewrite elem_of_cons, IH. split.
      * intros [Hin Hact]. split; [by right|done].
      * intros [[-> | Hin] (a' & Ha' & Ht')]; [congruence|eauto].
Qed.

(** One turn, step by step. *)
Lemma main_iteration_run start wallets config active tr :
  filter_active wallets = Ok active -> active <> [] ->
  exists wallet,
    wallet ∈ active /\
    let tr1 := EvRandom (Math_random W (length tr)) :: tr in
    match get "privateKey" wallet with
    | Ok privateKey =>
        match wallet_address start privateKey with
        | Ok address =>
            let tr2 := (cycle_in_main W address (cycle_config config) tr1).2 in
            exists ms,
              main_iteration W start wallets config tr =
                (Ok tt, EvSleep ms :: EvRandom (Math_random W (length tr2)) :: tr2) /\
              (REPEAT_INTERVAL_MIN config <= REPEAT_INTERVAL_MAX config ->
               REPEAT_INTERVAL_MIN config * 60 * 1000 <= ms <=
                 REPEAT_INTERVAL_MAX config * 60 * 1000)
        | Throw e => main_iteration W start wallets config tr = (Throw e, tr1)
        end
    | Throw e => main_iteration W start wallets config tr = (Throw e, tr1)
    end.
Proof.
  intros Hact Hne.
  destruct active as [|w0 rest] eqn:Hl; [done|]. rewrite <- Hl in *. clear Hne.
  assert (Hlen : (0 < length active)%nat) by (rewrite Hl; cbn; lia).
  pose proof (floor_random_range _ (Z.of_nat (length active))
                (random_in_range (length tr)) ltac:(lia)) as Hi.
  destruct (lookup_lt_is_Some_2 active
              (Z.to_nat (floor_random (Math_random W (length tr))
                           (Z.of_nat (length active)))) ltac:(lia)) as [wallet Hw].
  exists wallet. split; [by eapply list_elem_of_lookup_2|]. cbv zeta.
  set (tr1 := EvRandom (Math_random W (length tr)) :: tr).
  assert (Hrun : main_iteration W start wallets config tr =
    (privateKey <- lift (get "privateKey" wallet) ;
     address <- lift (wallet_address start privateKey) ;
     cycle_in_main W address (cycle_config config) ;;
     let minInterval := REPEAT_INTERVAL_MIN config * 60 * 1000 in
     let maxInterval := REPEAT_INTERVAL_MAX config * 60 * 1000 in
     r <- call (fun t => Ok (Math_random W t))
               (fun r => EvRandom (match r with Ok x => x | Throw _ => 0 end)) ;
     let waitTime := floor_random r (maxInterval - minInterval + 1) + minInterval in
     call (fun _ => Ok tt) (fun _ => EvSleep waitTime))%js tr1).
  { unfold main_iteration. unfold bind at 1. unfold lift at 1. rewrite Hact.
    replace (length active =? 0)%nat with false by (symmetry; apply Nat.eqb_neq; lia).
    unfold bind at 1. unfold call at 1. cbv zeta.
    replace (floor_random (Math_random W (length tr)) (Z.of_nat (length active)) <? 0)
      with false by (symmetry; apply Z.ltb_ge; lia).
    by rewrite Hw. }
  rewrite Hrun. clear Hrun.
  destruct (get "privateKey" wallet) as [privateKey|e]; [|reflexivity].
  unfold bind, lift. cbv beta iota.
  destruct (wallet_address start privateKey) as [address|e]; [|reflexivity].
  destruct (cycle_in_main_returns address (cycle_config config) tr1) as [message Hm].
  unfold bind, lift, call. cbv zeta.
  destruct (cycle_in_main W address (cycle_config config) tr1) as [res tr2] eqn:Hcycle.
  cbn in Hm. subst res. cbn [snd].
  eexists. split; [reflexivity|].
  intros Hle.
  pose proof (floor_random_range (Math_random W (length tr2))
                (REPEAT_INTERVAL_MAX config * 60 * 1000 -
                 REPEAT_INTERVAL_MIN config * 60 * 1000 + 1)
                (random_in_range _) ltac:(lia)) as Hwait.
  lia.
Qed.

Lemma loadWallets_loaded WALLET_FILE fs ws :
  loadWallets WALLET_FILE fs = Ok ws -> ws <> [] /\ Forall loaded ws.
Proof.
  unfold loadWallets. cbv zeta.
  destruct (fs _) as [[[| | | |wallets|]|]|]; try done.
  destruct wallets as [|wallet rest] eqn:Hl; [done|]. rewrite <- Hl.
  pose proof (validate_spec wallets 0) as H.
  destruct (validate 0 wallets) as [ws'|]; [|done].
  destruct H as (Hall & Hws & Hloaded). intros [= <-].
  split; [by rewrite Hws, Hl|done].
Qed.

Lemma loaded_get wallet :
  loaded wallet ->
  (exists a, get "active" wallet = Ok (Some a)) /\
  exists key, get "privateKey" wallet = Ok (Some key).
Proof.
  intros [Hc Ha]. split; [done|]. unfold complete in Hc.
  destruct wallet as [| | | | |fields]; try done. cbn.
  apply andb_prop in Hc as [_ Hk].
  destruct (assoc "privateKey" fields); [eauto|done].
Qed.

Lemma filter_active_loaded wallets :
  Forall loaded wallets -> exists active, filter_active wallets = Ok active.
Proof.
  induction 1 as [|wallet rest Hw _ [active IH]]; cbn; [eauto|].
  destruct (loaded_get _ Hw) as [[a ->] _]. rewrite IH. eauto.
Qed.

(** The start-up of [main] when the configuration and the wallets load. *)
Lemma main_run start config wallets turns tr :
  loadConfig start = Ok config ->
  loadWallets (WALLET_FILE start) (files start) = Ok wallets ->
  main W turns start tr =
    match main_loop W turns start wallets config tr with
    | (Ok _, tr') => (Ok None, tr')
    | (Throw message, tr') => (Ok (Some message), tr')
    end.
Proof.
  intros Hc Hw. destruct (loadWallets_loaded _ _ _ Hw) as [Hne _].
  unfold main, try_catch, bind, lift, ret, throw. rewrite Hc, Hw.
  destruct wallets; [done|]. cbn [length Nat.eqb].
  by destruct (main_loop W turns start _ config tr) as [[?|?] ?].
Qed.

Lemma main_loop_runs start wallets config active :
  filter_active wallets = Ok active -> active <> [] ->
  (forall wallet, wallet ∈ active ->
     exists key address,
       get "privateKey" wallet = Ok key /\ wallet_address start key = Ok address) ->
  forall turns tr, (main_loop W turns start wallets config tr).1 = Ok tt.
Proof.
  intros Hact Hne Hkeys turns.
  induction turns as [|turns IH]; intros tr; [done|]. cbn [main_loop].
  destruct (main_iteration_run start wallets config active tr Hact Hne)
    as (wallet & Hin & Hrun).
  destruct (Hkeys _ Hin) as (key & address & Hk & Ha).
  cbv zeta in Hrun. rewrite Hk, Ha in Hrun. destruct Hrun as (ms & Hrun & _).
  unfold bind at 1. rewrite Hrun. apply IH.
Qed.

End MainLoop.

(** X19: with [Math.random()] in [0, 1) and a configured minimum interval
    that does not exceed the maximum, every turn of the main loop that
    completes has ended with a sleep, and the time slept lies between the
    two intervals, both taken in milliseconds. *)
Theorem turn_sleeps_between_the_intervals (W : World) (start : Script.Startup)
    (wallets : list WalletManager.Json) (config : Script.MainConfig) (tr tr' : Trace) :
  (forall t, 0 <= Math_random W t < 2 ^ 53) ->
  Script.REPEAT_INTERVAL_MIN config <= Script.REPEAT_INTERVAL_MAX config ->
  Script.main_iteration W start wallets config tr = (Ok tt, tr') ->
  exists ms earlier,
    tr' = EvSleep ms :: earlier /\
    Script.REPEAT_INTERVAL_MIN config * 60000 <= ms <=
      Script.REPEAT_INTERVAL_MAX config * 60000.
Proof.
  intros Hrandom Hle Hrun.
  destruct (WalletManager.filter_active wallets) as [active|e] eqn:Hact;
    [|by unfold Script.main_iteration, bind, lift in Hrun; rewrite Hact in Hrun].
  destruct active as [|w0 rest] eqn:Hl;
    [by unfold Script.main_iteration, bind, lift in Hrun; rewrite Hact in Hrun|].
  rewrite <- Hl in Hact.
  destruct (main_iteration_run W Hrandom start wallets config active tr Hact
              ltac:(by rewrite Hl)) as (wallet & _ & Hstep).
  cbv zeta in Hstep.
  destruct (WalletManager.get "privateKey" wallet) as [key|]; [|congruence].
  destruct (Script.wallet_address start key) as [address|]; [|congruence].
  destruct Hstep as (ms & Hms & Hbound). rewrite Hms in Hrun.
  injection Hrun as <-. exists ms. eexists. split; [done|].
  specialize (Hbound Hle). lia.
Qed.

Lemma turn_sleeps_between_the_intervals_witness :
  let config := Script.mkMainConfig (Script.mkConfig None) 1 2 in
  let wallets := [activated wallet_one; wallet_two] in
  exists tr',
    Script.main_iteration calm_world calm_startup wallets config [] = (Ok tt, tr') /\
    exists ms earlier, tr' = EvSleep ms :: earlier /\ 1 * 60000 <= ms <= 2 * 60000.
Proof.
  cbv zeta. eexists.
  assert (Hrandom : forall t, 0 <= Math_random calm_world t < 2 ^ 53) by (cbn; lia).
  assert (Hle : Script.REPEAT_INTERVAL_MIN (Script.mkMainConfig (Script.mkConfig None) 1 2)
                <= Script.REPEAT_INTERVAL_MAX (Script.mkMainConfig (Script.mkConfig None) 1 2))
    by (cbn; lia).
  assert (Hrun : Script.main_iteration calm_world calm_startup
                   [activated wallet_one; wallet_two]
                   (Script.mkMainConfig (Script.mkConfig None) 1 2) [] =
                 (Ok tt, (Script.main_iteration calm_world calm_startup
                   [activated wallet_one; wallet_two]
                   (Script.mkMainConfig (Script.mkConfig None) 1 2) []).2))
    by (vm_compute; reflexivity).
  split; [exact Hrun|].
  exact (turn_sleeps_between_the_intervals calm_world calm_startup _ _ [] _
           Hrandom Hle Hrun).
Defined.

(** X20: when the configuration and the wallet file load, some loaded
    wallet is active and the signer accepts the private key of every active
    wallet, [main] never exits: with [Math.random()] in [0, 1), whatever
    the cycles do or throw, after any number of turns the loop is still
    running. *)
Theorem main_survives_every_cycle (W : World) (start : Script.Startup)
    (config : Script.MainConfig) (wallets : list WalletManager.Json)
    (turns : nat) (tr : Trace) :
  (forall t, 0 <= Math_random W t < 2 ^ 53) ->
  Script.loadConfig start = Ok config ->
  WalletManager.loadWallets (Script.WALLET_FILE start) (Script.files start) = Ok wallets ->
  (exists wallet active,
     wallet ∈ wallets /\ WalletManager.get "active" wallet = Ok active /\
     WalletManager.truthy active = true) ->
  (forall wallet active key,
     wallet ∈ wallets -> WalletManager.get "active" wallet = Ok active ->
     WalletManager.truthy active = true ->
     WalletManager.get "privateKey" wallet = Ok key ->
     exists address, Script.wallet_address start key = Ok address) ->
  (Script.main W turns start tr).1 = Ok None.
Proof.
  intros Hrandom Hc Hw (wallet & a & Hin & Ha & Ht) Hkeys.
  rewrite (main_run W start config wallets turns tr Hc Hw).
  destruct (loadWallets_loaded _ _ _ Hw) as [_ Hloaded].
  destruct (filter_active_loaded _ Hloaded) as [active Hact].
  pose proof (filter_active_spec _ _ Hact) as Hspec.
  assert (Hne : active <> []).
  { intros ->. eapply elem_of_nil, Hspec. eauto. }
  pose proof (main_loop_runs W Hrandom start wallets config active Hact Hne) as Hloop.
  destruct (Script.main_loop W turns start wallets config tr) as [[[]|e] tr'] eqn:Hrun; [done|].
  exfalso. enough (Throw e = Ok tt :> Res unit) by done.
  change (Throw e) with ((@Throw unit e, tr').1). rewrite <- Hrun. apply Hloop.
  intros w [Hw' (a' & Ha' & Ht')]%Hspec.
  rewrite Forall_forall in Hloaded.
  destruct (loaded_get w) as [_ [key Hk]]; [by apply Hloaded|].
  destruct (Hkeys w a' (Some key) Hw' Ha' Ht' Hk) as [address Haddr]. eauto.
Qed.

Lemma main_survives_every_cycle_witness :
  (Script.main calm_world 2 calm_startup []).1 = Ok None.
Proof.
  assert (Hrandom : forall t, 0 <= Math_random calm_world t < 2 ^ 53) by (cbn; lia).
  assert (Hw : WalletManager.loadWallets (Script.WALLET_FILE calm_startup)
                 (Script.files calm_startup) = Ok [activated wallet_one; wallet_two])
    by (vm_compute; reflexivity).
  assert (Hactive : exists wallet active,
            wallet ∈ [activated wallet_one; wallet_two] /\
            WalletManager.get "active" wallet = Ok active /\
            WalletManager.truthy active = true).
  { exists (activated wallet_one), (Some (WalletManager.JBool true)).
    split; [by left|]. by split. }
  assert (Hkeys : forall wallet active key,
            wallet ∈ [activated wallet_one; wallet_two] ->
            WalletManager.get "active" wallet = Ok active ->
            WalletManager.truthy active = true ->
            WalletManager.get "privateKey" wallet = Ok key ->
            exists address, Script.wallet_address calm_startup key = Ok address).
  { intros wallet active key Hin _ _ Hk.
    apply elem_of_cons in Hin as [-> | Hin];
      [|apply elem_of_cons in Hin as [-> | Hin]; [|by apply elem_of_nil in Hin]];
      injection Hk as <-; by eexists. }
  exact (main_survives_every_cycle calm_world calm_startup _ _ 2 []
           Hrandom eq_refl Hw Hactive Hkeys).
Defined.

(** X21: when the configuration and the wallet file load but no loaded
    wallet is active, [main] exits in its first turn with the error "No
    active wallets found", before anything is read, drawn or sent. *)
Theorem main_exits_without_active_wallet (W : World) (start : Script.Startup)
    (config : Script.MainConfig) (wallets : list WalletManager.Json)
    (turns : nat) (tr : Trace) :
  Script.loadConfig start = Ok config ->
  WalletManager.loadWallets (Script.WALLET_FILE start) (Script.files start) = Ok wallets ->
  (forall wallet active,
     wallet ∈ wallets -> WalletManager.get "active" wallet = Ok active ->
     WalletManager.truthy active = false) ->
  Script.main W (S turns) start tr = (Ok (Some "No active wallets found"), tr).
Proof.
  intros Hc Hw Hidle.
  rewrite (main_run W start config wallets (S turns) tr Hc Hw).
  destruct (loadWallets_loaded _ _ _ Hw) as [_ Hloaded].
  destruct (filter_active_loaded _ Hloaded) as [active Hact].
  pose proof (filter_active_spec _ _ Hact) as Hspec.
  assert (active = []) as ->.
  { destruct active as [|w rest]; [done|].
    destruct (proj1 (Hspec w) ltac:(by left)) as (Hin & a & Ha & Ht).
    specialize (Hidle _ _ Hin Ha). congruence. }
  cbn [Script.main_loop]. unfold bind at 1.
  unfold Script.main_iteration, bind, lift. by rewrite Hact.
Qed.

Lemma main_exits_without_active_wallet_witness :
  Script.main calm_world 3 idle_startup [] = (Ok (Some "No active wallets found"), []).
Proof.
  assert (Hw : WalletManager.loadWallets (Script.WALLET_FILE idle_startup)
                 (Script.files idle_startup) = Ok [wallet_two])
    by (vm_compute; reflexivity).
  assert (Hidle : forall wallet active,
            wallet ∈ [wallet_two] -> WalletManager.get "active" wallet = Ok active ->
            WalletManager.truthy active = false).
  { intros wallet active Hin Ha.
    apply elem_of_cons in Hin as [-> | Hin]; [|by apply elem_of_nil in Hin].
    by injection Ha as <-. }
  exact (main_exits_without_active_wallet calm_world idle_startup _ _ 2 []
           eq_refl Hw Hidle).
Defined.

(** X22: building the signer lies outside the [try] that guards a cycle:
    when the signer rejects the private key of every active wallet, [main]
    exits in its first turn with the signer's error for a loaded wallet,
    after drawing the wallet with [Math.random()] in [0, 1) and before any
    chain is read. *)
Theorem rejected_key_is_fatal (W : World) (start : Script.Startup)
    (config : Script.MainConfig) (wallets : list WalletManager.Json)
    (turns : nat) (tr : Trace) :
  (forall t, 0 <= Math_random W t < 2 ^ 53) ->
  Script.loadConfig start = Ok config ->
  WalletManager.loadWallets (Script.WALLET_FILE start) (Script.files start) = Ok wallets ->
  (exists wallet active,
     wallet ∈ wallets /\ WalletManager.get "active" wallet = Ok active /\
     WalletManager.truthy active = true) ->
  (forall wallet active key,
     wallet ∈ wallets -> WalletManager.get "active" wallet = Ok active ->
     WalletManager.truthy active = true ->
     WalletManager.get "privateKey" wallet = Ok key ->
     exists e, Script.wallet_address start key = Throw e) ->
  exists wallet key e,
    wallet ∈ wallets /\ WalletManager.get "privateKey" wallet = Ok key /\
    Script.wallet_address start key = Throw e /\
    Script.main W (S turns) start tr =
      (Ok (Some e), EvRandom (Math_random W (length tr)) :: tr).
Proof.
  intros Hrandom Hc Hw (wallet & a & Hin & Ha & Ht) Hkeys.
  rewrite (main_run W start config wallets (S turns) tr Hc Hw).
  destruct (loadWallets_loaded _ _ _ Hw) as [_ Hloaded].
  destruct (filter_active_loaded _ Hloaded) as [active Hact].
  pose proof (filter_active_spec _ _ Hact) as Hspec.
  assert (Hne : active <> []).
  { intros ->. eapply elem_of_nil, Hspec. eauto. }
  destruct (main_iteration_run W Hrandom start wallets config active tr Hact Hne)
    as (w & [Hw' (a' & Ha' & Ht')]%Hspec & Hrun).
  rewrite Forall_forall in Hloaded.
  destruct (loaded_get w) as [_ [key Hk]]; [by apply Hloaded|].
  destruct (Hkeys w a' (Some key) Hw' Ha' Ht' Hk) as [e He].
  cbv zeta in Hrun. rewrite Hk, He in Hrun.
  exists w, (Some key), e. split; [done|]. split; [done|]. split; [done|].
  cbn [Script.main_loop]. unfold bind at 1. by rewrite Hrun.
Qed.

Lemma rejected_key_is_fatal_witness :
  exists wallet key e,
    wallet ∈ [activated wallet_one; wallet_two] /\
    WalletManager.get "privateKey" wallet = Ok key /\
    Script.wallet_address strict_startup key = Throw e /\
    Script.main calm_world 2 strict_startup [] =
      (Ok (Some e), EvRandom (Math_random calm_world (length (@nil Event))) :: []).
Proof.
  assert (Hrandom : forall t, 0 <= Math_random calm_world t < 2 ^ 53) by (cbn; lia).
  assert (Hw : WalletManager.loadWallets (Script.WALLET_FILE strict_startup)
                 (Script.files strict_startup) = Ok [activated wallet_one; wallet_two])
    by (vm_compute; reflexivity).
  assert (Hactive : exists wallet active,
            wallet ∈ [activated wallet_one; wallet_two] /\
            WalletManager.get "active" wallet = Ok active /\
            WalletManager.truthy active = true).
  { exists (activated wallet_one), (Some (WalletManager.JBool true)).
    split; [by left|]. by split. }
  assert (Hkeys : forall wallet active key,
            wallet ∈ [activated wallet_one; wallet_two] ->
            WalletManager.get "active" wallet = Ok active ->
            WalletManager.truthy active = true ->
            WalletManager.get "privateKey" wallet = Ok key ->
            exists e, Script.wallet_address strict_startup key = Throw e).
  { intros. by eexists. }
  exact (rejected_key_is_fatal calm_world strict_startup _ _ 1 []
           Hrandom eq_refl Hw Hactive Hkeys).
Defined.

(** ** The gas reserve *)

Section ReservePass.
Import EthereumUtils BridgeService Script.
Variable W : World.
Variable wallet : string.
Variable config : Config.

Local Abbreviation RM := reserve_monitor.

Lemma reserve_state tr : mon_state RM tr = last_native_read tr.
Proof. induction tr as [|ev tr IH]; [done|]. cbn. rewrite IH. by destruct ev. Qed.

Ltac r_side :=
  lazymatch goal with
  | |- mon_ok _ _ _ => cbn; try done
  | |- _ => cbn [mon_step reserve_monitor]
  end.

Lemma reserve_ignores_reads s ev :
  is_read ev -> mon_ok RM s ev /\ mon_step RM s ev = s.
Proof. by destruct ev. Qed.

(** Computations that ask 1inch nothing. *)
Lemma checkGasPrice_reserve c (Q : Res GasCheck -> _ -> Prop) s :
  (forall g, Q (Ok g) s) -> mwp RM (checkGasPrice W c) Q s.
Proof. intros HQ. unfold checkGasPrice. repeat (mwp_step; r_side); apply HQ. Qed.

Lemma approveToken_reserve cw token spender options (Q : Res bool -> _ -> Prop) s :
  (forall r, Q r s) -> mwp RM (approveToken W cw token spender options) Q s.
Proof. intros HQ. unfold approveToken. repeat (mwp_step; r_side); apply HQ. Qed.

Lemma requestBridgeQuote_reserve params (Q : Res BridgeQuote -> _ -> Prop) s :
  (forall r, Q r s) -> mwp RM (requestBridgeQuote W params) Q s.
Proof.
  intros HQ. unfold requestBridgeQuote, RelayService.requestQuote.
  repeat (mwp_step; r_side); apply HQ.
Qed.

Lemma executeBridgeTransaction_reserve w quote (Q : Res BridgeResult -> _ -> Prop) s :
  (forall r, Q r s) -> mwp RM (executeBridgeTransaction W w quote) Q s.
Proof. intros HQ. unfold executeBridgeTransaction. repeat (mwp_step; r_side); apply HQ. Qed.

Lemma checkBridgeStatus_reserve requestId (Q : Res (option string) -> _ -> Prop) s :
  (forall r, Q r s) -> mwp RM (checkBridgeStatus W requestId) Q s.
Proof. intros HQ. unfold checkBridgeStatus. repeat (mwp_step; r_side); apply HQ. Qed.

Lemma findDestinationChain_reserve src (Q : Res Z -> _ -> Prop) s :
  (forall r, Q r s) -> mwp RM (findDestinationChain W src) Q s.
Proof. intros HQ. unfold findDestinationChain. repeat (mwp_step; r_side); apply HQ. Qed.

Ltac r_call :=
  lazymatch goal with
  | |- mwp _ (checkGasPrice _ _) _ _ => apply checkGasPrice_reserve; intros ?
  | |- mwp _ (approveToken _ _ _ _ _) _ _ => apply approveToken_reserve; intros ?
  | |- mwp _ (requestBridgeQuote _ _) _ _ => apply requestBridgeQuote_reserve; intros ?
  | |- mwp _ (executeBridgeTransaction _ _ _) _ _ =>
      apply executeBridgeTransaction_reserve; intros ?
  | |- mwp _ (checkBridgeStatus _ _) _ _ => apply checkBridgeStatus_reserve; intros ?
  | |- mwp _ (findDestinationChain _ _) _ _ => apply findDestinationChain_reserve; intros ?
  | |- mwp _ (checkTokenBalancesAcrossChains _ _) _ _ =>
      apply snapshot_mwp; [apply reserve_ignores_reads|intros ?]
  end.

Ltac r_run := repeat (first [r_call | mwp_step]; r_side).

Lemma executeSwap_reserve cw quoteData gasLimit (Q : Res SwapResult -> _ -> Prop) s :
  (forall r, Q r s) -> mwp RM (executeSwap W cw quoteData gasLimit) Q s.
Proof. intros HQ. unfold executeSwap. r_run; apply HQ. Qed.

Lemma bridge_after_swap_reserve cw bestToken swapTargetSymbol toAmount toToken
    (Q : Res CycleEnd -> _ -> Prop) s :
  (forall r, Q r s) ->
  mwp RM (bridge_after_swap W wallet config cw bestToken swapTargetSymbol
            toAmount toToken) Q s.
Proof. intros HQ. unfold bridge_after_swap. r_run; apply HQ. Qed.

Lemma swap_and_bridge_reserve cw bestToken swapTargetSymbol swapQuote tx ethBalance
    (Q : Res CycleEnd -> _ -> Prop) s :
  (forall r, Q r s) ->
  mwp RM (swap_and_bridge W wallet config cw bestToken swapTargetSymbol swapQuote
            tx ethBalance) Q s.
Proof.
  intros HQ. unfold swap_and_bridge.
  repeat (first [ apply executeSwap_reserve; intros ?
                | apply bridge_after_swap_reserve; intros ?
                | r_call | mwp_step ]; r_side);
    apply HQ.
Qed.

(** The rescue reads the native balance on Base, so the state it leaves is
    not known; it asks 1inch nothing. *)
Lemma bridgeETHForGas_reserve target (Q : Res bool -> _ -> Prop) s :
  (forall ok s', Q (Ok ok) s') -> mwp RM (bridgeETHForGas W wallet target) Q s.
Proof. intros HQ. unfold bridgeETHForGas. r_run; apply HQ. Qed.

(** The guard lets the cycle go on only in a state that shows the reserve
    on the source chain. *)
Lemma gas_guard_reserve src ethBalance (Q : Res (option CycleEnd) -> _ -> Prop) s :
  s = Some (src, wallet, Ok ethBalance) ->
  (forall b, GAS_RESERVE <= b -> Q (Ok None) (Some (src, wallet, Ok b))) ->
  (forall stop s', Q (Ok (Some stop)) s') ->
  (forall e s', Q (Throw e) s') ->
  mwp RM (gas_guard W wallet src ethBalance) Q s.
Proof.
  intros -> HQ1 HQ2 HQ3. unfold gas_guard. cbv zeta.
  mwp_step; [|mwp_step; apply HQ1; lia].
  mwp_step. apply bridgeETHForGas_reserve. intros ok s'.
  mwp_step; [|mwp_step; apply HQ2].
  mwp_step. mwp_step; [done|]. r_side.
  destruct r as [updated|e]; [|apply HQ3].
  mwp_step; mwp_step; [apply HQ1; lia|apply HQ2].
Qed.

Lemma getQuote_reserve from to amount c (Q : Res (option QuoteData) -> _ -> Prop) s :
  reserve_seen s (mkSwapParams c from to amount wallet wallet) ->
  (forall r, Q r s) ->
  mwp RM (getQuote W wallet wallet from to amount c) Q s.
Proof.
  intros Hok HQ. unfold getQuote.
  mwp_step. cbv zeta. mwp_step. mwp_step; [done|]. r_side.
  destruct r as [data|e]; repeat mwp_step; apply HQ.
Qed.

Lemma executeBridgeCycle_reserve (Q : Res CycleEnd -> _ -> Prop) s :
  (forall r s', Q r s') -> mwp RM (executeBridgeCycle W wallet config) Q s.
Proof.
  intros HQ. unfold executeBridgeCycle.
  mwp_step. r_call. mwp_step. mwp_step.
  destruct (findBestTokenToBridge balances) as [bestToken|e]; [|apply HQ].
  mwp_step. mwp_step. mwp_step; [|apply HQ].
  mwp_step; [mwp_step; apply HQ|].
  cbv zeta. mwp_step. r_call. mwp_step; [mwp_step; apply HQ|].
  mwp_step. mwp_step; [done|]. r_side.
  destruct r as [ethBalance|e]; [|apply HQ].
  mwp_step. apply gas_guard_reserve; [done| |intros ? ?; mwp_step; apply HQ|intros ? ?; apply HQ].
  intros b Hb. mwp_step. mwp_step.
  destruct (Registry.tokenAddress _ (TARGET_TOKENS _)) as [swapTargetAddress|err];
    [|apply HQ].
  mwp_step. apply getQuote_reserve; [by exists b|]. intros resp.
  repeat (first [ apply swap_and_bridge_reserve; intros ?
                | r_call | mwp_step ]; r_side);
    apply HQ.
Qed.

(** X16: the bridge cycle asks 1inch for a swap only when the most recent
    read of a native balance before the request was a read of the balance
    of the requesting account on the chain of the swap, and returned at
    least the gas reserve of 0.0005 ETH. *)
Theorem swap_needs_gas_reserve (later earlier : Trace) (p : SwapParams)
    (r : Res (option QuoteData)) :
  (executeBridgeCycle W wallet config []).2 = later ++ EvSwapQuote p r :: earlier ->
  exists b,
    last_native_read earlier = Some (sp_chainId p, sp_from p, Ok b) /\
    GAS_RESERVE <= b.
Proof.
  intros Htrace.
  destruct (executeBridgeCycle_reserve (fun _ _ => True) None (fun _ _ => I) [] I eq_refl)
    as [Hh _].
  rewrite Htrace in Hh. apply mon_holds_suffix in Hh. destruct Hh as [Hok _].
  cbn [mon_ok reserve_monitor] in Hok. by rewrite reserve_state in Hok.
Qed.

End ReservePass.

Lemma swap_needs_gas_reserve_witness :
  calm_trace = take 19 calm_trace ++
               EvSwapQuote calm_swap_request (Ok (Some oneinch_answer)) ::
               drop 20 calm_trace /\
  exists b,
    last_native_read (drop 20 calm_trace) =
      Some (sp_chainId calm_swap_request, sp_from calm_swap_request, Ok b) /\
    Script.GAS_RESERVE <= b.
Proof.
  assert (H : calm_trace = take 19 calm_trace ++
                EvSwapQuote calm_swap_request (Ok (Some oneinch_answer)) ::
                drop 20 calm_trace) by (vm_compute; reflexivity).
  split; [exact H|].
  exact (swap_needs_gas_reserve calm_world calm_wallet (Script.mkConfig None)
           (take 19 calm_trace) (drop 20 calm_trace) calm_swap_request
           (Ok (Some oneinch_answer)) H).
Defined.
